(** * The video composition engine: sizing, layout modes, filter graphs, batching

    A shallow embedding of the composition core of the video processor
    (ImageHandlingModes.js, MathematicalSizing.js, FFmpegRenderer.js,
    PlatformTemplates.js, VideoGenerator.js) and the properties its
    specification states about it.

    JavaScript numbers are IEEE-754 doubles.  The embedding is written once,
    over the interface [JSNumber] of the operations the code applies to
    numbers, and read in two ways:
    - [exact]: numbers are rationals and every operation is exact.  The
      general theorems on sizes and durations are stated here.  Rounding
      error, overflow and the special values are outside this reading: a
      value the code computes just beside a threshold or a rounding tie may
      fall on the other side of it than the rational does.
    - [ieee]: numbers are binary64 floats with the machine operations.  It is
      used to run the code on concrete inputs, in particular where a division
      by zero produces Infinity or NaN or where a value falls on a threshold. *)

From Stdlib Require Import ZArith QArith Qround Qabs Qminmax Lqa Lia.
From Stdlib Require Import Bool List String Ascii.
From Stdlib Require Import PrimFloat Uint63.
Import ListNotations.

Set Implicit Arguments.
Open Scope string_scope.
Open Scope list_scope.

(** ** Numbers *)

Class JSNumber (num : Type) : Type := {
  lit : Z -> positive -> num;        (* the literal m/d, e.g. 0.15 is lit 15 100 *)
  nadd : num -> num -> num;
  nsub : num -> num -> num;
  nmul : num -> num -> num;
  ndiv : num -> num -> num;
  nlt : num -> num -> bool;          (* a < b *)
  nabs : num -> num;                 (* Math.abs *)
  nmin : num -> num -> num;          (* Math.min *)
  nmax : num -> num -> num;          (* Math.max *)
  nround : num -> num;               (* Math.round *)
  nceil : num -> num;                (* Math.ceil *)
  truthy : num -> bool               (* ToBoolean: false on 0 and NaN *)
}.

Declare Scope js_scope.
Delimit Scope js_scope with js.
Infix "+" := nadd : js_scope.
Infix "-" := nsub : js_scope.
Infix "*" := nmul : js_scope.
Infix "/" := ndiv : js_scope.
Notation "a <? b" := (nlt a b) : js_scope.
Notation "a >? b" := (nlt b a) : js_scope.

Definition int {num} `{JSNumber num} (z : Z) : num := lit z 1.

(* a || b on numbers *)
Definition or_default {num} `{JSNumber num} (a b : num) : num :=
  if truthy a then a else b.

(** *** Exact reading *)

Definition Qltb (a b : Q) : bool := negb (Qle_bool b a).

#[export] Instance exact : JSNumber Q := {
  lit m d := m # d;
  nadd := Qplus;
  nsub := Qminus;
  nmul := Qmult;
  ndiv := Qdiv;
  nlt := Qltb;
  nabs := Qabs;
  nmin := Qmin;
  nmax := Qmax;
  nround x := inject_Z (Qfloor (x + (1 # 2)));
  nceil x := inject_Z (Qceiling x);
  truthy x := negb (Qeq_bool x 0)
}.

(** *** IEEE reading *)

Module Ieee.
Local Open Scope float_scope.

Definition of_Z (z : Z) : float :=
  if (z <? 0)%Z then - PrimFloat.of_uint63 (Uint63.of_Z (- z))
  else PrimFloat.of_uint63 (Uint63.of_Z z).

Definition two52 : float := 0x1p52.

(* Math.floor: below 2^52 in magnitude, adding and removing 2^52 rounds to
   an integer, which is then moved down when it lies above the argument; a
   zero keeps its sign. *)
Definition floor (x : float) : float :=
  if is_nan x then x
  else if x =? 0 then x
  else if abs x <? two52 then
    let r := if x <? 0 then - ((- x + two52) - two52) else (x + two52) - two52 in
    if x <? r then r - 1 else r
  else x.

Definition ceil (x : float) : float := - floor (- x).

(* Math.round: the nearest integer, ties towards +Infinity; an argument from
   -0.5 up to -0 gives -0. *)
Definition round (x : float) : float :=
  let r := floor x in
  if x - r <? 0.5 then r
  else if is_nan x then x
  else if (x <? 0) && (r + 1 =? 0) then neg_zero
  else r + 1.

Definition min (a b : float) : float :=
  if is_nan a || is_nan b then nan else if b <? a then b else a.

Definition max (a b : float) : float :=
  if is_nan a || is_nan b then nan else if a <? b then b else a.

Definition to_boolean (x : float) : bool := negb (is_nan x || (x =? 0)).

Definition is_finite (x : float) : bool :=
  negb (is_nan x || is_infinity x).

End Ieee.

#[export] Instance ieee : JSNumber float := {
  lit m d := PrimFloat.div (Ieee.of_Z m) (Ieee.of_Z (Zpos d));
  nadd := PrimFloat.add;
  nsub := PrimFloat.sub;
  nmul := PrimFloat.mul;
  ndiv := PrimFloat.div;
  nlt := PrimFloat.ltb;
  nabs := PrimFloat.abs;
  nmin := Ieee.min;
  nmax := Ieee.max;
  nround := Ieee.round;
  nceil := Ieee.ceil;
  truthy := Ieee.to_boolean
}.

(** ** Filter graphs

    The renderer hands the encoder a filter graph written as text, chains
    separated by [;].  A chain is kept here as its input pads, its filters
    and its output pad; the comment at each constructor gives the text it
    stands for. *)

Inductive Pad : Type :=
| InV (i : nat)            (* [i:v] *)
| InA (i : nat)            (* [i:a] *)
| Bg (i : nat)             (* [bg<i>] *)
| BlurredBg (i : nat)      (* [blurred_bg<i>] *)
| Img (i : nat)            (* [img<i>] *)
| Letterboxed              (* [letterboxed] *)
| Composed                 (* [composed] *)
| Processed (i : nat)      (* [processed<i>] *)
| ProcessedObject          (* [processed[object Object]] *)
| Segment (i : nat)        (* [v<i>] *)
| Xfade (i : nat)          (* [xfade<i>] *)
| BaseVideo | Trimmed | LogoScaled | WithLogo | ReviewScaled | WithReview
| FinalVideo | DelayedVoice | MusicFaded | Audio.

Inductive AspectPolicy : Type := increase | decrease.

Inductive MixLength : Type := longest | first.

Inductive Filter (num : Type) : Type :=
(* scale=w:h:force_original_aspect_ratio=p *)
| scale (w h : num) (force_original_aspect_ratio : option AspectPolicy)
(* crop=w:h, and crop=w:h:(iw-ow)/2:(ih-oh)/2 when centred *)
| crop (w h : num) (centred : bool)
(* setsar=1 *)
| setsar1
(* color=c=c:s=wxh *)
| color (c : string) (w h : num)
(* boxblur=s:s *)
| boxblur (strength : num)
(* overlay=(W-w)/2:(H-h)/2 *)
| overlay_centred
(* overlay=x:y, with enable='between(t,a,b)' when a window is given *)
| overlay (x y : num) (window : option (num * num))
(* loop=loop=n:size=1:start=0 *)
| loop (frames : num)
(* fps=r *)
| fps (rate : num)
(* trim=duration=d *)
| trim_duration (d : num)
(* trim=0:d *)
| trim_to (d : num)
(* null *)
| null
(* xfade=transition=t:duration=d:offset=o *)
| xfade (transition : string) (duration offset : num)
(* format=yuv420p *)
| format_yuv420p
(* adelay=ms|ms *)
| adelay (ms : Z)
(* afade=t=in:st=s:d=d and afade=t=out:st=s:d=d *)
| afade_in (st d : num)
| afade_out (st d : num)
(* volume=v *)
| volume (v : num)
(* amix=inputs=n:duration=m *)
| amix (inputs : nat) (m : MixLength)
(* anullsrc=channel_layout=stereo:sample_rate=48000:duration=d *)
| anullsrc (duration : num).

Arguments setsar1 {num}.
Arguments overlay_centred {num}.
Arguments null {num}.
Arguments format_yuv420p {num}.
Arguments adelay {num} ms.
Arguments amix {num} inputs m.

Record Chain (num : Type) : Type := mkChain {
  inputs : list Pad;
  filters : list (Filter num);
  output : option Pad
}.

(** ** ImageHandlingModes.js *)

Module ImageHandlingModes.

Inductive Mode : Type := CROP_FILL | LETTERBOX | BLUR_BACKGROUND | SMART_CROP.

(* this.modes *)
Definition modes (m : Mode) : string :=
  match m with
  | CROP_FILL => "crop_fill"
  | LETTERBOX => "letterbox"
  | BLUR_BACKGROUND => "blur_bg"
  | SMART_CROP => "smart_crop"
  end.

Record LetterboxParams (num : Type) : Type := {
  lb_inputIndex : nat;
  lb_videoWidth : num;
  lb_videoHeight : num;
  lb_imageWidth : num;
  lb_imageHeight : num;
  lb_backgroundColor : option string
}.

Section WithNumbers.
Context {num : Type} `{JSNumber num}.
Local Open Scope js_scope.

(* the chain returned when orientations match and aspect ratios are similar *)
Definition fillFrame (inputIndex : nat) (videoWidth videoHeight : num)
  : list (Chain num) :=
  [ mkChain [InV inputIndex]
      [scale videoWidth videoHeight (Some increase);
       crop videoWidth videoHeight false]
      (Some Letterboxed) ].

(* the chains returned otherwise *)
Definition bars (backgroundColor : string) (inputIndex : nat)
  (videoWidth videoHeight : num) : list (Chain num) :=
  [ mkChain [] [color backgroundColor videoWidth videoHeight]
      (Some (Bg inputIndex));
    mkChain [InV inputIndex]
      [scale videoWidth videoHeight (Some decrease)]
      (Some (Img inputIndex));
    mkChain [Bg inputIndex; Img inputIndex] [overlay_centred]
      (Some Letterboxed) ].

Definition buildLetterboxFilter (params : LetterboxParams num) : list (Chain num) :=
  let inputIndex := lb_inputIndex params in
  let videoWidth := lb_videoWidth params in
  let videoHeight := lb_videoHeight params in
  let imageWidth := lb_imageWidth params in
  let imageHeight := lb_imageHeight params in
  let backgroundColor :=
    match lb_backgroundColor params with Some c => c | None => "#2a2a2a" end in
  let videoAspectRatio := videoWidth / videoHeight in
  let imageAspectRatio := imageWidth / imageHeight in
  let videoIsVertical := videoAspectRatio <? int 1 in
  let imageIsVertical := imageAspectRatio <? int 1 in
  let orientationsMatch := Bool.eqb videoIsVertical imageIsVertical in
  let aspectRatioSimilarity :=
    nabs (videoAspectRatio - imageAspectRatio) / videoAspectRatio in
  let aspectRatiosAreSimilar := aspectRatioSimilarity <? lit 15 100 in
  if orientationsMatch && aspectRatiosAreSimilar
  then fillFrame inputIndex videoWidth videoHeight
  else bars backgroundColor inputIndex videoWidth videoHeight.

Definition buildBlurBackgroundFilter (inputIndex : nat)
  (videoWidth videoHeight : num) (blurStrength : num) : list (Chain num) :=
  [ mkChain [InV inputIndex]
      [scale (videoWidth * lit 12 10) (videoHeight * lit 12 10) (Some increase);
       crop videoWidth videoHeight false;
       boxblur blurStrength]
      (Some (BlurredBg inputIndex));
    mkChain [InV inputIndex]
      [scale videoWidth videoHeight (Some decrease)]
      (Some (Img inputIndex));
    mkChain [BlurredBg inputIndex; Img inputIndex] [overlay_centred]
      (Some Composed) ].

(* The text this builder returns ends without an output pad; the caller
   appends one. *)
Definition buildCropFillFilter (inputIndex : nat)
  (videoWidth videoHeight : num) (scale_ : num) : Chain num :=
  let scaledWidth := nround (videoWidth * scale_) in
  let scaledHeight := nround (videoHeight * scale_) in
  mkChain [InV inputIndex]
    [scale scaledWidth scaledHeight (Some increase);
     crop scaledWidth scaledHeight true;
     setsar1]
    None.

Definition recommendMode (imageAspect videoAspect : num) : Mode :=
  let mismatchRatio := nabs (imageAspect - videoAspect) / videoAspect in
  if mismatchRatio <? lit 2 10 then CROP_FILL
  else if mismatchRatio <? lit 5 10 then BLUR_BACKGROUND
  else LETTERBOX.

End WithNumbers.
End ImageHandlingModes.

(** ** MathematicalSizing.js *)

Module MathematicalSizing.

Inductive Reference : Type := ref_height | ref_width.   (* 'height', 'width' *)

Record PlatformConfig (num : Type) : Type := {
  aspectRatio : num;
  logoHeightPercent : num;
  reference : Reference;
  minSize : num;
  maxSize : num;
  maxWidthPercent : option num
}.

Record Position (num : Type) : Type := { pos_x : num; pos_y : num }.

Record LogoSize (num : Type) : Type := {
  width : num;
  height : num;
  x : num;
  y : num;
  scale : num;
  used_reference : Reference;
  targetPercentage : num
}.

(* what calculateAdaptiveGraphicSize and calculateReviewCardSize return *)
Inductive ReviewCardSize (num : Type) : Type :=
| adaptive (width height x y scale coverage : num)
| forced (width height x y padding : num).

Record AdaptiveOptions (num : Type) : Type := {
  maxCoverage : option num;
  minCoverage : option num;
  position : option string
}.

Record TextSizes (num : Type) : Type := {
  title : num;
  subtitle : num;
  body : num;
  caption : num
}.

Record SafeZones (num : Type) : Type := {
  zone_left : num;
  zone_top : num;
  zone_right : num;
  zone_bottom : num;
  zone_width : num;
  zone_height : num;
  centerX : num;
  centerY : num
}.

(* the sizes of the assets handed to calculateAllSizes: width, height *)
Record AssetSizes (num : Type) : Type := {
  logo : option (num * num);
  reviewCard : option (num * num)
}.

Record AllSizes (num : Type) : Type := {
  video : num * num;
  for_platform : string;
  video_aspectRatio : num;
  logo_size : option (LogoSize num);
  text : TextSizes num;
  reviewCard_size : ReviewCardSize num;
  safeZones : SafeZones num
}.

Section WithNumbers.
Context {num : Type} `{JSNumber num}.
Local Open Scope js_scope.

Definition PHI : num := lit 1618033988749895 1000000000000000.
Definition PHI_INVERSE : num := lit 618033988749895 1000000000000000.
Definition MAX_LOGO_HEIGHT_RATIO : num := lit 25 100.
Definition CONTENT_TO_WHITESPACE_RATIO : num := lit 4 10.
Definition MIN_CLEAR_SPACE_RATIO : num := lit 5 100.

Definition youtube : PlatformConfig num :=
  {| aspectRatio := int 16 / int 9; logoHeightPercent := lit 833 10000;
     reference := ref_height; minSize := int 80; maxSize := int 200;
     maxWidthPercent := None |}.

Definition vertical : PlatformConfig num :=
  {| aspectRatio := int 9 / int 16; logoHeightPercent := lit 10 100;
     reference := ref_width; minSize := int 100; maxSize := int 200;
     maxWidthPercent := None |}.

Definition PLATFORM_CONFIGS : list (string * PlatformConfig num) :=
  [ ("youtube", youtube);
    ("instagram_reel", vertical);
    ("tiktok", vertical);
    ("instagram_feed",
      {| aspectRatio := int 1 / int 1; logoHeightPercent := lit 125 1000;
         reference := ref_width; minSize := int 100; maxSize := int 250;
         maxWidthPercent := None |});
    ("facebook",
      {| aspectRatio := int 16 / int 9; logoHeightPercent := lit 833 10000;
         reference := ref_height; minSize := int 80; maxSize := int 200;
         maxWidthPercent := None |});
    ("linkedin",
      {| aspectRatio := int 16 / int 9; logoHeightPercent := lit 625 10000;
         reference := ref_height; minSize := int 70; maxSize := int 180;
         maxWidthPercent := Some (lit 25 100) |});
    ("youtube_shorts", vertical);
    ("facebook_reels", vertical);
    ("instagram", vertical) ].

Fixpoint lookup {A : Type} (key : string) (table : list (string * A)) : option A :=
  match table with
  | [] => None
  | (k, v) :: rest => if String.eqb key k then Some v else lookup key rest
  end.

(* this.PLATFORM_CONFIGS[platform] || this.PLATFORM_CONFIGS['youtube'], for a
   platform that is not one of the names an object inherits (constructor,
   toString, ...; see PlatformTemplates.inherited) *)
Definition configFor (platform : string) : PlatformConfig num :=
  match lookup platform PLATFORM_CONFIGS with
  | Some config => config
  | None => youtube
  end.

Definition calculateGoldenPosition
  (containerWidth containerHeight elementWidth elementHeight : num)
  (position : string) : Position num :=
  let marginX := containerWidth * MIN_CLEAR_SPACE_RATIO in
  let marginY := containerHeight * MIN_CLEAR_SPACE_RATIO in
  let goldenX := containerWidth * PHI_INVERSE in
  let goldenY := containerHeight * PHI_INVERSE in
  let bottom_right :=
    {| pos_x := containerWidth - elementWidth - marginX;
       pos_y := containerHeight - elementHeight - marginY |} in
  let positions :=
    [ ("top-left", {| pos_x := marginX; pos_y := marginY |});
      ("top-center",
        {| pos_x := (containerWidth - elementWidth) / int 2; pos_y := marginY |});
      ("top-right",
        {| pos_x := containerWidth - elementWidth - marginX; pos_y := marginY |});
      ("center",
        {| pos_x := (containerWidth - elementWidth) / int 2;
           pos_y := (containerHeight - elementHeight) / int 2 |});
      ("bottom-left",
        {| pos_x := marginX; pos_y := containerHeight - elementHeight - marginY |});
      ("bottom-center",
        {| pos_x := (containerWidth - elementWidth) / int 2;
           pos_y := containerHeight - elementHeight - marginY |});
      ("bottom-right", bottom_right);
      ("golden-top-left",
        {| pos_x := goldenX - elementWidth / int 2; pos_y := marginY |});
      ("golden-bottom-right",
        {| pos_x := containerWidth - goldenX - elementWidth / int 2;
           pos_y := containerHeight - goldenY - elementHeight / int 2 |}) ] in
  match lookup position positions with
  | Some p => p
  | None => bottom_right
  end.

(* Step 3 of calculateLogoSize: (scaledHeight, scaledWidth) *)
Definition scaledSize (config : PlatformConfig num)
  (videoWidth targetSize logoAspectRatio : num) : num * num :=
  if logoAspectRatio >? int 1 then
    let scaledHeight := targetSize in
    let scaledWidth := targetSize * logoAspectRatio in
    let maxWidth := videoWidth * PHI_INVERSE * lit 5 10 in
    let maxWidth :=
      match maxWidthPercent config with
      | Some percent =>
          if truthy percent && (videoWidth * percent <? maxWidth)
          then videoWidth * percent else maxWidth
      | None => maxWidth
      end in
    if scaledWidth >? maxWidth
    then (maxWidth / logoAspectRatio, maxWidth)
    else (scaledHeight, scaledWidth)
  else (targetSize, targetSize * logoAspectRatio).

(* Step 4 of calculateLogoSize: scale and finalHeight *)
Definition logoScale (config : PlatformConfig num)
  (scaledHeight originalLogoWidth originalLogoHeight logoAspectRatio : num) : num :=
  nmin (nmin (scaledHeight / originalLogoHeight)
             (maxSize config / originalLogoHeight))
       (maxSize config / originalLogoWidth * logoAspectRatio).

Definition finalHeightOf (config : PlatformConfig num)
  (originalLogoHeight scale_ : num) : num :=
  nmax (nmin (originalLogoHeight * scale_) (maxSize config)) (minSize config).

Definition calculateLogoSize (platform : string)
  (videoWidth videoHeight originalLogoWidth originalLogoHeight : num)
  : LogoSize num :=
  let config := configFor platform in
  let aspectRatio := videoWidth / videoHeight in
  let referenceDimension :=
    if match reference config with ref_width => true | ref_height => false end
       || (aspectRatio <? lit 7 10)
    then videoWidth else videoHeight in
  let targetSize := referenceDimension * logoHeightPercent config in
  let logoAspectRatio := originalLogoWidth / originalLogoHeight in
  let '(scaledHeight, scaledWidth) :=
    scaledSize config videoWidth targetSize logoAspectRatio in
  let scale_ :=
    logoScale config scaledHeight originalLogoWidth originalLogoHeight
      logoAspectRatio in
  let finalHeight := finalHeightOf config originalLogoHeight scale_ in
  let finalWidth := finalHeight * logoAspectRatio in
  let position :=
    calculateGoldenPosition videoWidth videoHeight finalWidth finalHeight
      "bottom-right" in
  {| width := nround finalWidth;
     height := nround finalHeight;
     x := nround (pos_x position);
     y := nround (pos_y position);
     scale := scale_;
     used_reference := reference config;
     targetPercentage := logoHeightPercent config * int 100 |}.

(* o || d for a number that may be absent *)
Definition option_or (o : option num) (d : num) : num :=
  match o with
  | Some v => or_default v d
  | None => d
  end.

Definition calculateAdaptiveGraphicSize (platform : string)
  (videoWidth videoHeight originalWidth originalHeight : num)
  (options : AdaptiveOptions num) : ReviewCardSize num :=
  let graphicAspectRatio := originalWidth / originalHeight in
  let maxCoverageRatio := option_or (maxCoverage options) (lit 45 100) in
  let minCoverageRatio := option_or (minCoverage options) (lit 25 100) in
  let margin := videoWidth * MIN_CLEAR_SPACE_RATIO in
  let availableWidth :=
    nmin (videoWidth * maxCoverageRatio) (videoWidth - (int 2 * margin)) in
  let availableHeight := videoHeight * maxCoverageRatio in
  let '(targetWidth, targetHeight) :=
    if graphicAspectRatio >? (availableWidth / availableHeight)
    then (availableWidth, availableWidth / graphicAspectRatio)
    else (availableHeight * graphicAspectRatio, availableHeight) in
  let '(targetWidth, targetHeight) :=
    if targetWidth >? videoWidth - (int 2 * margin)
    then (videoWidth - (int 2 * margin),
          (videoWidth - (int 2 * margin)) / graphicAspectRatio)
    else (targetWidth, targetHeight) in
  let maxAllowedWidth := videoWidth - (int 2 * margin) in
  let minWidth := nmin (videoWidth * minCoverageRatio) maxAllowedWidth in
  let minHeight := videoHeight * minCoverageRatio in
  let '(targetWidth, targetHeight) :=
    if (targetWidth <? minWidth) || (targetHeight <? minHeight) then
      let scaleFactorW := minWidth / targetWidth in
      let scaleFactorH := minHeight / targetHeight in
      let scaleFactor := nmax scaleFactorW scaleFactorH in
      let targetWidth := targetWidth * scaleFactor in
      let targetHeight := targetHeight * scaleFactor in
      if targetWidth >? maxAllowedWidth
      then (maxAllowedWidth, maxAllowedWidth / graphicAspectRatio)
      else (targetWidth, targetHeight)
    else (targetWidth, targetHeight) in
  let targetWidth := nround (targetWidth / int 2) * int 2 in
  let targetHeight := nround (targetHeight / int 2) * int 2 in
  let position :=
    calculateGoldenPosition videoWidth videoHeight targetWidth targetHeight
      match position options with
      | Some name => if String.eqb name "" then "center" else name
      | None => "center"
      end in
  adaptive targetWidth targetHeight (pos_x position) (pos_y position)
    (targetWidth / originalWidth)
    ((targetWidth * targetHeight) / (videoWidth * videoHeight)).

(* textRatios and constraints are object literals read as textRatios[textType]
   and constraints[textType]: the tables below stand for them for a text type
   that is not one of the names an object inherits (constructor, toString,
   ...; see PlatformTemplates.inherited), for which the code computes NaN *)
Definition calculateTextSize (textType : string) (containerHeight : num)
  (platform : string) : num :=
  let textRatios :=
    [ ("title", lit 5 100); ("subtitle", lit 3 100);
      ("body", lit 25 1000); ("caption", lit 2 100) ] in
  let ratio :=
    match lookup textType textRatios with
    | Some r => or_default r (lit 25 1000)
    | None => lit 25 1000
    end in
  let fontSize := containerHeight * ratio in
  let fontSize :=
    if String.eqb platform "tiktok" || String.eqb platform "instagram_reel"
    then fontSize * lit 12 10 else fontSize in
  let constraints :=
    [ ("title", (int 36, int 72)); ("subtitle", (int 24, int 48));
      ("body", (int 18, int 36)); ("caption", (int 14, int 24)) ] in
  let '(min, max) :=
    match lookup textType constraints with
    | Some c => c
    | None => (int 18, int 36)
    end in
  nround (nmax min (nmin fontSize max)).

Definition calculateReviewCardSize (platform : string)
  (videoWidth videoHeight : num) : ReviewCardSize num :=
  let aspectRatio := videoWidth / videoHeight in
  let cardWidth :=
    if aspectRatio <? lit 7 10 then videoWidth * lit 9 10
    else if aspectRatio >? lit 15 10 then videoWidth * lit 45 100
    else videoWidth * lit 7 10 in
  let cardHeight := cardWidth * PHI_INVERSE in
  let maxHeight := videoHeight * lit 6 10 in
  let '(cardWidth, cardHeight) :=
    if cardHeight >? maxHeight
    then (maxHeight / PHI_INVERSE, maxHeight)
    else (cardWidth, cardHeight) in
  let x := (videoWidth - cardWidth) / int 2 in
  let y := (videoHeight - cardHeight) / int 2 in
  forced (nround cardWidth) (nround cardHeight) (nround x) (nround y)
    (nround (cardWidth * lit 5 100)).

(* safeZoneRatios[platform] || 0.05, for a platform that is not one of the
   names an object inherits (see PlatformTemplates.inherited), for which the
   code computes NaN margins *)
Definition calculateSafeZones (width height : num) (platform : string)
  : SafeZones num :=
  let safeZoneRatios :=
    [ ("youtube", lit 5 100); ("tiktok", lit 1 10);
      ("instagram_reel", lit 12 100); ("instagram_feed", lit 5 100);
      ("facebook", lit 5 100) ] in
  let ratio :=
    match lookup platform safeZoneRatios with
    | Some r => or_default r (lit 5 100)
    | None => lit 5 100
    end in
  let marginX := width * ratio in
  let marginY := height * ratio in
  {| zone_left := marginX;
     zone_top := marginY;
     zone_right := width - marginX;
     zone_bottom := height - marginY;
     zone_width := width - (int 2 * marginX);
     zone_height := height - (int 2 * marginY);
     centerX := width / int 2;
     centerY := height / int 2 |}.

(* adaptiveGraphics stands for options.adaptiveGraphics !== false *)
Definition calculateAllSizes (platform : string) (videoWidth videoHeight : num)
  (assets : AssetSizes num) (adaptiveGraphics : bool) : AllSizes num :=
  {| video := (videoWidth, videoHeight);
     for_platform := platform;
     video_aspectRatio := videoWidth / videoHeight;
     logo_size :=
       match logo assets with
       | Some (logoWidth, logoHeight) =>
           Some (calculateLogoSize platform videoWidth videoHeight
                   logoWidth logoHeight)
       | None => None
       end;
     text :=
       {| title := calculateTextSize "title" videoHeight platform;
          subtitle := calculateTextSize "subtitle" videoHeight platform;
          body := calculateTextSize "body" videoHeight platform;
          caption := calculateTextSize "caption" videoHeight platform |};
     reviewCard_size :=
       match reviewCard assets with
       | Some (cardWidth, cardHeight) =>
           if truthy cardWidth && truthy cardHeight && adaptiveGraphics
           then calculateAdaptiveGraphicSize platform videoWidth videoHeight
                  cardWidth cardHeight
                  {| maxCoverage := Some (lit 45 100);
                     minCoverage := Some (lit 25 100);
                     position := Some "center" |}
           else calculateReviewCardSize platform videoWidth videoHeight
       | None => calculateReviewCardSize platform videoWidth videoHeight
       end;
     safeZones := calculateSafeZones videoWidth videoHeight platform |}.

End WithNumbers.
End MathematicalSizing.

(** ** FFmpegRenderer.js *)

Module FFmpegRenderer.

(* this.IMAGE_MODES *)
Inductive ImageMode : Type := CROP_FILL | LETTERBOX | BLUR_BACKGROUND | AUTO.

Record Transition (num : Type) : Type := {
  t_type : option string;
  t_duration : num
}.

(* the x, y, width and height the overlay filters read from a size *)
Record OverlayBox (num : Type) : Type := {
  box_width : num;
  box_height : num;
  box_x : num;
  box_y : num
}.

(* options of buildCommand and buildCommandChunked *)
Record Options (num : Type) : Type := {
  images : list string;
  voiceOver : option string;
  backgroundMusic : option string;
  logo : option string;
  reviewImage : option string;
  outputPath : string;
  videoWidth : num;
  videoHeight : num;
  duration : num;
  logoSize : option (OverlayBox num);
  reviewCardSize : option (OverlayBox num);
  preset : option string;
  quality : option num;
  imageMode : option ImageMode;
  transition : option (Transition num)
}.

(* options of buildFilterComplex *)
Record FilterOptions (num : Type) : Type := {
  fc_images : list string;
  fc_videoWidth : num;
  fc_videoHeight : num;
  fc_duration : num;
  fc_logoSize : option (OverlayBox num);
  fc_reviewCardSize : option (OverlayBox num);
  fc_voiceIndex : option nat;
  fc_musicIndex : option nat;
  fc_logoIndex : option nat;
  fc_reviewIndex : option nat;
  fc_imageMode : option ImageMode;
  fc_transition : option (Transition num)
}.

Record Chunk : Type := {
  chunk_images : list string;
  startIdx : nat;
  hasOverlap : bool
}.

(* one pass of the loop that joins chunk i to the video stitched so far *)
Record Join (num : Type) : Type := {
  overlapDuration : num;
  offset : num;
  join_filter : Chain num;
  outputDuration : num          (* the running value after the pass *)
}.

Inductive Concatenation (num : Type) : Type :=
| one_chunk                                   (* straight to addAudioAndOverlays *)
| joined (joins : list (Join num)) (finalDuration : num).

Record ChunkedRender (num : Type) : Type := {
  chunks : list Chunk;
  chunkDurations : list num;
  renders : list (FilterOptions num);       (* one renderChunk call per chunk *)
  concatenation : option (Concatenation num)  (* None: the call throws *)
}.

Inductive Command (num : Type) : Type :=
| single_pass (inputs : list string) (filterOptions : FilterOptions num)
| chunked (render : option (ChunkedRender num)).

Arguments one_chunk {num}.

(* the labels of the command that adds the audio and the overlays *)
Inductive Label : Type :=
| stream_v (i : nat)          (* [i:v] *)
| stream_a (i : nat)          (* [i:a] *)
| label_music                 (* [music] *)
| label_final_audio           (* [final_audio] *)
| label_logo_scaled           (* [logo_scaled] *)
| label_with_logo             (* [with_logo] *)
| label_review_scaled         (* [review_scaled] *)
| label_final_video.          (* [final_video] *)

Inductive Operation (num : Type) : Type :=
| video_or_audio (filter : Filter num)
| anull.                      (* anull *)

Arguments anull {num}.

Record Link (num : Type) : Type := mkLink {
  link_inputs : list Label;
  operations : list (Operation num);
  link_output : Label
}.

(* the command addAudioAndOverlays runs *)
Record Finish (num : Type) : Type := {
  finish_inputs : list string;
  looped : list string;               (* inputs read with -stream_loop -1 *)
  finish_filters : list (Link num);
  maps : list Label;                  (* -map, twice *)
  finish_t : num                      (* -t *)
}.

(* a path or other string used as a condition: missing and empty are false *)
Definition given (s : option string) : bool :=
  match s with
  | Some text => negb (String.eqb text "")
  | None => false
  end.

Section WithNumbers.
Context {num : Type} `{JSNumber num}.
Local Open Scope js_scope.

(* options.defaultImageMode || this.IMAGE_MODES.CROP_FILL, set by the constructor *)
Variable defaultImageMode : ImageMode.

(* ffprobe on an image: its width and height, or None when the probe fails *)
Variable getImageDimensions : string -> option (num * num).

Definition defaultTransition : Transition num :=
  {| t_type := Some "fade"; t_duration := lit 5 10 |}.

Definition orDefault {A : Type} (o : option A) (d : A) : A :=
  match o with Some a => a | None => d end.

(** *** buildCommand *)

Definition BATCH_THRESHOLD : nat := 6.

Definition adjustedTransition (options : Options num) : Transition num :=
  let transition := orDefault (transition options) defaultTransition in
  let n := List.length (images options) in
  {| t_type := t_type transition;
     t_duration :=
       if (8 <? n)%nat then lit 25 100
       else if (5 <? n)%nat then lit 4 10
       else lit 6 10 |}.

Definition count (b : bool) : nat := if b then 1 else 0.

(** *** buildCommandChunked *)

Definition CHUNK_SIZE : nat := 3.
Definition OVERLAP : nat := 1.

(* images[k]; the loop below only reads inside the list *)
Definition at_ (images : list string) (k : nat) : string := nth k images "".

Fixpoint chunkLoop (fuel : nat) (images : list string) (idx : nat)
  (chunks : list Chunk) : option (list Chunk) :=
  if (idx <? List.length images)%nat then
    match fuel with
    | O => None
    | S fuel' =>
        let isFirstChunk := (List.length chunks =? 0)%nat in
        let overlap :=
          if negb isFirstChunk && (0 <? idx)%nat
          then [at_ images (idx - OVERLAP)] else [] in
        let remaining := (List.length images - idx)%nat in
        let count := Nat.min CHUNK_SIZE remaining in
        let chunkImages :=
          overlap ++ map (fun i => at_ images (idx + i)) (seq 0 count) in
        chunkLoop fuel' images (idx + count)
          (chunks ++ [ {| chunk_images := chunkImages;
                          startIdx := idx;
                          hasOverlap := negb isFirstChunk |} ])
    end
  else Some chunks.

(* every pass moves idx forward, so length images passes are enough *)
Definition chunksOf (images : list string) : option (list Chunk) :=
  chunkLoop (List.length images) images 0 [].

Definition chunkDuration (duration : num) (imageCount : nat) (chunk : Chunk) : num :=
  (duration * int (Z.of_nat (List.length (chunk_images chunk))))
  / int (Z.of_nat imageCount).

(* the options renderChunk hands to buildFilterComplex *)
Definition renderChunk (options : Options num) (chunk : Chunk)
  (chunkDuration : num) : FilterOptions num :=
  {| fc_images := chunk_images chunk;
     fc_videoWidth := videoWidth options;
     fc_videoHeight := videoHeight options;
     fc_duration := chunkDuration;
     fc_logoSize := None;
     fc_reviewCardSize := None;
     fc_voiceIndex := None;
     fc_musicIndex := None;
     fc_logoIndex := None;
     fc_reviewIndex := None;
     fc_imageMode := Some (orDefault (imageMode options) defaultImageMode);
     fc_transition := Some (orDefault (transition options) defaultTransition) |}.

(** *** concatenateChunksWithTransitions *)

Definition joinStep (chunks : list Chunk) (chunkDurations : list num)
  (transitionDuration : num) (state : list (Join num) * num) (i : nat)
  : list (Join num) * num :=
  let '(joins, outputDuration) := state in
  let inputLabel1 := if (i =? 1)%nat then InV 0 else Segment (i - 1) in
  let inputLabel2 := InV i in
  let outputLabel := Segment i in
  let prevChunk := nth (i - 1) chunks {| chunk_images := []; startIdx := 0;
                                         hasOverlap := false |} in
  let overlapDuration :=
    nth (i - 1) chunkDurations (int 0)
    / int (Z.of_nat (List.length (chunk_images prevChunk))) in
  let offset := outputDuration - overlapDuration - transitionDuration in
  let filter :=
    mkChain [inputLabel1; inputLabel2]
      [xfade "fade" transitionDuration offset] (Some outputLabel) in
  let outputDuration' :=
    outputDuration + nth i chunkDurations (int 0) - transitionDuration in
  (joins ++ [ {| overlapDuration := overlapDuration; offset := offset;
                 join_filter := filter; outputDuration := outputDuration' |} ],
   outputDuration').

Definition concatenateChunksWithTransitions (chunks : list Chunk)
  (chunkDurations : list num) (transition : option (Transition num))
  : option (Concatenation num) :=
  let transitionDuration :=
    match transition with
    | Some t => or_default (t_duration t) (lit 5 10)
    | None => lit 5 10
    end in
  match chunkDurations with
  | [] => None                                (* chunks[0].images throws *)
  | [_] => Some one_chunk
  | first_ :: _ =>
      let '(joins, outputDuration) :=
        fold_left (joinStep chunks chunkDurations transitionDuration)
          (seq 1 (List.length chunkDurations - 1)) ([], first_) in
      Some (joined joins outputDuration)
  end.

Definition buildCommandChunked (options : Options num)
  : option (ChunkedRender num) :=
  let transition := orDefault (transition options) defaultTransition in
  match chunksOf (images options) with
  | None => None
  | Some chunks =>
      let chunkDurations :=
        map (chunkDuration (duration options) (List.length (images options))) chunks in
      Some {| chunks := chunks;
              chunkDurations := chunkDurations;
              renders :=
                map (fun chunk =>
                       renderChunk options chunk
                         (chunkDuration (duration options)
                            (List.length (images options)) chunk))
                    chunks;
              concatenation :=
                concatenateChunksWithTransitions chunks chunkDurations
                  (Some transition) |}
  end.

Definition buildCommand (options : Options num) : Command num :=
  let images := images options in
  let adjustedTransition := adjustedTransition options in
  if (BATCH_THRESHOLD <? List.length images)%nat then
    chunked (buildCommandChunked options)
  else
    let voice := given (voiceOver options) in
    let music := given (backgroundMusic options) in
    let hasLogo := given (logo options) in
    let review := given (reviewImage options) in
    let voiceIndex := if voice then Some (List.length images) else None in
    let musicIndex :=
      if music then Some (List.length images + count voice)%nat else None in
    let logoIndex :=
      if hasLogo then Some (List.length images + count voice + count music)%nat
      else None in
    let reviewIndex :=
      if review
      then Some (List.length images + count voice + count music + count hasLogo)%nat
      else None in
    let keep (present : bool) (path : option string) :=
      if present then match path with Some p => [p] | None => [] end else [] in
    single_pass
      (images ++ keep voice (voiceOver options)
              ++ keep music (backgroundMusic options)
              ++ keep hasLogo (logo options)
              ++ keep review (reviewImage options))
      {| fc_images := images;
         fc_videoWidth := videoWidth options;
         fc_videoHeight := videoHeight options;
         fc_duration := duration options;
         fc_logoSize := logoSize options;
         fc_reviewCardSize := reviewCardSize options;
         fc_voiceIndex := voiceIndex;
         fc_musicIndex := musicIndex;
         fc_logoIndex := logoIndex;
         fc_reviewIndex := reviewIndex;
         fc_imageMode := Some (orDefault (imageMode options) defaultImageMode);
         fc_transition := Some adjustedTransition |}.

(** *** buildFilterComplex *)

Definition transitionOf (options : FilterOptions num) : Transition num :=
  orDefault (fc_transition options) defaultTransition.

Definition numSegments (options : FilterOptions num) : nat :=
  List.length (fc_images options).

(* transition.duration || 0.5 *)
Definition transitionDuration (options : FilterOptions num) : num :=
  or_default (t_duration (transitionOf options)) (lit 5 10).

Definition transitionCount (options : FilterOptions num) : Z :=
  Z.max 0 (Z.of_nat (numSegments options) - 1).

Definition totalTransitionTime (options : FilterOptions num) : num :=
  int (transitionCount options) * transitionDuration options.

Definition adjustedDuration (options : FilterOptions num) : num :=
  fc_duration options + totalTransitionTime options.

Definition actualImageDuration (options : FilterOptions num) : num :=
  adjustedDuration options / int (Z.of_nat (numSegments options)).

(* images.indexOf(img), for an img taken from images *)
Fixpoint indexOf (images : list string) (img : string) : nat :=
  match images with
  | [] => 0
  | first_ :: rest => if String.eqb first_ img then 0 else S (indexOf rest img)
  end.

Definition Pad_eq_dec (a b : Pad) : {a = b} + {a <> b}.
Proof. decide equality; apply Nat.eq_dec. Defined.

(* filter.replace('[from]', '[to]') on the text of a builder's chains *)
Definition relabel (from to : Pad) (chains : list (Chain num)) : list (Chain num) :=
  map (fun chain =>
         match output chain with
         | Some pad =>
             if Pad_eq_dec pad from
             then mkChain (inputs chain) (filters chain) (Some to)
             else chain
         | None => chain
         end)
      chains.

Definition processImage (options : FilterOptions num) (img : string)
  : list (Chain num) :=
  let images := fc_images options in
  let videoWidth := fc_videoWidth options in
  let videoHeight := fc_videoHeight options in
  let imageMode := orDefault (fc_imageMode options) defaultImageMode in
  let inputIndex := indexOf images img in
  let imageDims := getImageDimensions img in
  match imageMode, imageDims with
  | LETTERBOX, Some (imageWidth, imageHeight) =>
      relabel Letterboxed (Processed inputIndex)
        (ImageHandlingModes.buildLetterboxFilter
           {| ImageHandlingModes.lb_inputIndex := inputIndex;
              ImageHandlingModes.lb_videoWidth := videoWidth;
              ImageHandlingModes.lb_videoHeight := videoHeight;
              ImageHandlingModes.lb_imageWidth := imageWidth;
              ImageHandlingModes.lb_imageHeight := imageHeight;
              ImageHandlingModes.lb_backgroundColor := Some "#2a2a2a" |})
  | BLUR_BACKGROUND, _ =>
      relabel Composed (Processed inputIndex)
        (ImageHandlingModes.buildBlurBackgroundFilter inputIndex
           videoWidth videoHeight (int 30))
  | _, _ =>
      let chain :=
        ImageHandlingModes.buildCropFillFilter inputIndex
          videoWidth videoHeight (int 1) in
      [ mkChain (inputs chain) (filters chain) (Some (Processed inputIndex)) ]
  end.

(* imageMap[img] once every image has been processed.  imageMap is an object
   literal filled with imageMap[img] = images.indexOf(img): under the name
   __proto__ a number is not stored, and reading that name yields
   Object.prototype; every other name reads the index stored for it. *)
Inductive Stored : Type :=
| stored (inputIndex : nat)
| object_prototype.

Definition imageMap (images : list string) (img : string) : Stored :=
  if String.eqb img "__proto__" then object_prototype
  else stored (indexOf images img).

(* [processed${sourceIdx}] *)
Definition processedPad (sourceIdx : Stored) : Pad :=
  match sourceIdx with
  | stored inputIndex => Processed inputIndex
  | object_prototype => ProcessedObject
  end.

Definition segmentFilter (options : FilterOptions num) (idx : nat)
  (img : string) : Chain num :=
  let sourceIdx := imageMap (fc_images options) img in
  let framesForSegment := nceil (actualImageDuration options * int 30) in
  mkChain [processedPad sourceIdx]
    [loop framesForSegment; fps (int 30);
     trim_duration (actualImageDuration options)]
    (Some (Segment idx)).

(* None: imageInputs[0] is undefined and the call throws *)
Definition transitionFilters (options : FilterOptions num)
  : option (list (Chain num)) :=
  let n := numSegments options in
  match n with
  | O => None
  | 1%nat => Some [ mkChain [Segment 0] [null] (Some BaseVideo) ]
  | _ =>
      let transitionType :=
        if given (t_type (transitionOf options))
        then orDefault (t_type (transitionOf options)) "fade" else "fade" in
      Some (map (fun i =>
                   let currentLabel :=
                     if (i =? 1)%nat then Segment 0 else Xfade (i - 1) in
                   let outputLabel :=
                     if (i =? n - 1)%nat then BaseVideo else Xfade i in
                   let offset :=
                     int (Z.of_nat i) * actualImageDuration options
                     - transitionDuration options in
                   mkChain [currentLabel; Segment i]
                     [xfade transitionType (transitionDuration options) offset]
                     (Some outputLabel))
                (seq 1 (n - 1)))
  end.

Definition overlayFilters (options : FilterOptions num) : list (Chain num) :=
  let withLogo :=
    match fc_logoSize options, fc_logoIndex options with
    | Some logoSize, Some logoIndex =>
        Some [ mkChain [InV logoIndex]
                 [scale (box_width logoSize) (box_height logoSize) None]
                 (Some LogoScaled);
               mkChain [Trimmed; LogoScaled]
                 [overlay (box_x logoSize) (box_y logoSize) None]
                 (Some WithLogo) ]
    | _, _ => None
    end in
  let currentOutput := match withLogo with Some _ => WithLogo | None => Trimmed end in
  let withReview :=
    match fc_reviewCardSize options, fc_reviewIndex options with
    | Some reviewCardSize, Some reviewIndex =>
        let reviewStart := int 5 in
        let reviewEnd := nmin (int 20) (fc_duration options * lit 3 10) in
        Some [ mkChain [InV reviewIndex]
                 [scale (box_width reviewCardSize) (box_height reviewCardSize) None]
                 (Some ReviewScaled);
               mkChain [currentOutput; ReviewScaled]
                 [overlay (box_x reviewCardSize) (box_y reviewCardSize)
                    (Some (reviewStart, reviewEnd))]
                 (Some WithReview) ]
    | _, _ => None
    end in
  let finalInput := match withReview with Some _ => WithReview | None => currentOutput end in
  orDefault withLogo [] ++ orDefault withReview []
  ++ [ mkChain [finalInput] [format_yuv420p] (Some FinalVideo) ].

Definition audioFilters (options : FilterOptions num) : list (Chain num) :=
  let duration := fc_duration options in
  match fc_voiceIndex options, fc_musicIndex options with
  | Some voiceIndex, Some musicIndex =>
      [ mkChain [InA voiceIndex] [adelay 1500] (Some DelayedVoice);
        mkChain [InA musicIndex]
          [afade_in (int 0) (lit 15 10);
           afade_out (duration - lit 15 10) (lit 15 10);
           volume (lit 15 100)]
          (Some MusicFaded);
        mkChain [DelayedVoice; MusicFaded] [amix 2 longest] (Some Audio) ]
  | Some voiceIndex, None =>
      [ mkChain [InA voiceIndex] [adelay 1500] (Some Audio) ]
  | None, Some musicIndex =>
      [ mkChain [InA musicIndex]
          [afade_in (int 0) (lit 15 10);
           afade_out (duration - lit 15 10) (lit 15 10);
           volume (lit 3 10)]
          (Some Audio) ]
  | None, None =>
      [ mkChain [] [anullsrc duration] (Some Audio) ]
  end.

Definition buildFilterComplex (options : FilterOptions num)
  : option (list (Chain num)) :=
  let images := fc_images options in
  match transitionFilters options with
  | None => None
  | Some transitions =>
      Some (flat_map (processImage options) images
            ++ map (fun '(idx, img) => segmentFilter options idx img)
                 (combine (seq 0 (List.length images)) images)
            ++ transitions
            ++ [ mkChain [BaseVideo] [trim_to (fc_duration options)] (Some Trimmed) ]
            ++ overlayFilters options
            ++ audioFilters options)
  end.

(** *** addAudioAndOverlays *)

(* ffprobe on an audio file: its duration, or None when the probe fails *)
Variable getAudioDuration : string -> option num.

(* None: the probe of the music file fails and the call throws *)
Definition addAudioAndOverlays (inputPath : string) (options : Options num)
  : option (Finish num) :=
  let duration := duration options in
  let keep (present : bool) (path : option string) :=
    if present then match path with Some p => [p] | None => [] end else [] in
  let voice := given (voiceOver options) in
  let music := given (backgroundMusic options) in
  let audioInputs :=
    [stream_a 0]
    ++ (if voice then [stream_a 1] else [])
    ++ (if music then [label_music] else []) in
  let musicIndex := (1 + count voice)%nat in
  (* await this.getAudioDuration(backgroundMusic), made only when there is
     music; the duration itself is not used *)
  let musicDuration :=
    match backgroundMusic options with
    | Some file => if music then getAudioDuration file else Some (int 0)
    | None => Some (int 0)
    end in
  let musicFilters :=
    if music
    then [ mkLink [stream_a musicIndex]
             [video_or_audio (afade_out (duration - lit 15 10) (lit 15 10));
              video_or_audio (volume (lit 15 100))]
             label_music ]
    else [] in
  let mix :=
    if (1 <? List.length audioInputs)%nat
    then mkLink audioInputs
           [video_or_audio (amix (List.length audioInputs) first)]
           label_final_audio
    else mkLink [nth 0 audioInputs (stream_a 0)] [anull] label_final_audio in
  let logoIndex := (musicIndex + count music)%nat in
  let withLogo :=
    match logoSize options with
    | Some logoSize => if given (logo options) then Some logoSize else None
    | None => None
    end in
  let logoFilters :=
    match withLogo with
    | Some logoSize =>
        [ mkLink [stream_v logoIndex]
            [video_or_audio
               (scale (box_width logoSize) (box_height logoSize) None)]
            label_logo_scaled;
          mkLink [stream_v 0; label_logo_scaled]
            [video_or_audio (overlay (box_x logoSize) (box_y logoSize) None)]
            label_with_logo ]
    | None => []
    end in
  let videoLabel :=
    match withLogo with Some _ => label_with_logo | None => stream_v 0 end in
  let reviewIndex :=
    (logoIndex + match withLogo with Some _ => 1 | None => 0 end)%nat in
  let withReview :=
    match reviewCardSize options with
    | Some reviewCardSize =>
        if given (reviewImage options) then Some reviewCardSize else None
    | None => None
    end in
  let reviewFilters :=
    match withReview with
    | Some reviewCardSize =>
        let reviewStart := int 5 in
        let reviewEnd := nmin (int 20) (duration * lit 3 10) in
        [ mkLink [stream_v reviewIndex]
            [video_or_audio
               (scale (box_width reviewCardSize) (box_height reviewCardSize)
                  None)]
            label_review_scaled;
          mkLink [videoLabel; label_review_scaled]
            [video_or_audio
               (overlay (box_x reviewCardSize) (box_y reviewCardSize)
                  (Some (reviewStart, reviewEnd)))]
            label_final_video ]
    | None => [ mkLink [videoLabel] [video_or_audio null] label_final_video ]
    end in
  match musicDuration with
  | None => None
  | Some _ =>
      Some {| finish_inputs :=
                [inputPath]
                ++ keep voice (voiceOver options)
                ++ keep music (backgroundMusic options)
                ++ keep (match withLogo with Some _ => true | None => false end)
                     (logo options)
                ++ keep (match withReview with Some _ => true | None => false end)
                     (reviewImage options);
              looped := keep music (backgroundMusic options);
              finish_filters :=
                musicFilters ++ [mix] ++ logoFilters ++ reviewFilters;
              maps := [label_final_video; label_final_audio];
              finish_t := duration |}
  end.

End WithNumbers.
End FFmpegRenderer.

(** ** Errors

    A call either returns a value or throws; the message is the one the
    JavaScript error carries. *)

Inductive Outcome (A : Type) : Type :=
| Returned (value : A)
| Thrown (message : string).

Arguments Thrown {A} message.

(** ** PlatformTemplates.js *)

Module PlatformTemplates.

Record Template : Type := {
  platform : string;
  resolution : Z * Z;              (* width, height *)
  duration_min : Z;
  duration_max : Z;
  duration_default : Z
}.

Record SizedTemplate (num : Type) : Type := {
  base : Template;
  calculatedSizes : MathematicalSizing.AllSizes num
}.

Definition template (platform : string) (width height : Z)
  (min max default : Z) : Template :=
  {| platform := platform; resolution := (width, height);
     duration_min := min; duration_max := max; duration_default := default |}.

Definition createInstagramFeedTemplate : Template :=
  template "instagram_feed" 1080 1080 3 60 15.

(* this.templates *)
Definition templates : list (string * Template) :=
  [ ("youtube", template "youtube" 1920 1080 15 43200 35);
    ("youtube_shorts", template "youtube_shorts" 1080 1920 5 60 30);
    ("instagram_reel", template "instagram_reel" 1080 1920 15 90 30);
    ("instagram_feed", createInstagramFeedTemplate);
    ("instagram_portrait", template "instagram_portrait" 1080 1350 15 60 30);
    ("instagram", createInstagramFeedTemplate);
    ("tiktok", template "tiktok" 1080 1920 5 600 30);
    ("facebook", template "facebook" 1920 1080 15 14400 60);
    ("facebook_reels", template "facebook_reels" 1080 1920 5 90 30);
    ("linkedin", template "linkedin" 1920 1080 10 600 30);
    ("twitter_landscape", template "twitter_landscape" 1280 720 2 140 30);
    ("twitter_portrait", template "twitter_portrait" 720 1280 2 140 30);
    ("twitter_square", template "twitter_square" 720 720 2 140 30) ].

(* The names every object inherits from Object.prototype.  this.templates is
   an object literal, so reading one of these names from it yields a function
   (an object for __proto__), not undefined. *)
Definition inherited : list string :=
  [ "constructor"; "__proto__"; "hasOwnProperty"; "isPrototypeOf";
    "propertyIsEnumerable"; "toLocaleString"; "toString"; "valueOf";
    "__defineGetter__"; "__defineSetter__"; "__lookupGetter__";
    "__lookupSetter__" ].

(* this.templates[platform] *)
Inductive Property : Type :=
| own (template : Template)
| from_prototype              (* truthy, and without the fields of a template *)
| undefined.

Definition templateFor (platform : string) : Property :=
  match MathematicalSizing.lookup platform templates with
  | Some template => own template
  | None =>
      if existsb (String.eqb platform) inherited then from_prototype
      else undefined
  end.

Record Assets : Type := {
  images : option (list string);
  logo : option string;
  reviewImage : option string;
  voiceOver : option string;
  backgroundMusic : option string
}.

Record Validation : Type := {
  valid : bool;
  errors : list string;
  warnings : list string
}.

(* a path used as a condition: missing and empty are false *)
Definition given (s : option string) : bool :=
  match s with
  | Some text => negb (String.eqb text "")
  | None => false
  end.

Definition imageErrors (assets : Assets) : list string :=
  let minImages := 3%nat in
  match images assets with
  | Some images =>
      if (List.length images <? minImages)%nat
      then ["Minimum 3 images required"] else []
  | None => ["Minimum 3 images required"]
  end.

Definition assetWarnings (assets : Assets) : list string :=
  (if given (logo assets) then []
   else ["No logo provided - video will not have branding"])
  ++ (if given (voiceOver assets) || given (backgroundMusic assets)
      then [] else ["No audio provided - video will be silent"]).

Definition validateAssets (platform : string) (assets : Assets)
  : Outcome Validation :=
  match templateFor platform with
  | undefined =>
      Returned
        {| valid := false;
           errors := [("No template found for platform: " ++ platform)%string];
           warnings := [] |}
  | from_prototype =>
      let errors := imageErrors assets in
      match images assets with
      | Some _ =>
          (* template.duration is undefined *)
          Thrown "Cannot read properties of undefined (reading 'default')"
      | None =>
          Returned {| valid := (List.length errors =? 0)%nat;
                      errors := errors;
                      warnings := assetWarnings assets |}
      end
  | own template =>
      let errors := imageErrors assets in
      let warnings :=
        assetWarnings assets
        ++ match images assets with
           | Some images =>
               let totalImageTime := (Z.of_nat (List.length images) * 4)%Z in
               if (totalImageTime <? duration_default template)%Z
               then ["Images will cycle to fill duration"] else []
           | None => []
           end in
      Returned {| valid := (List.length errors =? 0)%nat;
                  errors := errors;
                  warnings := warnings |}
  end.

Section WithNumbers.
Context {num : Type} `{JSNumber num}.

(* getTemplate(platform, assets, { adaptiveGraphics }), the call generateVideo
   makes: options.actualDimensions is absent, so the render size is the
   template's resolution; adaptiveGraphics stands for
   options.adaptiveGraphics !== false *)
Definition getTemplate (platform : string)
  (assets : MathematicalSizing.AssetSizes num) (adaptiveGraphics : bool)
  : Outcome (SizedTemplate num) :=
  match templateFor platform with
  | undefined => Thrown ("Unknown platform: " ++ platform)%string
  | from_prototype =>
      (* template.resolution is undefined *)
      Thrown "Cannot read properties of undefined (reading 'width')"
  | own template =>
      let '(width, height) := resolution template in
      let renderWidth := int width in
      let renderHeight := int height in
      Returned
        {| base := template;
           calculatedSizes :=
             MathematicalSizing.calculateAllSizes platform
               renderWidth renderHeight assets adaptiveGraphics |}
  end.

End WithNumbers.
End PlatformTemplates.

(** ** VideoGenerator.js

    [generateVideo] touches the world: it probes the overlay images
    (an ffprobe process each), creates and removes the job's working
    directory, and renders (the encoder processes).  A run is kept as the
    list of these effects in the order they happen, with the value returned
    or the error thrown. *)

(* path.join of Node's path module, on a POSIX system *)
Module Path.

(* path.split('/'), with current the segment being read *)
Fixpoint segments (path : string) (current : string) : list string :=
  match path with
  | EmptyString => [current]
  | String c rest =>
      if Ascii.eqb c "/" then current :: segments rest ""
      else segments rest (current ++ String c "")%string
  end.

(* normalizeString: empty segments and "." are dropped, ".." removes the
   segment before it, and is kept where there is none to remove and the path
   is relative; kept holds the segments kept so far, last first *)
Fixpoint normalizeString (allowAboveRoot : bool) (rest kept : list string)
  : list string :=
  match rest with
  | [] => rev kept
  | segment :: rest' =>
      if String.eqb segment "" || String.eqb segment "."
      then normalizeString allowAboveRoot rest' kept
      else if String.eqb segment ".." then
        match kept with
        | previous :: before =>
            if String.eqb previous ".."
            then normalizeString allowAboveRoot rest'
                   (if allowAboveRoot then ".." :: kept else kept)
            else normalizeString allowAboveRoot rest' before
        | [] =>
            normalizeString allowAboveRoot rest'
              (if allowAboveRoot then [".."] else [])
        end
      else normalizeString allowAboveRoot rest' (segment :: kept)
  end.

Definition endsWithSeparator (path : string) : bool :=
  String.eqb (last (segments path "") "") "".

Definition normalize (path : string) : string :=
  match path with
  | EmptyString => "."
  | String head _ =>
      let isAbsolute := Ascii.eqb head "/" in
      let trailingSeparator := endsWithSeparator path in
      let kept :=
        String.concat "/"
          (normalizeString (negb isAbsolute) (segments path "") []) in
      if String.eqb kept "" then
        if isAbsolute then "/" else if trailingSeparator then "./" else "."
      else
        let kept := if trailingSeparator then (kept ++ "/")%string else kept in
        if isAbsolute then ("/" ++ kept)%string else kept
  end.

Definition join (parts : list string) : string :=
  match filter (fun part => negb (String.eqb part "")) parts with
  | [] => "."
  | nonempty => normalize (String.concat "/" nonempty)
  end.

End Path.

Module VideoGenerator.
Import PlatformTemplates.

Inductive Event : Type :=
| Probe (path : string)                            (* renderer.getImageDimensions *)
| Mkdir (path : string)                            (* fs.mkdir *)
| Render (platform : string) (workDir : string)    (* this.renderVideo *)
| Rm (path : string).                              (* fs.rm *)

Definition Run (A : Type) : Type := list Event * Outcome A.

Definition ret {A : Type} (a : A) : Run A := ([], Returned a).

Definition throw {A : Type} (message : string) : Run A := ([], Thrown message).

Definition bind {A B : Type} (run : Run A) (next : A -> Run B) : Run B :=
  match run with
  | (trace, Returned a) => let '(trace', b) := next a in (trace ++ trace', b)
  | (trace, Thrown message) => (trace, Thrown message)
  end.

(* try { body } finally { cleanup }, for a cleanup that does not throw *)
Definition finally {A : Type} (body : Run A) (cleanup : list Event) : Run A :=
  let '(trace, outcome) := body in (trace ++ cleanup, outcome).

Notation "x <- run ;; next" := (bind run (fun x => next))
  (at level 61, run at next level, right associativity).

Section WithWorld.
Context {num : Type} `{JSNumber num}.

(* what ffprobe answers for an image, fs.mkdir for a directory, and the
   renderer for a job *)
Variable getImageDimensions : string -> Outcome (num * num).
Variable mkdir : string -> Outcome unit.
Variable renderVideo : SizedTemplate num -> Assets -> string -> Outcome string.

(* config.tempDir || './temp', and Date.now().toString() *)
Variable tempDir : string.
Variable sessionId : string.

(* assets.x ? await this.renderer.getImageDimensions(assets.x) : null *)
Definition probe (path : option string) : Run (option (num * num)) :=
  match path with
  | Some file =>
      if given path
      then ([Probe file],
            match getImageDimensions file with
            | Returned dims => Returned (Some dims)
            | Thrown message => Thrown message
            end)
      else ret None
  | None => ret None
  end.

Definition generateVideo (platform : string) (assets : Assets)
  (adaptiveGraphics keepTemp : bool) : Run string :=
  validation <- ([], validateAssets platform assets) ;;
  if negb (valid validation) then
    throw ("Asset validation failed: "
           ++ String.concat ", " (errors validation))%string
  else
    logoDims <- probe (logo assets) ;;
    reviewDims <- probe (reviewImage assets) ;;
    template <-
      ([], getTemplate platform
             {| MathematicalSizing.logo := logoDims;
                MathematicalSizing.reviewCard := reviewDims |}
             adaptiveGraphics) ;;
    let workDir := Path.join [tempDir; sessionId] in
    _ <- ([Mkdir workDir], mkdir workDir) ;;
    finally
      ([Render platform workDir], renderVideo template assets workDir)
      (if keepTemp then [] else [Rm workDir]).

End WithWorld.

(** *** renderVideo

    What [renderVideo] asks of the renderer: the duration it settles on and
    the options it hands to the renderer's generateVideo. *)

Section RenderVideo.
Context {num : Type} `{JSNumber num}.
Local Open Scope js_scope.

(* ffprobe on the voice-over: its duration, or the error thrown *)
Variable getAudioDuration : string -> Outcome num.

(* targetDuration stands for options.settings && options.settings.targetDuration *)
Definition durationFor (targetDuration : option num) (assets : Assets)
  (imageCount : nat) : num :=
  let imageBased := int (Z.of_nat imageCount) * int 5 in
  let withoutTarget :=
    match voiceOver assets with
    | Some file =>
        if given (voiceOver assets) then
          match getAudioDuration file with
          | Returned audioDuration =>
              let minDurationForImages := int (Z.of_nat imageCount) * int 3 in
              nmax (audioDuration + int 3) minDurationForImages
          | Thrown _ => imageBased
          end
        else imageBased
    | None => imageBased
    end in
  match targetDuration with
  | Some target => if truthy target then target else withoutTarget
  | None => withoutTarget
  end.

(* calculatedSizes.logo and calculatedSizes.reviewCard, as the renderer
   reads them: width, height, x and y *)
Definition logoBox (size : MathematicalSizing.LogoSize num)
  : FFmpegRenderer.OverlayBox num :=
  {| FFmpegRenderer.box_width := MathematicalSizing.width size;
     FFmpegRenderer.box_height := MathematicalSizing.height size;
     FFmpegRenderer.box_x := MathematicalSizing.x size;
     FFmpegRenderer.box_y := MathematicalSizing.y size |}.

Definition cardBox (size : MathematicalSizing.ReviewCardSize num)
  : FFmpegRenderer.OverlayBox num :=
  match size with
  | MathematicalSizing.adaptive width height x y _ _
  | MathematicalSizing.forced width height x y _ =>
      {| FFmpegRenderer.box_width := width;
         FFmpegRenderer.box_height := height;
         FFmpegRenderer.box_x := x;
         FFmpegRenderer.box_y := y |}
  end.

(* the options handed to this.renderer.generateVideo; outputPath is
   path.join(this.outputDir, outputFilename) *)
Definition renderVideo_request (outputPath : string)
  (template : SizedTemplate num) (assets : Assets)
  (targetDuration : option num) (preset : option string)
  (quality : option num) (imageMode : option FFmpegRenderer.ImageMode)
  : Outcome (FFmpegRenderer.Options num) :=
  match images assets with
  | None => Thrown "Cannot read properties of undefined (reading 'length')"
  | Some images =>
      let imageCount := List.length images in
      let '(width, height) := resolution (base template) in
      Returned
        {| FFmpegRenderer.images := images;
           FFmpegRenderer.voiceOver := voiceOver assets;
           FFmpegRenderer.backgroundMusic := backgroundMusic assets;
           FFmpegRenderer.logo := logo assets;
           FFmpegRenderer.reviewImage := reviewImage assets;
           FFmpegRenderer.outputPath := outputPath;
           FFmpegRenderer.videoWidth := int width;
           FFmpegRenderer.videoHeight := int height;
           FFmpegRenderer.duration :=
             durationFor targetDuration assets imageCount;
           FFmpegRenderer.logoSize :=
             option_map logoBox
               (MathematicalSizing.logo_size (calculatedSizes template));
           FFmpegRenderer.reviewCardSize :=
             Some (cardBox
                     (MathematicalSizing.reviewCard_size
                        (calculatedSizes template)));
           FFmpegRenderer.preset :=
             Some match preset with
                  | Some name => if String.eqb name "" then "medium" else name
                  | None => "medium"
                  end;
           FFmpegRenderer.quality :=
             Some match quality with
                  | Some q => or_default q (int 23)
                  | None => int 23
                  end;
           FFmpegRenderer.imageMode := imageMode;
           FFmpegRenderer.transition := None |}
  end.

End RenderVideo.
End VideoGenerator.

(** * Properties *)

(** ** Comparisons and rounding in the exact reading *)

Lemma Qltb_lt (a b : Q) : Qltb a b = true <-> a < b.
Proof.
  unfold Qltb. rewrite negb_true_iff, <- not_true_iff_false, Qle_bool_iff.
  split; [apply Qnot_le_lt | apply Qlt_not_le].
Qed.

Lemma Qltb_ge (a b : Q) : Qltb a b = false <-> b <= a.
Proof.
  unfold Qltb. rewrite negb_false_iff, Qle_bool_iff. reflexivity.
Qed.

Lemma Qltb_spec (a b : Q) : reflect (a < b) (Qltb a b).
Proof.
  destruct (Qltb a b) eqn:E; constructor.
  - now apply Qltb_lt.
  - apply Qle_not_lt. now apply Qltb_ge.
Qed.

(** ** Layout mode selection *)

Section LayoutModes.
Import ImageHandlingModes.
Local Open Scope Q_scope.

(** C4. For positive aspect ratios the recommended mode is decided by
    mismatch = |imageAspect - frameAspect| / frameAspect alone: crop-fill
    exactly when mismatch < 0.2, blur-background exactly when
    0.2 <= mismatch < 0.5, letterbox exactly when mismatch >= 0.5.  The
    boundary 0.2 therefore belongs to blur-background and the boundary 0.5 to
    letterbox. *)
Theorem recommendMode_thresholds (imageAspect frameAspect : Q) :
  0 < imageAspect -> 0 < frameAspect ->
  let mismatch := Qabs (imageAspect - frameAspect) / frameAspect in
  (mismatch < 2 # 10 <-> recommendMode imageAspect frameAspect = CROP_FILL) /\
  (2 # 10 <= mismatch < 5 # 10 <->
     recommendMode imageAspect frameAspect = BLUR_BACKGROUND) /\
  (5 # 10 <= mismatch <-> recommendMode imageAspect frameAspect = LETTERBOX).
Proof.
  intros _ _ mismatch. unfold recommendMode. cbn [nlt nabs nsub ndiv lit exact].
  fold mismatch.
  destruct (Qltb_spec mismatch (2 # 10)) as [Hlo | Hlo];
    [ | destruct (Qltb_spec mismatch (5 # 10)) as [Hhi | Hhi] ].
  - repeat split; intros; try reflexivity; try discriminate; try lra.
  - repeat split; intros; try reflexivity; try discriminate; try lra.
  - repeat split; intros; try reflexivity; try discriminate; try lra.
Qed.

Lemma recommendMode_thresholds_witness :
  0 < 12 # 10 /\ 0 < 1 /\
  (let mismatch := Qabs ((12 # 10) - 1) / 1 in
   (mismatch < 2 # 10 <-> recommendMode (12 # 10) 1 = CROP_FILL) /\
   (2 # 10 <= mismatch < 5 # 10 <-> recommendMode (12 # 10) 1 = BLUR_BACKGROUND) /\
   (5 # 10 <= mismatch <-> recommendMode (12 # 10) 1 = LETTERBOX)).
Proof.
  split; [reflexivity | split; [reflexivity | ]].
  apply (@recommendMode_thresholds (12 # 10) 1); reflexivity.
Defined.

Example recommendMode_at_first_boundary :
  recommendMode (12 # 10) (1 : Q) = BLUR_BACKGROUND.
Proof. reflexivity. Qed.

Example recommendMode_at_second_boundary :
  recommendMode (15 # 10) (1 : Q) = LETTERBOX.
Proof. reflexivity. Qed.

(* On doubles the comparison is made on the mismatch as computed: the double
   nearest 1.2, less 1, is 0.19999999999999996, which is below the double
   nearest 0.2, while 1.5 - 1 is 0.5 itself. *)
Example recommendMode_at_boundaries_ieee :
  recommendMode (num := float) (lit 12 10) (int 1) = CROP_FILL /\
  recommendMode (num := float) (lit 15 10) (int 1) = LETTERBOX.
Proof. split; reflexivity. Qed.

(** C5, as the code has it.  The letterbox builder decides on the numbers
    it computes: the frame and the image count as portrait when their
    computed aspect ratio compares below 1, and as similar when the computed
    value of |frameAspect - imageAspect| / frameAspect compares below the
    number 0.15.  When both have the same orientation and are similar it
    fills the frame (scale to cover, then crop to the frame); in every other
    case, a comparison that fails on NaN included, it scales the image to
    fit inside the frame, uncropped, and overlays it centred on a field of
    the background colour that has the frame's size.  This holds in either
    reading of the numbers; in the code they are doubles. *)
Theorem buildLetterboxFilter_fill_or_bars {num : Type} `{JSNumber num}
  (params : LetterboxParams num) :
  let frameAspect := (lb_videoWidth params / lb_videoHeight params)%js in
  let imageAspect := (lb_imageWidth params / lb_imageHeight params)%js in
  let backgroundColor :=
    match lb_backgroundColor params with Some c => c | None => "#2a2a2a" end in
  let sameOrientation :=
    (frameAspect <? int 1)%js = (imageAspect <? int 1)%js in
  let similar :=
    (nabs (frameAspect - imageAspect) / frameAspect <? lit 15 100)%js = true in
  (sameOrientation /\ similar ->
     buildLetterboxFilter params =
       [ mkChain [InV (lb_inputIndex params)]
           [scale (lb_videoWidth params) (lb_videoHeight params) (Some increase);
            crop (lb_videoWidth params) (lb_videoHeight params) false]
           (Some Letterboxed) ]) /\
  (~ (sameOrientation /\ similar) ->
     buildLetterboxFilter params =
       [ mkChain [] [color backgroundColor
                       (lb_videoWidth params) (lb_videoHeight params)]
           (Some (Bg (lb_inputIndex params)));
         mkChain [InV (lb_inputIndex params)]
           [scale (lb_videoWidth params) (lb_videoHeight params) (Some decrease)]
           (Some (Img (lb_inputIndex params)));
         mkChain [Bg (lb_inputIndex params); Img (lb_inputIndex params)]
           [overlay_centred] (Some Letterboxed) ]).
Proof.
  intros frameAspect imageAspect backgroundColor sameOrientation similar.
  unfold buildLetterboxFilter, fillFrame, bars.
  fold frameAspect imageAspect backgroundColor.
  subst sameOrientation similar.
  destruct (frameAspect <? int 1)%js, (imageAspect <? int 1)%js,
           (nabs (frameAspect - imageAspect) / frameAspect <? lit 15 100)%js;
    cbn [Bool.eqb andb]; split; intros Hc; try reflexivity; exfalso;
    try (apply Hc; clear Hc); intuition discriminate.
Qed.

Definition portrait_on_landscape : LetterboxParams float :=
  {| lb_inputIndex := 2; lb_videoWidth := 1920%float;
     lb_videoHeight := 1080%float; lb_imageWidth := 1080%float;
     lb_imageHeight := 1920%float; lb_backgroundColor := Some "#2a2a2a" |}.

Lemma buildLetterboxFilter_fill_or_bars_witness :
  buildLetterboxFilter portrait_on_landscape =
    [ mkChain [] [color "#2a2a2a" 1920%float 1080%float] (Some (Bg 2));
      mkChain [InV 2] [scale 1920%float 1080%float (Some decrease)]
        (Some (Img 2));
      mkChain [Bg 2; Img 2] [overlay_centred] (Some Letterboxed) ].
Proof.
  apply (@buildLetterboxFilter_fill_or_bars float ieee portrait_on_landscape).
  intros [Horientation _]. vm_compute in Horientation. discriminate.
Defined.

(** C5, as stated, fails at the threshold.  A 2208x1080 image on a
    1920x1080 frame has the same orientation as the frame and
    |frameAspect - imageAspect| / frameAspect is 0.15, not below it, so the
    statement asks for bars.  The code computes 0.14999999999999997 for it,
    which is below the double nearest 0.15, and fills the frame. *)
Lemma buildLetterboxFilter_fills_at_threshold :
  let frameAspect := 1920 / 1080 in
  let imageAspect := 2208 / 1080 in
  ~ frameAspect < 1 /\ ~ imageAspect < 1 /\
  Qabs (frameAspect - imageAspect) / frameAspect == 15 # 100 /\
  ~ Qabs (frameAspect - imageAspect) / frameAspect < 15 # 100 /\
  buildLetterboxFilter
    {| lb_inputIndex := 0; lb_videoWidth := 1920%float;
       lb_videoHeight := 1080%float; lb_imageWidth := 2208%float;
       lb_imageHeight := 1080%float; lb_backgroundColor := None |}
  = [ mkChain [InV 0]
        [scale 1920%float 1080%float (Some increase);
         crop 1920%float 1080%float false]
        (Some Letterboxed) ].
Proof.
  cbv zeta. split; [ | split; [ | split; [ | split] ] ].
  - apply Qle_not_lt. discriminate.
  - apply Qle_not_lt. discriminate.
  - reflexivity.
  - apply Qle_not_lt. discriminate.
  - reflexivity.
Qed.

(* the same at 115x100 on a square frame of 100x100; in the exact reading
   both get bars *)
Example buildLetterboxFilter_threshold_readings :
  buildLetterboxFilter
    {| lb_inputIndex := 0; lb_videoWidth := 100%float;
       lb_videoHeight := 100%float; lb_imageWidth := 115%float;
       lb_imageHeight := 100%float; lb_backgroundColor := None |}
  = fillFrame 0 100%float 100%float /\
  buildLetterboxFilter
    {| lb_inputIndex := 0; lb_videoWidth := 100; lb_videoHeight := 100;
       lb_imageWidth := 115; lb_imageHeight := 100;
       lb_backgroundColor := None |}
  = bars "#2a2a2a" 0 100 100 /\
  buildLetterboxFilter
    {| lb_inputIndex := 0; lb_videoWidth := 1920; lb_videoHeight := 1080;
       lb_imageWidth := 2208; lb_imageHeight := 1080;
       lb_backgroundColor := None |}
  = bars "#2a2a2a" 0 1920 1080.
Proof. repeat split; reflexivity. Qed.

End LayoutModes.

(** ** Overlay sizing *)

Lemma nround_exact_near (q : Q) : Qabs (nround q - q) <= 1 # 2.
Proof.
  cbn [nround exact]. apply Qabs_Qle_condition.
  pose proof (Qfloor_le (q + (1 # 2))) as Hlo.
  pose proof (Qlt_floor (q + (1 # 2))) as Hhi.
  rewrite inject_Z_plus in Hhi. change (inject_Z 1) with 1 in Hhi.
  split; lra.
Qed.

Lemma nround_exact_integer (z : Z) : nround (inject_Z z) = inject_Z z.
Proof.
  cbn [nround exact]. f_equal.
  pose proof (Qfloor_le (inject_Z z + (1 # 2))) as Hlo.
  pose proof (Qlt_floor (inject_Z z + (1 # 2))) as Hhi.
  set (f := Qfloor (inject_Z z + (1 # 2))) in *.
  assert (H1 : (f <= z)%Z).
  { destruct (Z_le_gt_dec f z) as [Hle | Hgt]; [exact Hle | exfalso].
    assert (Hq : inject_Z (z + 1) <= inject_Z f) by (rewrite <- Zle_Qle; lia).
    rewrite inject_Z_plus in Hq. change (inject_Z 1) with 1 in Hq. lra. }
  assert (H2 : (z <= f)%Z).
  { destruct (Z_le_gt_dec z f) as [Hle | Hgt]; [exact Hle | exfalso].
    assert (Hq : inject_Z (f + 1) <= inject_Z z) by (rewrite <- Zle_Qle; lia).
    lra. }
  lia.
Qed.

Lemma nround_exact_monotone (p q : Q) : p <= q -> nround p <= nround q.
Proof.
  intros Hpq. cbn [nround exact]. rewrite <- Zle_Qle.
  apply Qfloor_resp_le. lra.
Qed.

Section Sizing.
Import MathematicalSizing.
Local Open Scope Q_scope.

Lemma lookup_In {A : Type} (key : string) (table : list (string * A)) (v : A) :
  lookup key table = Some v -> In v (map snd table).
Proof.
  induction table as [ | [k w] rest IH]; cbn; [discriminate | ].
  destruct (String.eqb key k); [ | now right; apply IH].
  intros [= ->]. now left.
Qed.

(* what every declared platform range looks like: whole pixels, min below max *)
Definition whole_range (config : PlatformConfig Q) : Prop :=
  exists lo hi : Z,
    minSize config = inject_Z lo /\ maxSize config = inject_Z hi /\
    (0 < lo <= hi)%Z.

Lemma declared_ranges :
  Forall whole_range (youtube :: map snd PLATFORM_CONFIGS).
Proof.
  repeat constructor;
    match goal with
    | |- whole_range ?c =>
        exists (Qfloor (minSize c)), (Qfloor (maxSize c)); cbn;
        repeat split; (reflexivity || lia)
    end.
Qed.

Lemma configFor_whole_range (platform : string) :
  whole_range (configFor platform).
Proof.
  pose proof declared_ranges as Hall. rewrite Forall_forall in Hall.
  apply Hall. unfold configFor.
  destruct (lookup platform PLATFORM_CONFIGS) as [config | ] eqn:E.
  - right. now apply lookup_In with (key := platform).
  - now left.
Qed.

Lemma finalHeightOf_floor (config : PlatformConfig Q) (h s : Q) :
  minSize config <= finalHeightOf config h s.
Proof. unfold finalHeightOf. cbn [nmax nmin nmul exact]. apply Q.le_max_r. Qed.

Lemma finalHeightOf_ceiling (config : PlatformConfig Q) (h s : Q) :
  minSize config <= maxSize config ->
  finalHeightOf config h s <= maxSize config.
Proof.
  intros Hrange. unfold finalHeightOf. cbn [nmax nmin nmul exact].
  apply Q.max_lub; [apply Q.le_min_r | exact Hrange].
Qed.

(** C6. For every platform that declares a configuration and every overlay
    asset of positive width and height, the logo height returned lies within
    the platform's [minSize, maxSize]; the clamp to minSize is the outermost
    one, so that whatever range a configuration declares the height before
    rounding is never below its minSize; and the returned width and height
    are each within half a pixel of an exact pair whose ratio is the asset's
    width / height. *)
Theorem calculateLogoSize_clamped_and_proportional
  (platform : string) (config : PlatformConfig Q)
  (videoWidth videoHeight originalLogoWidth originalLogoHeight : Q) :
  lookup platform PLATFORM_CONFIGS = Some config ->
  0 < videoWidth -> 0 < videoHeight ->
  0 < originalLogoWidth -> 0 < originalLogoHeight ->
  let size :=
    calculateLogoSize platform videoWidth videoHeight
      originalLogoWidth originalLogoHeight in
  minSize config <= height size <= maxSize config /\
  (forall (any : PlatformConfig Q) (h s : Q),
     minSize any <= finalHeightOf any h s) /\
  exists exactWidth exactHeight : Q,
    0 < exactHeight /\
    exactWidth / exactHeight == originalLogoWidth / originalLogoHeight /\
    Qabs (width size - exactWidth) <= 1 # 2 /\
    Qabs (height size - exactHeight) <= 1 # 2.
Proof.
  intros Hconfig _ _ Hw Hh size.
  assert (Hfor : configFor platform = config)
    by (unfold configFor; now rewrite Hconfig).
  destruct (configFor_whole_range platform) as (lo & hi & Hlo & Hhi & Hlohi).
  rewrite Hfor in Hlo, Hhi.
  assert (Hrange : minSize config <= maxSize config).
  { rewrite Hlo, Hhi, <- Zle_Qle. lia. }
  subst size. unfold calculateLogoSize. rewrite Hfor.
  destruct (scaledSize config videoWidth _ _) as [scaledHeight scaledWidth].
  cbn [width height].
  set (aspect := (originalLogoWidth / originalLogoHeight)%js).
  set (finalHeight := finalHeightOf config originalLogoHeight _).
  pose proof (finalHeightOf_floor config originalLogoHeight
    (logoScale config scaledHeight originalLogoWidth originalLogoHeight aspect))
    as Hfloor.
  pose proof (@finalHeightOf_ceiling config originalLogoHeight
    (logoScale config scaledHeight originalLogoWidth originalLogoHeight aspect)
    Hrange) as Hceil.
  fold finalHeight in Hfloor, Hceil.
  split; [ | split; [intros; apply finalHeightOf_floor | ] ].
  - split.
    + rewrite Hlo, <- (nround_exact_integer lo), <- Hlo.
      now apply nround_exact_monotone.
    + rewrite Hhi, <- (nround_exact_integer hi), <- Hhi.
      now apply nround_exact_monotone.
  - exists (finalHeight * aspect), finalHeight.
    assert (Hpos : 0 < finalHeight).
    { apply Qlt_le_trans with (y := minSize config); [ | exact Hfloor].
      rewrite Hlo. change 0 with (inject_Z 0). rewrite <- Zlt_Qlt. lia. }
    repeat split.
    + exact Hpos.
    + subst aspect. cbn [ndiv exact]. field. split; lra.
    + apply nround_exact_near.
    + apply nround_exact_near.
Qed.

Definition linkedin : PlatformConfig Q :=
  {| aspectRatio := 16 / 9; logoHeightPercent := 625 # 10000;
     reference := ref_height; minSize := 70; maxSize := 180;
     maxWidthPercent := Some (25 # 100) |}.

Lemma calculateLogoSize_clamped_and_proportional_witness :
  let size := calculateLogoSize "linkedin" 1920 1080 3000 100 in
  70 <= height size <= 180 /\
  (forall (any : PlatformConfig Q) (h s : Q),
     minSize any <= finalHeightOf any h s) /\
  exists exactWidth exactHeight : Q,
    0 < exactHeight /\
    exactWidth / exactHeight == 3000 / 100 /\
    Qabs (width size - exactWidth) <= 1 # 2 /\
    Qabs (height size - exactHeight) <= 1 # 2.
Proof.
  apply (@calculateLogoSize_clamped_and_proportional
           "linkedin" linkedin 1920 1080 3000 100); reflexivity.
Defined.

(* the floor wins over the percentage rule: 6.25% of 1080 is 67.5 *)
Example calculateLogoSize_linkedin_floor :
  height (calculateLogoSize (num := Q) "linkedin" 1920 1080 400 200) = 70.
Proof. vm_compute. reflexivity. Qed.

Example calculateLogoSize_youtube_1080p :
  let size := calculateLogoSize (num := Q) "youtube" 1920 1080 400 200 in
  (width size, height size, x size, y size) = (180, 90, 1644, 936).
Proof. vm_compute. reflexivity. Qed.

Example calculateLogoSize_youtube_1080p_ieee :
  let size :=
    calculateLogoSize (num := float) "youtube"
      1920%float 1080%float 400%float 200%float in
  (width size, height size, x size, y size)
  = (180%float, 90%float, 1644%float, 936%float).
Proof. vm_compute. reflexivity. Qed.

Definition isNaN (size : LogoSize float) : bool :=
  is_nan (width size) && is_nan (height size)
  && is_nan (x size) && is_nan (y size).

(** C9 (the code does otherwise). An asset whose width or height is reported
    as zero, or is missing (a missing number enters the arithmetic as NaN),
    is given no default size by [calculateLogoSize]: the aspect ratio becomes
    Infinity, 0 or NaN, the scale becomes NaN, and width, height, x and y all
    come back as NaN.  [calculateAllSizes] does fall back for the review
    card, which it sizes from the frame alone when a dimension is zero or
    missing, and does not for the logo. *)
Theorem calculateLogoSize_zero_or_missing_is_nan :
  Forall (fun asset : float * float =>
    isNaN (calculateLogoSize (num := float) "youtube" 1920%float 1080%float
             (fst asset) (snd asset)) = true /\
    let sizes :=
      calculateAllSizes (num := float) "youtube" 1920%float 1080%float
        {| logo := Some asset; reviewCard := Some asset |} true in
    option_map isNaN (logo_size sizes) = Some true /\
    reviewCard_size sizes
    = forced 864%float 534%float 528%float 273%float 43%float)
  [ (500, 0); (0, 500); (0, 0); (nan, 500); (500, nan); (nan, nan) ]%float.
Proof. repeat constructor. Qed.

End Sizing.

(** ** Per-image timing in the filter graph *)

Section Timing.
Import FFmpegRenderer.
Local Open Scope Q_scope.

Definition Qsum (l : list Q) : Q := fold_right Qplus 0 l.

Lemma Qsum_repeat (a : Q) (n : nat) :
  Qsum (repeat a n) == inject_Z (Z.of_nat n) * a.
Proof.
  induction n as [ | n IH].
  - change (0 == 0 * a). lra.
  - rewrite Nat2Z.inj_succ. unfold Z.succ. rewrite inject_Z_plus.
    cbn [repeat Qsum fold_right]. fold (Qsum (repeat a n)). rewrite IH.
    change (inject_Z 1) with 1. lra.
Qed.

Lemma int_exact (z : Z) : int (num := Q) z = inject_Z z.
Proof. reflexivity. Qed.

Definition filterOptions (images : list string) (duration : Q)
  (transition : option (Transition Q)) : FilterOptions Q :=
  {| fc_images := images; fc_videoWidth := 1920; fc_videoHeight := 1080;
     fc_duration := duration; fc_logoSize := None; fc_reviewCardSize := None;
     fc_voiceIndex := None; fc_musicIndex := None; fc_logoIndex := None;
     fc_reviewIndex := None; fc_imageMode := None;
     fc_transition := transition |}.

(** C1, as the code has it. For N >= 1 images and target duration D, each
    image is shown for (D + (N - 1) * T') / N, where T' is the transition
    duration the builder was handed when that is not zero, and 0.5 when it is
    zero or no transition was handed over; every image segment of the graph
    is trimmed to that duration, and the N durations together, less
    (N - 1) * T', are exactly D. *)
Theorem actualImageDuration_compensates (options : FilterOptions Q) :
  (1 <= numSegments options)%nat ->
  let N := inject_Z (Z.of_nat (numSegments options)) in
  let D := fc_duration options in
  let T' := transitionDuration options in
  actualImageDuration options == (D + (N - 1) * T') / N /\
  Qsum (repeat (actualImageDuration options) (numSegments options))
    - (N - 1) * T' == D /\
  (forall (idx : nat) (img : string),
     In (trim_duration (actualImageDuration options))
        (filters (segmentFilter options idx img))) /\
  (forall t : Transition Q,
     fc_transition options = Some t -> ~ t_duration t == 0 ->
     T' = t_duration t) /\
  (forall t : Transition Q,
     fc_transition options = Some t -> t_duration t == 0 -> T' == 1 # 2) /\
  (fc_transition options = None -> T' == 1 # 2).
Proof.
  intros HN N D T'.
  assert (HNpos : 0 < N).
  { subst N. change 0 with (inject_Z 0). rewrite <- Zlt_Qlt. lia. }
  assert (Hcount : inject_Z (transitionCount options) == N - 1).
  { unfold transitionCount. rewrite Z.max_r by lia.
    unfold Z.sub. rewrite inject_Z_plus. subst N.
    change (inject_Z (- (1))) with (-1 # 1).
    set (n := inject_Z _). lra. }
  assert (Hactual : actualImageDuration options == (D + (N - 1) * T') / N).
  { unfold actualImageDuration, adjustedDuration, totalTransitionTime.
    cbn [nadd nmul ndiv exact]. rewrite !int_exact. fold N D T'.
    rewrite Hcount. reflexivity. }
  split; [exact Hactual | split; [ | split; [ | repeat split] ] ].
  - rewrite Qsum_repeat. fold N. rewrite Hactual. field. lra.
  - intros idx img. cbn. auto.
  - intros t Ht Hnz. subst T'. unfold transitionDuration, transitionOf, or_default.
    rewrite Ht. cbn [orDefault truthy exact lit].
    destruct (Qeq_bool (t_duration t) 0) eqn:E; [ | reflexivity].
    apply Qeq_bool_iff in E. contradiction.
  - intros t Ht Hz. subst T'. unfold transitionDuration, transitionOf, or_default.
    rewrite Ht. cbn [orDefault truthy exact lit].
    apply Qeq_bool_iff in Hz. rewrite Hz. reflexivity.
  - intros Ht. subst T'. unfold transitionDuration, transitionOf.
    rewrite Ht. reflexivity.
Qed.

Definition three_images_15s : FilterOptions Q :=
  filterOptions ["a.jpg"; "b.jpg"; "c.jpg"] 15
    (Some {| t_type := Some "fade"; t_duration := 6 # 10 |}).

Lemma actualImageDuration_compensates_witness :
  actualImageDuration three_images_15s == (15 + (3 - 1) * (6 # 10)) / 3 /\
  Qsum (repeat (actualImageDuration three_images_15s) 3)
    - (3 - 1) * (6 # 10) == 15.
Proof.
  destruct (@actualImageDuration_compensates three_images_15s) as (H1 & H2 & _).
  - cbn. lia.
  - split; [exact H1 | exact H2].
Defined.

(** C1, as stated, fails when the transition duration handed over is 0:
    two images, target 10 s, T = 0 give 5.25 s per image instead of
    (10 + (2 - 1) * 0) / 2 = 5, and the two durations less (2 - 1) * 0 are
    10.5, not 10. *)
Lemma actualImageDuration_zero_transition :
  let T := 0 in
  let options :=
    filterOptions ["a.jpg"; "b.jpg"] 10
      (Some {| t_type := Some "fade"; t_duration := T |}) in
  actualImageDuration options == 21 # 4 /\
  ~ actualImageDuration options == (10 + (2 - 1) * T) / 2 /\
  ~ Qsum (repeat (actualImageDuration options) 2) - (2 - 1) * T == 10.
Proof. cbn. repeat split; discriminate. Qed.

End Timing.

(** ** Audio *)

Section AudioMix.
Import FFmpegRenderer.
Context {num : Type} `{JSNumber num}.

Definition is_fade (f : Filter num) : bool :=
  match f with afade_in _ _ | afade_out _ _ => true | _ => false end.

(** C7, as the code has it. With a voice-over and a music track, the voice is
    delayed by the 1500 ms lead-in, the music is faded in and out and turned
    down to 0.15, and the two are mixed.  With music alone, the music is
    faded in and out and turned down to 0.3.  With a voice-over alone, the
    voice is delayed by the same lead-in and no fade is applied.  With
    neither, a silent track of the output duration is generated. *)
Theorem audioFilters_cases (options : FilterOptions num) :
  let duration := fc_duration options in
  let fades :=
    [afade_in (int 0) (lit 15 10);
     afade_out (duration - lit 15 10)%js (lit 15 10)] in
  match fc_voiceIndex options, fc_musicIndex options with
  | Some voiceIndex, Some musicIndex =>
      audioFilters options =
        [ mkChain [InA voiceIndex] [adelay 1500] (Some DelayedVoice);
          mkChain [InA musicIndex] (fades ++ [volume (lit 15 100)])
            (Some MusicFaded);
          mkChain [DelayedVoice; MusicFaded] [amix 2 longest] (Some Audio) ]
  | Some voiceIndex, None =>
      audioFilters options =
        [ mkChain [InA voiceIndex] [adelay 1500] (Some Audio) ]
  | None, Some musicIndex =>
      audioFilters options =
        [ mkChain [InA musicIndex] (fades ++ [volume (lit 3 10)]) (Some Audio) ]
  | None, None =>
      audioFilters options = [ mkChain [] [anullsrc duration] (Some Audio) ]
  end /\
  (forall mode probe graph,
     buildFilterComplex mode probe options = Some graph ->
     exists video, graph = video ++ audioFilters options).
Proof.
  split.
  - unfold audioFilters.
    destruct (fc_voiceIndex options), (fc_musicIndex options); reflexivity.
  - intros mode probe graph. unfold buildFilterComplex.
    destruct (transitionFilters options) as [transitions | ]; [ | discriminate].
    intros [= <-].
    exists (flat_map (processImage mode probe options) (fc_images options)
            ++ map (fun '(idx, img) => segmentFilter options idx img)
                 (combine (seq 0 (List.length (fc_images options)))
                    (fc_images options))
            ++ transitions
            ++ [ mkChain [BaseVideo] [trim_to (fc_duration options)]
                   (Some Trimmed) ]
            ++ overlayFilters options).
    rewrite <- !app_assoc. reflexivity.
Qed.

End AudioMix.

Section AudioMixExamples.
Import FFmpegRenderer.

(** C7, as stated, fails for a voice-over without music: the track is
    delayed, and no fade is applied to it. *)
Lemma audioFilters_voice_only_no_fade :
  let options :=
    {| fc_images := ["a.jpg"; "b.jpg"; "c.jpg"];
       fc_videoWidth := 1920; fc_videoHeight := 1080; fc_duration := 15;
       fc_logoSize := None; fc_reviewCardSize := None;
       fc_voiceIndex := Some 3%nat; fc_musicIndex := None;
       fc_logoIndex := None; fc_reviewIndex := None; fc_imageMode := None;
       fc_transition := None |} : FilterOptions Q in
  audioFilters options = [ mkChain [InA 3] [adelay 1500] (Some Audio) ] /\
  existsb (@is_fade Q) (flat_map (@filters Q) (audioFilters options)) = false.
Proof. split; reflexivity. Qed.

End AudioMixExamples.

(** ** Batching *)

(* lia with the quotient and remainder of the batch count spelled out *)
Ltac thirds n :=
  pose proof (Nat.div_mod_eq (n + 2) 3);
  pose proof (Nat.mod_upper_bound (n + 2) 3 ltac:(discriminate));
  lia.

Section Batching.
Import FFmpegRenderer.
Local Open Scope nat_scope.

(* Batch j as the specification describes it: the image before position 3j
   when j > 0, then the next three images, or those that are left. *)
Definition batch (images : list string) (j : nat) : Chunk :=
  {| chunk_images :=
       (if (j =? 0)%nat then [] else [at_ images (3 * j - 1)])
       ++ firstn 3 (skipn (3 * j) images);
     startIdx := 3 * j;
     hasOverlap := negb (j =? 0)%nat |}.

Definition batchCount (imageCount : nat) : nat := (imageCount + 2) / 3.

Definition batches (images : list string) : list Chunk :=
  map (batch images) (seq 0 (batchCount (List.length images))).

(* the images a batch adds to those already rendered *)
Definition newImages (chunk : Chunk) : list string :=
  skipn (if hasOverlap chunk then 1 else 0) (chunk_images chunk).

Lemma read_prefix (c : nat) (l : list string) :
  map (fun i => at_ l i) (seq 0 (Nat.min c (List.length l))) = firstn c l.
Proof.
  revert l. induction c as [ | c IH]; intros l; [reflexivity | ].
  destruct l as [ | a l]; [reflexivity | ].
  cbn [List.length Nat.min seq map firstn]. f_equal.
  rewrite <- seq_shift, map_map. apply IH.
Qed.

Lemma read_window (c idx : nat) (l : list string) :
  map (fun i => at_ l (idx + i)) (seq 0 (Nat.min c (List.length l - idx)))
  = firstn c (skipn idx l).
Proof.
  revert l. induction idx as [ | idx IH]; intros l.
  - rewrite Nat.sub_0_r. apply read_prefix.
  - destruct l as [ | a l].
    + cbn. rewrite Nat.min_0_r. now rewrite firstn_nil.
    + cbn [List.length skipn Nat.sub]. rewrite <- IH. reflexivity.
Qed.

Lemma chunkLoop_batches (images : list string) (fuel j : nat) :
  j <= batchCount (List.length images) ->
  List.length images - Nat.min (3 * j) (List.length images) <= fuel ->
  chunkLoop fuel images (Nat.min (3 * j) (List.length images))
    (map (batch images) (seq 0 j))
  = Some (batches images).
Proof.
  unfold batchCount. revert j.
  induction fuel as [ | fuel IH]; intros j Hj Hfuel.
  - assert (Hend : j = ((List.length images + 2) / 3)%nat)
      by thirds (List.length images).
    cbn [chunkLoop].
    destruct (Nat.ltb_spec (Nat.min (3 * j) (List.length images))
                (List.length images)); [lia | ].
    unfold batches, batchCount. now rewrite Hend.
  - cbn [chunkLoop].
    destruct (Nat.ltb_spec (Nat.min (3 * j) (List.length images))
                (List.length images)) as [Hlt | Hge].
    + assert (Hidx : Nat.min (3 * j) (List.length images) = 3 * j) by lia.
      rewrite Hidx. rewrite length_map, length_seq.
      replace (3 * j + Nat.min CHUNK_SIZE (List.length images - 3 * j))
        with (Nat.min (3 * S j) (List.length images))
        by (unfold CHUNK_SIZE; lia).
      replace (map (batch images) (seq 0 j) ++ _)
        with (map (batch images) (seq 0 (S j))).
      * apply IH; thirds (List.length images).
      * rewrite seq_S, map_app. cbn [map Nat.add]. do 2 f_equal.
        unfold batch, CHUNK_SIZE, OVERLAP. f_equal.
        rewrite read_window.
        destruct j as [ | j]; [reflexivity | ].
        cbn [Nat.eqb negb andb]. 
        destruct (Nat.ltb_spec 0 (3 * S j)); [reflexivity | lia].
    + assert (Hend : j = ((List.length images + 2) / 3)%nat)
        by thirds (List.length images).
      unfold batches, batchCount. now rewrite Hend.
Qed.

Lemma chunksOf_batches (images : list string) :
  chunksOf images = Some (batches images).
Proof.
  unfold chunksOf.
  change (chunkLoop (List.length images) images 0 [])
    with (chunkLoop (List.length images) images
            (Nat.min (3 * 0) (List.length images))
            (map (batch images) (seq 0 0))).
  apply chunkLoop_batches; lia.
Qed.

Lemma newImages_batch (images : list string) (j : nat) :
  newImages (batch images j) = firstn 3 (skipn (3 * j) images).
Proof. destruct j; reflexivity. Qed.

Lemma windows_cover (k : nat) (l : list string) :
  List.length l <= 3 * k ->
  List.concat (map (fun j => firstn 3 (skipn (3 * j) l)) (seq 0 k)) = l.
Proof.
  revert l. induction k as [ | k IH]; intros l Hk.
  - destruct l; [reflexivity | cbn in Hk; lia].
  - cbn [seq map List.concat]. rewrite <- seq_shift, map_map.
    rewrite (map_ext _ (fun j => firstn 3 (skipn (3 * j) (skipn 3 l)))).
    + rewrite IH; [apply firstn_skipn | rewrite length_skipn; lia].
    + intros j. rewrite skipn_skipn. do 2 f_equal. lia.
Qed.

Lemma batch_full (images : list string) (j : nat) :
  3 * j + 3 <= List.length images ->
  firstn 3 (skipn (3 * j) images)
  = [at_ images (3 * j); at_ images (3 * j + 1); at_ images (3 * j + 2)].
Proof.
  intros Hfull. rewrite <- read_window.
  replace (Nat.min 3 (List.length images - 3 * j)) with 3 by lia.
  cbn [seq map]. now rewrite Nat.add_0_r.
Qed.

Lemma batch_length (images : list string) (j : nat) :
  List.length (chunk_images (batch images j))
  = (if j =? 0 then 0 else 1) + Nat.min 3 (List.length images - 3 * j).
Proof.
  unfold batch. cbn [chunk_images].
  rewrite length_app, length_firstn, length_skipn.
  destruct (j =? 0); reflexivity.
Qed.

Lemma batch_nonempty (images : list string) (j : nat) :
  (j < (List.length images + 2) / 3)%nat ->
  (1 <= List.length (chunk_images (batch images j)))%nat.
Proof.
  intros Hj. rewrite batch_length.
  assert (Hin : (3 * j < List.length images)%nat)
    by thirds (List.length images).
  destruct (j =? 0)%nat; lia.
Qed.

(** C3. A list of at most 6 images is rendered as one filter graph over the
    whole list.  A longer list is cut into ceil(N / 3) batches: batch j adds
    the three images from position 3j on (the last batch adds the one to
    three images that are left), the batches' new images in order are the
    image list, and every batch after the first is flagged as overlapping and
    starts with the last image of the batch before it.  Ten images give four
    batches, all but the first with the overlap image. *)
Theorem buildCommand_batching {num : Type} `{JSNumber num}
  (mode : ImageMode) (options : Options num) :
  let images := images options in
  let N := List.length images in
  (N <= 6 -> exists inputs filterOptions,
     buildCommand mode options = single_pass inputs filterOptions /\
     fc_images filterOptions = images) /\
  (6 < N -> exists render,
     buildCommand mode options = chunked (Some render) /\
     chunks render = batches images) /\
  List.length (batches images) = (N + 2) / 3 /\
  List.concat (map newImages (batches images)) = images /\
  (forall j, j < (N + 2) / 3 ->
     newImages (batch images j) = firstn 3 (skipn (3 * j) images) /\
     (j + 1 < (N + 2) / 3 -> List.length (newImages (batch images j)) = 3) /\
     1 <= List.length (newImages (batch images j)) <= 3 /\
     hasOverlap (batch images j) = negb (j =? 0) /\
     (0 < j ->
        hd_error (chunk_images (batch images j))
        = Some (last (chunk_images (batch images (j - 1))) ""))) /\
  (N = 10 ->
     map (fun chunk => (List.length (newImages chunk), hasOverlap chunk))
       (batches images)
     = [(3, false); (3, true); (3, true); (1, true)]).
Proof.
  intros images N.
  split; [ | split; [ | split; [ | split; [ | split] ] ] ].
  - intros HN. unfold buildCommand. fold images.
    destruct (Nat.ltb_spec BATCH_THRESHOLD (List.length images)) as [Hlt | _].
    + unfold BATCH_THRESHOLD in Hlt. subst N. lia.
    + eexists. eexists. split; reflexivity.
  - intros HN. unfold buildCommand. fold images.
    destruct (Nat.ltb_spec BATCH_THRESHOLD (List.length images)) as [_ | Hge].
    + unfold buildCommandChunked. fold images.
      rewrite chunksOf_batches. eexists. split; reflexivity.
    + unfold BATCH_THRESHOLD in Hge. subst N. lia.
  - unfold batches, batchCount. now rewrite length_map, length_seq.
  - unfold batches. rewrite map_map.
    rewrite (map_ext _ _ (newImages_batch images)).
    apply windows_cover. unfold batchCount. thirds (List.length images).
  - intros j Hj. fold N in Hj.
    assert (Hin : 3 * j < N) by (subst N; thirds (List.length images)).
    rewrite newImages_batch, length_firstn, length_skipn. fold N.
    repeat split; try lia.
    + intros Hnext. subst N. thirds (List.length images).
    + intros Hpos. destruct j as [ | j]; [lia | ].
      replace (S j - 1) with j by lia.
      unfold batch at 1. cbn [chunk_images Nat.eqb app hd_error]. f_equal.
      unfold batch. cbn [chunk_images].
      rewrite batch_full by (fold N; lia).
      replace (3 * S j - 1) with (3 * j + 2) by lia.
      destruct (j =? 0); reflexivity.
  - intros HN. unfold batches, batchCount. fold N. rewrite HN.
    change ((10 + 2) / 3) with 4. cbn [seq map].
    rewrite !newImages_batch, !length_firstn, !length_skipn. fold N.
    rewrite HN. reflexivity.
Qed.

End Batching.

Section BatchingExamples.
Import FFmpegRenderer.
Local Open Scope nat_scope.

Definition ten_images : list string :=
  ["0.jpg"; "1.jpg"; "2.jpg"; "3.jpg"; "4.jpg";
   "5.jpg"; "6.jpg"; "7.jpg"; "8.jpg"; "9.jpg"].

Definition requestFor (images : list string) (duration : Q)
  (transition : option (Transition Q)) : Options Q :=
  {| images := images; voiceOver := None; backgroundMusic := None;
     logo := None; reviewImage := None; outputPath := "out/video.mp4";
     videoWidth := 1920%Q; videoHeight := 1080%Q; duration := duration;
     logoSize := None; reviewCardSize := None; preset := None;
     quality := None; imageMode := None; transition := transition |}.

Example chunksOf_ten_images :
  chunksOf ten_images =
    Some [ {| chunk_images := ["0.jpg"; "1.jpg"; "2.jpg"];
              startIdx := 0; hasOverlap := false |};
           {| chunk_images := ["2.jpg"; "3.jpg"; "4.jpg"; "5.jpg"];
              startIdx := 3; hasOverlap := true |};
           {| chunk_images := ["5.jpg"; "6.jpg"; "7.jpg"; "8.jpg"];
              startIdx := 6; hasOverlap := true |};
           {| chunk_images := ["8.jpg"; "9.jpg"];
              startIdx := 9; hasOverlap := true |} ].
Proof. reflexivity. Qed.

Lemma buildCommand_batching_witness :
  exists render,
    buildCommand CROP_FILL (requestFor ten_images 30%Q None) = chunked (Some render) /\
    map chunk_images (chunks render) =
      [ ["0.jpg"; "1.jpg"; "2.jpg"];
        ["2.jpg"; "3.jpg"; "4.jpg"; "5.jpg"];
        ["5.jpg"; "6.jpg"; "7.jpg"; "8.jpg"];
        ["8.jpg"; "9.jpg"] ].
Proof.
  destruct (@buildCommand_batching Q exact CROP_FILL (requestFor ten_images 30%Q None))
    as (_ & Hbatched & _).
  destruct Hbatched as (render & Hcommand & Hchunks); [cbn; lia | ].
  exists render. split; [exact Hcommand | ]. rewrite Hchunks. reflexivity.
Defined.

End BatchingExamples.

(** ** Transition durations *)

Section TransitionChoice.
Import FFmpegRenderer.
Local Open Scope nat_scope.

(** C10. In a single-pass render (at most 6 images) the transition handed to
    the graph builder has the duration fixed by the image count alone, 0.6 s
    for up to 5 images and 0.4 s for 6, whatever the request asked for, and
    that is the duration the graph builder uses; it keeps the requested
    type.  In a batched render (more than 6 images) every batch is rendered
    with, and the batches are stitched with, the request's own transition
    (the default fade of 0.5 s when the request has none). *)
Theorem buildCommand_transition (mode : ImageMode) (options : Options Q) :
  let N := List.length (images options) in
  let requested := orDefault (transition options) defaultTransition in
  let fixed := if N <=? 5 then (6 # 10)%Q else (4 # 10)%Q in
  (N <= 6 -> exists inputs filterOptions,
     buildCommand mode options = single_pass inputs filterOptions /\
     fc_transition filterOptions
     = Some {| t_type := t_type requested; t_duration := fixed |} /\
     transitionDuration filterOptions = fixed) /\
  (6 < N -> exists render,
     buildCommand mode options = chunked (Some render) /\
     Forall (fun filterOptions => fc_transition filterOptions = Some requested)
       (renders render) /\
     List.length (renders render) = List.length (chunks render) /\
     concatenation render
     = concatenateChunksWithTransitions (chunks render) (chunkDurations render)
         (Some requested)).
Proof.
  intros N requested fixed. split; intros HN.
  - unfold buildCommand.
    destruct (Nat.ltb_spec BATCH_THRESHOLD (List.length (images options)))
      as [Hlt | _]; [unfold BATCH_THRESHOLD in Hlt; subst N; lia | ].
    eexists. eexists. split; [reflexivity | ].
    cbn [fc_transition]. unfold transitionDuration, transitionOf.
    cbn [fc_transition orDefault]. unfold adjustedTransition.
    fold N requested. cbn [t_duration].
    assert (Hfixed : (if 8 <? N then lit 25 100
                      else if 5 <? N then lit 4 10 else lit 6 10) = fixed).
    { subst fixed.
      destruct (Nat.ltb_spec 8 N); [lia | ].
      destruct (Nat.ltb_spec 5 N), (Nat.leb_spec N 5); try lia; reflexivity. }
    rewrite Hfixed. split; [reflexivity | ].
    subst fixed. destruct (N <=? 5); reflexivity.
  - unfold buildCommand.
    destruct (Nat.ltb_spec BATCH_THRESHOLD (List.length (images options)))
      as [_ | Hge]; [ | unfold BATCH_THRESHOLD in Hge; subst N; lia].
    unfold buildCommandChunked. rewrite chunksOf_batches.
    eexists. split; [reflexivity | ].
    cbn [renders chunks chunkDurations concatenation].
    split; [ | split; [now rewrite length_map | reflexivity] ].
    apply Forall_forall. intros filterOptions Hin.
    apply in_map_iff in Hin. destruct Hin as (chunk & <- & _). reflexivity.
Qed.

Lemma buildCommand_transition_witness :
  exists inputs filterOptions,
    buildCommand CROP_FILL
      (requestFor ["a.jpg"; "b.jpg"; "c.jpg"; "d.jpg"; "e.jpg"; "f.jpg"] 30%Q
         (Some {| t_type := Some "fade"; t_duration := 1%Q |}))
    = single_pass inputs filterOptions /\
    transitionDuration filterOptions = (4 # 10)%Q.
Proof.
  destruct (@buildCommand_transition CROP_FILL
    (requestFor ["a.jpg"; "b.jpg"; "c.jpg"; "d.jpg"; "e.jpg"; "f.jpg"] 30%Q
       (Some {| t_type := Some "fade"; t_duration := 1%Q |})))
    as [Hsingle _].
  destruct Hsingle as (inputs & filterOptions & Hcommand & _ & Hduration);
    [cbn; lia | ].
  exists inputs, filterOptions. split; [exact Hcommand | exact Hduration].
Defined.

Example buildCommand_overrides_requested_transition :
  forall requested : Q,
  exists inputs filterOptions,
    buildCommand CROP_FILL
      (requestFor ["a.jpg"; "b.jpg"; "c.jpg"] 15%Q
         (Some {| t_type := Some "wipeleft"; t_duration := requested |}))
    = single_pass inputs filterOptions /\
    fc_transition filterOptions
    = Some {| t_type := Some "wipeleft"; t_duration := (6 # 10)%Q |}.
Proof. intros requested. eexists. eexists. split; reflexivity. Qed.

End TransitionChoice.

(** ** Durations of a batched render *)

Section StitchedDuration.
Import FFmpegRenderer.
Local Open Scope Q_scope.

Variable chunks : list Chunk.
Variable durations : list Q.
Variable T : Q.

(* the running output duration after m joins *)
Fixpoint outputAfter (m : nat) : Q :=
  match m with
  | O => nth 0 durations 0
  | S m' => outputAfter m' + nth m durations 0 - T
  end.

Definition imageCountOf (i : nat) : nat :=
  List.length
    (chunk_images
       (nth i chunks {| chunk_images := []; startIdx := 0; hasOverlap := false |})).

(* the join of chunk i to the video stitched from chunks 0 .. i-1 *)
Definition joinAt (i : nat) : Join Q :=
  let overlap :=
    nth (i - 1) durations 0 / inject_Z (Z.of_nat (imageCountOf (i - 1))) in
  let offset := outputAfter (i - 1) - overlap - T in
  {| overlapDuration := overlap;
     offset := offset;
     join_filter :=
       mkChain [if (i =? 1)%nat then InV 0 else Segment (i - 1); InV i]
         [xfade "fade" T offset] (Some (Segment i));
     outputDuration := outputAfter i |}.

Lemma fold_joinStep (m : nat) :
  fold_left (joinStep chunks durations T) (seq 1 m) ([], nth 0 durations 0)
  = (map joinAt (seq 1 m), outputAfter m).
Proof.
  induction m as [ | m IH]; [reflexivity | ].
  rewrite seq_S, fold_left_app, IH, map_app.
  cbn [fold_left joinStep map Nat.add]. unfold joinAt, imageCountOf.
  cbn [nadd nsub ndiv exact int lit outputAfter].
  replace (S m - 1)%nat with m by lia. reflexivity.
Qed.

Lemma Qsum_firstn_S (l : list Q) (n : nat) :
  (n < List.length l)%nat ->
  Qsum (firstn (S n) l) == Qsum (firstn n l) + nth n l 0.
Proof.
  revert n. induction l as [ | a l IH]; intros n Hn; [cbn in Hn; lia | ].
  destruct n as [ | n].
  - cbn. lra.
  - cbn [List.length] in Hn. change (firstn (S (S n)) (a :: l))
      with (a :: firstn (S n) l).
    change (firstn (S n) (a :: l)) with (a :: firstn n l).
    cbn [Qsum fold_right nth]. fold (Qsum (firstn (S n) l)).
    fold (Qsum (firstn n l)). rewrite IH by lia. lra.
Qed.

Lemma outputAfter_sum (m : nat) :
  (m < List.length durations)%nat ->
  outputAfter m == Qsum (firstn (S m) durations) - inject_Z (Z.of_nat m) * T.
Proof.
  induction m as [ | m IH]; intros Hm.
  - rewrite Qsum_firstn_S by exact Hm.
    change (nth 0 durations 0 == 0 + nth 0 durations 0 - 0 * T). lra.
  - cbn [outputAfter]. rewrite IH by lia.
    rewrite (Qsum_firstn_S durations (n := S m)) by exact Hm.
    rewrite Nat2Z.inj_succ. unfold Z.succ. rewrite inject_Z_plus.
    change (inject_Z 1) with 1. lra.
Qed.

End StitchedDuration.

Section BatchedDuration.
Import FFmpegRenderer.

Definition imagesRendered (chunks : list Chunk) : nat :=
  list_sum (map (fun chunk => List.length (chunk_images chunk)) chunks).

Lemma list_sum_pointwise (f g : nat -> nat) (l : list nat) :
  list_sum (map (fun j => f j + g j)%nat l)
  = (list_sum (map f l) + list_sum (map g l))%nat.
Proof.
  unfold list_sum. induction l as [ | a l IH]; [reflexivity | ].
  cbn [map fold_right]. rewrite IH. lia.
Qed.

Lemma overlaps_after_first (a n : nat) :
  (1 <= a)%nat ->
  list_sum (map (fun j => if (j =? 0)%nat then 0 else 1)%nat (seq a n)) = n.
Proof.
  unfold list_sum. revert a.
  induction n as [ | n IH]; intros a Ha; [reflexivity | ].
  cbn [seq map fold_right]. rewrite IH by lia.
  destruct a; [lia | reflexivity].
Qed.

(* every overlap image is rendered twice *)
Lemma imagesRendered_batches (images : list string) :
  (1 <= List.length images)%nat ->
  imagesRendered (batches images)
  = (List.length images + (batchCount (List.length images) - 1))%nat.
Proof.
  intros HN. unfold imagesRendered, batches. rewrite map_map.
  rewrite (map_ext _
    (fun j => (if (j =? 0)%nat then 0 else 1)
              + List.length (firstn 3 (skipn (3 * j) images)))%nat).
  - rewrite list_sum_pointwise.
    rewrite <- (map_map (fun j => firstn 3 (skipn (3 * j) images))
                  (@List.length string)).
    rewrite <- length_concat, windows_cover
      by (unfold batchCount; thirds (List.length images)).
    assert (Hk : (1 <= batchCount (List.length images))%nat)
      by (unfold batchCount; thirds (List.length images)).
    destruct (batchCount (List.length images)) as [ | k]; [lia | ].
    cbn [seq map]. change (list_sum (?a :: ?l)) with (a + list_sum l)%nat.
    rewrite overlaps_after_first by lia. cbn [Nat.eqb]. lia.
  - intros j. unfold batch. cbn [chunk_images]. rewrite length_app.
    destruct (j =? 0)%nat; reflexivity.
Qed.

Local Open Scope Q_scope.

Lemma count_positive (n : nat) : (1 <= n)%nat -> 0 < inject_Z (Z.of_nat n).
Proof.
  intros Hn. change 0 with (inject_Z 0). rewrite <- Zlt_Qlt. lia.
Qed.

Lemma Qsum_chunkDurations (D : Q) (n : nat) (chunks : list Chunk) :
  (1 <= n)%nat ->
  Qsum (map (chunkDuration D n) chunks)
  == D * inject_Z (Z.of_nat (imagesRendered chunks)) / inject_Z (Z.of_nat n).
Proof.
  intros Hn.
  assert (Hpos : 0 < inject_Z (Z.of_nat n)).
  { change 0 with (inject_Z 0). rewrite <- Zlt_Qlt. lia. }
  induction chunks as [ | chunk chunks IH].
  - cbn. field. lra.
  - unfold imagesRendered in *. cbn [map].
    change (list_sum (?a :: ?l)) with (a + list_sum l)%nat.
    change (Qsum (?a :: ?l)) with (a + Qsum l). rewrite IH.
    rewrite Nat2Z.inj_add, inject_Z_plus. unfold chunkDuration.
    cbn [nmul ndiv exact]. change (@int Q exact) with inject_Z. field. lra.
Qed.

Lemma nth_map_seq {A : Type} (f : nat -> A) (d : A) (a n i : nat) :
  (i < n)%nat -> nth i (map f (seq a n)) d = f (a + i)%nat.
Proof.
  intros Hi. rewrite (nth_indep _ d (f 0%nat))
    by (rewrite length_map, length_seq; exact Hi).
  now rewrite map_nth, seq_nth.
Qed.

Lemma concatenate_joins (chunks : list Chunk) (durations : list Q)
  (transition : Transition Q) :
  (2 <= List.length durations)%nat ->
  let T' := or_default (t_duration transition) (5 # 10) in
  concatenateChunksWithTransitions chunks durations (Some transition)
  = Some (joined
            (map (joinAt chunks durations T')
               (seq 1 (List.length durations - 1)))
            (outputAfter durations T' (List.length durations - 1))).
Proof.
  intros Hlen T'.
  destruct durations as [ | d0 [ | d1 rest] ];
    [cbn in Hlen; lia | cbn in Hlen; lia | ].
  set (durations := d0 :: d1 :: rest).
  change (concatenateChunksWithTransitions chunks durations (Some transition))
    with (let '(joins, final) :=
            fold_left (joinStep chunks durations T')
              (seq 1 (List.length durations - 1))
              ([], nth 0 durations 0) in
          Some (joined joins final)).
  now rewrite fold_joinStep.
Qed.

Definition noJoin : Join Q :=
  {| overlapDuration := 0; offset := 0;
     join_filter := mkChain [] [] None; outputDuration := 0 |}.

Lemma Qsum_constant {A : Type} (f : A -> Q) (c : Q) (l : list A) :
  (forall x, In x l -> f x == c) ->
  Qsum (map f l) == inject_Z (Z.of_nat (List.length l)) * c.
Proof.
  induction l as [ | a l IH]; intros Hall.
  - change (0 == 0 * c). lra.
  - cbn [map List.length]. change (Qsum (?a :: ?l)) with (a + Qsum l).
    rewrite IH by (intros x Hx; apply Hall; now right).
    rewrite (Hall a) by now left.
    rewrite Nat2Z.inj_succ. unfold Z.succ. rewrite inject_Z_plus.
    change (inject_Z 1) with 1. lra.
Qed.

(* the share of a batch's duration that falls to one of its images is the
   share of the whole duration that falls to one image of the request *)
Lemma overlap_of_batch (images : list string) (D : Q) (i : nat) :
  let N := List.length images in
  (1 <= i < batchCount N)%nat ->
  nth (i - 1) (map (chunkDuration D N) (batches images)) 0
  / inject_Z (Z.of_nat (List.length (chunk_images (batch images (i - 1)))))
  == D / inject_Z (Z.of_nat N).
Proof.
  intros N Hi. unfold batches. fold N.
  rewrite map_map, nth_map_seq by lia. cbn [Nat.add].
  assert (HN : (1 <= N)%nat) by (unfold batchCount in Hi; thirds N).
  pose proof (count_positive HN) as HNpos.
  assert (Hcount : (1 <= List.length (chunk_images (batch images (i - 1))))%nat)
    by (apply batch_nonempty; fold N; unfold batchCount in Hi; lia).
  pose proof (count_positive Hcount) as Hpos.
  unfold chunkDuration. cbn [nmul ndiv exact].
  change (@int Q exact) with inject_Z. field. split; lra.
Qed.

(** C2. In a batched render of N > 6 images with target duration D, the
    duration of a batch is D * (images in the batch, overlap image
    included) / N.  The joins are made one after the other: the output
    duration kept after joining batch i is the one before it plus the
    duration of batch i less the transition duration T' (the request's, or
    0.5 when that is zero or absent).  The overlap taken at the join of
    batch i is the duration of batch i - 1 divided by its image count, which
    is D / N, the time of its last image, and the offset of the cross-fade
    is the output duration before the join less that overlap less T'.  The
    sum of the batch durations less the sum of the overlaps of all joins is
    D exactly.  The output duration kept after the last join is the sum of
    the batch durations less (k - 1) * T' for k batches. *)
Theorem buildCommandChunked_durations (mode : ImageMode) (options : Options Q) :
  let images := images options in
  let N := List.length images in
  let D := duration options in
  let k := batchCount N in
  let T' :=
    or_default (t_duration (orDefault (transition options) defaultTransition))
      (5 # 10) in
  (6 < N)%nat ->
  exists render joins final,
    buildCommandChunked mode options = Some render /\
    chunks render = batches images /\
    chunkDurations render
    = map (fun chunk =>
             D * inject_Z (Z.of_nat (List.length (chunk_images chunk)))
             / inject_Z (Z.of_nat N))
        (chunks render) /\
    concatenation render = Some (joined joins final) /\
    List.length joins = (k - 1)%nat /\
    (forall i, (1 <= i < k)%nat ->
       let previous :=
         if (i =? 1)%nat then nth 0 (chunkDurations render) 0
         else outputDuration (nth (i - 2) joins noJoin) in
       let overlap := overlapDuration (nth (i - 1) joins noJoin) in
       outputDuration (nth (i - 1) joins noJoin)
       = previous + nth i (chunkDurations render) 0 - T' /\
       overlap
       = nth (i - 1) (chunkDurations render) 0
         / inject_Z (Z.of_nat (List.length
             (chunk_images (batch images (i - 1))))) /\
       overlap == D / inject_Z (Z.of_nat N) /\
       offset (nth (i - 1) joins noJoin) = previous - overlap - T') /\
    Qsum (chunkDurations render) - Qsum (map (@overlapDuration Q) joins) == D /\
    final = outputDuration (last joins noJoin) /\
    final == Qsum (chunkDurations render) - inject_Z (Z.of_nat (k - 1)) * T'.
Proof.
  intros images N D k T' HN.
  assert (Hk : (3 <= k)%nat) by (subst k; unfold batchCount; thirds N).
  unfold buildCommandChunked. fold images. rewrite chunksOf_batches.
  set (durations := map (chunkDuration (duration options) (List.length images))
                      (batches images)).
  assert (Hlen : List.length durations = k).
  { subst durations. unfold batches. now rewrite !length_map, length_seq. }
  assert (Hbatches : List.length (batches images) = k).
  { unfold batches. now rewrite length_map, length_seq. }
  rewrite concatenate_joins by lia. fold T'. rewrite Hlen.
  assert (Hjoin : forall i, (1 <= i < k)%nat ->
            nth (i - 1) (map (joinAt (batches images) durations T')
                           (seq 1 (k - 1))) noJoin
            = joinAt (batches images) durations T' i).
  { intros i Hi. rewrite nth_map_seq by lia. f_equal. lia. }
  assert (Hfinal : outputAfter durations T' (k - 1)
                   == Qsum durations - inject_Z (Z.of_nat (k - 1)) * T').
  { rewrite outputAfter_sum by lia.
    replace (S (k - 1)) with k by lia.
    now rewrite <- Hlen, firstn_all. }
  assert (Hoverlap : forall i, (1 <= i < k)%nat ->
            overlapDuration (joinAt (batches images) durations T' i)
            = nth (i - 1) durations 0
              / inject_Z (Z.of_nat (List.length
                  (chunk_images (batch images (i - 1)))))).
  { intros i Hi. unfold joinAt, imageCountOf. cbn [overlapDuration].
    unfold batches at 1. rewrite nth_map_seq by (fold N k; lia).
    reflexivity. }
  eexists. eexists. eexists.
  cbn [chunks chunkDurations concatenation].
  split; [reflexivity | split; [reflexivity | split; [reflexivity | ] ] ].
  split; [reflexivity | ].
  split; [now rewrite length_map, length_seq | ].
  cbn [chunks chunkDurations concatenation].
  split; [ | split; [ | split] ].
  - intros i Hi. rewrite Hjoin by exact Hi.
    assert (Hprevious :
              (if (i =? 1)%nat then nth 0 durations 0
               else outputDuration
                      (nth (i - 2)
                         (map (joinAt (batches images) durations T')
                            (seq 1 (k - 1))) noJoin))
              = outputAfter durations T' (i - 1)).
    { destruct (Nat.eqb_spec i 1) as [-> | Hne]; [reflexivity | ].
      replace (i - 2)%nat with (i - 1 - 1)%nat by lia.
      now rewrite Hjoin by lia. }
    rewrite Hprevious. cbv zeta.
    split; [ | split; [ | split] ].
    + unfold joinAt. cbn [outputDuration].
      destruct i as [ | i]; [lia | ].
      replace (S i - 1)%nat with i by lia. reflexivity.
    + apply Hoverlap, Hi.
    + rewrite Hoverlap by exact Hi. subst durations. now apply overlap_of_batch.
    + reflexivity.
  - rewrite map_map.
    rewrite (@Qsum_constant _ _ (D / inject_Z (Z.of_nat N)) _).
    + rewrite length_seq. subst durations.
      rewrite Qsum_chunkDurations by lia.
      rewrite imagesRendered_batches by lia. fold N k D.
      pose proof (@count_positive N ltac:(lia)) as HNpos.
      rewrite Nat2Z.inj_add, inject_Z_plus. field. lra.
    + intros i Hi. apply in_seq in Hi.
      rewrite Hoverlap by lia. subst durations. apply overlap_of_batch.
      fold N k. lia.
  - assert (Hseq : seq 1 (k - 1) = seq 1 (k - 2) ++ [(k - 1)%nat]).
    { replace (k - 1)%nat with (S (k - 2)) at 1 by lia.
      rewrite seq_S. do 2 f_equal. lia. }
    rewrite Hseq, map_app. cbn [map]. rewrite last_last. reflexivity.
  - exact Hfinal.
Qed.

Definition seven_images : list string :=
  ["0.jpg"; "1.jpg"; "2.jpg"; "3.jpg"; "4.jpg"; "5.jpg"; "6.jpg"].

Lemma buildCommandChunked_durations_witness :
  exists render joins final,
    buildCommandChunked CROP_FILL (requestFor seven_images 35 None) = Some render /\
    chunkDurations render = map (fun chunk =>
             35 * inject_Z (Z.of_nat (List.length (chunk_images chunk)))
             / inject_Z 7) (chunks render) /\
    concatenation render = Some (joined joins final) /\
    Qsum (chunkDurations render) - Qsum (map (@overlapDuration Q) joins) == 35 /\
    final == Qsum (chunkDurations render) - 2 * (5 # 10).
Proof.
  destruct (@buildCommandChunked_durations CROP_FILL
              (requestFor seven_images 35 None))
    as (render & joins & final & H1 & _ & H3 & H4 & _ & _ & H7 & _ & H9).
  - cbn. lia.
  - exists render, joins, final. repeat split; assumption.
Defined.

(* For 7 images, a target of 35 s and the default 0.5 s fade, the batches
   last 15, 20 and 10 s and each join takes an overlap of 5 s: 45 - 10 is
   the target.  The output duration kept over the two joins is
   15 + 20 - 0.5 + 10 - 0.5 = 44 s. *)
Example buildCommandChunked_seven_images :
  exists render joins final,
    buildCommandChunked CROP_FILL (requestFor seven_images 35 None) = Some render /\
    map Qred (chunkDurations render) = [15; 20; 10] /\
    concatenation render = Some (joined joins final) /\
    map (fun join => Qred (outputDuration join)) joins = [69 # 2; 44] /\
    map (fun join => Qred (overlapDuration join)) joins = [5; 5] /\
    map (fun join => Qred (offset join)) joins = [19 # 2; 29] /\
    Qsum (chunkDurations render) - Qsum (map (@overlapDuration Q) joins) == 35 /\
    final == 44.
Proof.
  eexists. eexists. eexists.
  split; [reflexivity | ]. cbn [chunkDurations concatenation].
  split; [reflexivity | ]. split; [reflexivity | ].
  split; [reflexivity | ]. split; [reflexivity | ].
  split; [reflexivity | ]. split; reflexivity.
Qed.

End BatchedDuration.

(** ** Validation before any effect *)

Section Validation.
Import PlatformTemplates VideoGenerator.
Context {num : Type} `{JSNumber num}.

Variable getImageDimensions : string -> Outcome (num * num).
Variable mkdir : string -> Outcome unit.
Variable renderVideo : SizedTemplate num -> Assets -> string -> Outcome string.
Variable tempDir : string.
Variable sessionId : string.


(* a valid request does reach the working directory and the renderer *)
Example generateVideo_known_platform :
  let workDir := Path.join [tempDir; sessionId] in
  let assets :=
    {| images := Some ["a.jpg"; "b.jpg"; "c.jpg"]; logo := None;
       reviewImage := None; voiceOver := None; backgroundMusic := None |} in
  mkdir workDir = Returned tt ->
  fst (generateVideo getImageDimensions mkdir renderVideo tempDir sessionId
         "youtube" assets true false)
  = [ Mkdir workDir; Render "youtube" workDir; Rm workDir ].
Proof.
  intros workDir assets Hmkdir. unfold generateVideo. fold workDir.
  change (validateAssets "youtube" assets)
    with (Returned
            {| valid := true; errors := [];
               warnings := ["No logo provided - video will not have branding";
                            "No audio provided - video will be silent";
                            "Images will cycle to fill duration"] |}).
  cbn [valid negb probe logo reviewImage assets ret bind app].
  unfold getTemplate.
  change (templateFor "youtube")
    with (own (template "youtube" 1920 1080 15 43200 35)).
  cbn [resolution template ret bind app]. rewrite Hmkdir. unfold finally.
  destruct (renderVideo _ _ _); reflexivity.
Qed.

(* too few images are refused in the same way, before any effect *)
Example generateVideo_too_few_images :
  generateVideo getImageDimensions mkdir renderVideo tempDir sessionId
    "youtube"
    {| images := Some ["a.jpg"]; logo := Some "logo.png"; reviewImage := None;
       voiceOver := None; backgroundMusic := None |} true false
  = ([], Thrown "Asset validation failed: Minimum 3 images required").
Proof. reflexivity. Qed.

End Validation.




(** * Further properties of the sizing engine *)

Lemma nround_within (lo hi : Z) (q : Q) :
  inject_Z lo <= q <= inject_Z hi -> inject_Z lo <= nround q <= inject_Z hi.
Proof.
  intros [Hlo Hhi]. split.
  - rewrite <- (nround_exact_integer lo). now apply nround_exact_monotone.
  - rewrite <- (nround_exact_integer hi). now apply nround_exact_monotone.
Qed.

Lemma nround_nonneg (q : Q) : 0 <= q -> 0 <= nround q.
Proof.
  intros Hq. change 0 with (inject_Z 0) at 1.
  rewrite <- (nround_exact_integer 0). now apply nround_exact_monotone.
Qed.

Lemma nround_above (q : Q) : nround q <= q + (1 # 2).
Proof. cbn [nround exact]. apply Qfloor_le. Qed.

Lemma clamp_within (lo hi f : Q) : lo <= hi -> lo <= Qmax lo (Qmin f hi) <= hi.
Proof.
  intros Hrange. split; [apply Q.le_max_l | ].
  apply Q.max_lub; [exact Hrange | apply Q.le_min_r].
Qed.

Section TextAndZones.
Import MathematicalSizing.
Local Open Scope Q_scope.

(** X1. Whatever the frame height and the platform, a font size is within
    the bounds of its text type: 36..72 for a title, 24..48 for a subtitle,
    14..24 for a caption, and 18..36 for body text and for every other text
    type that is not a name inherited from Object.prototype. *)
Theorem calculateTextSize_within_constraints
  (textType : string) (containerHeight : Q) (platform : string) :
  existsb (String.eqb textType) PlatformTemplates.inherited = false ->
  let size := calculateTextSize textType containerHeight platform in
  (textType = "title" -> 36 <= size <= 72) /\
  (textType = "subtitle" -> 24 <= size <= 48) /\
  (textType = "caption" -> 14 <= size <= 24) /\
  (textType <> "title" -> textType <> "subtitle" -> textType <> "caption" ->
   18 <= size <= 36).
Proof.
  intros _ size. subst size. unfold calculateTextSize. cbn [lookup].
  destruct (String.eqb_spec textType "title") as [-> | Htitle];
    [ | destruct (String.eqb_spec textType "subtitle") as [-> | Hsubtitle];
        [ | destruct (String.eqb_spec textType "body") as [-> | Hbody];
            [ | destruct (String.eqb_spec textType "caption")
                  as [-> | Hcaption] ] ] ];
    (split; [ | split; [ | split] ]); intros;
    try discriminate; try congruence;
    first [ apply (@nround_within 36 72);
            apply (@clamp_within (inject_Z 36) (inject_Z 72))
          | apply (@nround_within 24 48);
            apply (@clamp_within (inject_Z 24) (inject_Z 48))
          | apply (@nround_within 18 36);
            apply (@clamp_within (inject_Z 18) (inject_Z 36))
          | apply (@nround_within 14 24);
            apply (@clamp_within (inject_Z 14) (inject_Z 24)) ];
    apply Qle_bool_iff; reflexivity.
Qed.

Lemma calculateTextSize_within_constraints_witness :
  18 <= calculateTextSize (num := Q) "headline" 480 "youtube" <= 36.
Proof.
  apply (@calculateTextSize_within_constraints "headline" 480 "youtube");
    [reflexivity | discriminate | discriminate | discriminate].
Defined.

Example calculateTextSize_title_1080p :
  calculateTextSize (num := Q) "title" 1080 "youtube" = 54
  /\ calculateTextSize (num := Q) "title" 1920 "tiktok" = 72
  /\ calculateTextSize (num := Q) "headline" 480 "youtube" = 18.
Proof. repeat split; vm_compute; reflexivity. Qed.

(** X2. For a frame of positive size the default review card is at most 90%
    of the frame wide and 60% of the frame high (half a pixel of rounding
    apart), and it starts inside the frame: x and y are not negative. *)
Theorem calculateReviewCardSize_inside_frame
  (platform : string) (videoWidth videoHeight : Q) :
  0 < videoWidth -> 0 < videoHeight ->
  exists width height x y padding,
    calculateReviewCardSize platform videoWidth videoHeight
    = forced width height x y padding /\
    0 <= width <= videoWidth * (9 # 10) + (1 # 2) /\
    0 <= height <= videoHeight * (6 # 10) + (1 # 2) /\
    0 <= x /\ 0 <= y /\ 0 <= padding.
Proof.
  intros Hw Hh. unfold calculateReviewCardSize, PHI_INVERSE.
  cbn [nlt nmul ndiv nsub lit int exact].
  set (cardWidth0 :=
         if Qltb (videoWidth / videoHeight) (7 # 10) then videoWidth * (9 # 10)
         else if Qltb (15 # 10) (videoWidth / videoHeight)
              then videoWidth * (45 # 100) else videoWidth * (7 # 10)).
  assert (Hcard0 : 0 < cardWidth0 <= videoWidth * (9 # 10)).
  { subst cardWidth0.
    destruct (Qltb (videoWidth / videoHeight) (7 # 10));
      [ | destruct (Qltb (15 # 10) (videoWidth / videoHeight)) ];
      split; lra. }
  clearbody cardWidth0.
  set (phi := 618033988749895 # 1000000000000000).
  assert (Hphi : 0 < phi) by reflexivity.
  assert (Hwide : videoHeight * (6 # 10) < cardWidth0 * phi ->
                  videoHeight * (6 # 10) / phi < cardWidth0)
    by (intros Hcap; apply Qlt_shift_div_r; assumption).
  assert (Hpos : 0 < videoHeight * (6 # 10) / phi)
    by (apply Qlt_shift_div_l; [exact Hphi | lra]).
  set (capped := videoHeight * (6 # 10) / phi) in *. clearbody capped.
  assert (Hphi1 : phi <= 1) by (apply Qle_bool_iff; reflexivity).
  assert (Hheight : 0 < cardWidth0 * phi) by nra.
  assert (Hheight1 : cardWidth0 * phi <= cardWidth0) by nra.
  set (golden := cardWidth0 * phi) in *. clearbody golden. clearbody phi.
  destruct (Qltb_spec (videoHeight * (6 # 10)) golden) as [Hcap | Hfit];
    (eexists; eexists; eexists; eexists; eexists; split; [reflexivity | ]);
    try specialize (Hwide Hcap);
    repeat split;
    first [ apply nround_nonneg; lra
          | apply nround_nonneg, Qle_shift_div_l; [reflexivity | lra]
          | eapply Qle_trans; [apply nround_above | lra] ].
Qed.

Lemma calculateReviewCardSize_inside_frame_witness :
  exists width height x y padding,
    calculateReviewCardSize (num := Q) "youtube" 1920 1080
    = forced width height x y padding /\
    0 <= width <= 1920 * (9 # 10) + (1 # 2) /\
    0 <= height <= 1080 * (6 # 10) + (1 # 2) /\
    0 <= x /\ 0 <= y /\ 0 <= padding.
Proof.
  apply (@calculateReviewCardSize_inside_frame "youtube" 1920 1080);
    reflexivity.
Defined.

Example calculateReviewCardSize_youtube_1080p :
  calculateReviewCardSize (num := Q) "youtube" 1920 1080
  = forced 864 534 528 273 43.
Proof. vm_compute. reflexivity. Qed.

(** X4. For a frame of positive size and a platform that is not a name
    inherited from Object.prototype, the safe zone lies strictly inside the
    frame on all four sides, its width and height are the distances between
    its edges, and it is centred on the frame's centre. *)
Theorem calculateSafeZones_inside_and_centred
  (width height : Q) (platform : string) :
  existsb (String.eqb platform) PlatformTemplates.inherited = false ->
  0 < width -> 0 < height ->
  let zones := calculateSafeZones width height platform in
  0 < zone_left zones < zone_right zones /\ zone_right zones < width /\
  0 < zone_top zones < zone_bottom zones /\ zone_bottom zones < height /\
  zone_right zones - zone_left zones == zone_width zones /\
  zone_bottom zones - zone_top zones == zone_height zones /\
  zone_left zones + zone_width zones / 2 == centerX zones /\
  zone_top zones + zone_height zones / 2 == centerY zones.
Proof.
  intros _ Hw Hh zones. subst zones. unfold calculateSafeZones.
  cbn [lookup].
  destruct (String.eqb platform "youtube");
    [ | destruct (String.eqb platform "tiktok");
        [ | destruct (String.eqb platform "instagram_reel");
            [ | destruct (String.eqb platform "instagram_feed");
                [ | destruct (String.eqb platform "facebook") ] ] ] ];
    cbn [zone_left zone_right zone_top zone_bottom zone_width zone_height
         centerX centerY or_default truthy nmul nsub ndiv lit int exact
         Qeq_bool Z.eqb Qnum Qden Z.mul Z.compare negb Pos.mul];
    repeat split; try lra; field.
Qed.

Lemma calculateSafeZones_inside_and_centred_witness :
  let zones := calculateSafeZones (num := Q) 1080 1920 "tiktok" in
  0 < zone_left zones < zone_right zones /\ zone_right zones < 1080 /\
  0 < zone_top zones < zone_bottom zones /\ zone_bottom zones < 1920 /\
  zone_right zones - zone_left zones == zone_width zones /\
  zone_bottom zones - zone_top zones == zone_height zones /\
  zone_left zones + zone_width zones / 2 == centerX zones /\
  zone_top zones + zone_height zones / 2 == centerY zones.
Proof.
  apply (@calculateSafeZones_inside_and_centred 1080 1920 "tiktok");
    reflexivity.
Defined.

End TextAndZones.

Lemma nround_compat (p q : Q) : p == q -> nround p = nround q.
Proof. intros Hpq. cbn [nround exact]. f_equal. now rewrite Hpq. Qed.

Lemma Qmin_scale (h a b : Q) : 0 < h -> h * Qmin a b == Qmin (h * a) (h * b).
Proof.
  intros Hh.
  destruct (Q.min_spec a b) as [[Hlt Hmin] | [Hle Hmin]]; rewrite Hmin.
  - symmetry. apply Q.min_l. nra.
  - symmetry. apply Q.min_r. nra.
Qed.

Section LogoRules.
Import MathematicalSizing.
Local Open Scope Q_scope.

(* the width a landscape logo may take before the height floor: half the
   golden section of the frame width, or the platform's own share if smaller *)
Definition widthCap (config : PlatformConfig Q) (videoWidth : Q) : Q :=
  match maxWidthPercent config with
  | Some percent =>
      Qmin (videoWidth * (618033988749895 # 1000000000000000) * (5 # 10))
        (videoWidth * percent)
  | None => videoWidth * (618033988749895 # 1000000000000000) * (5 # 10)
  end.

Definition referenceOf (config : PlatformConfig Q) (videoWidth videoHeight : Q)
  : Q :=
  match reference config with
  | ref_width => videoWidth
  | ref_height =>
      if Qltb (videoWidth / videoHeight) (7 # 10) then videoWidth
      else videoHeight
  end.

Lemma finalHeight_clamp (config : PlatformConfig Q)
  (scaledHeight originalLogoWidth originalLogoHeight : Q) :
  0 < originalLogoWidth -> 0 < originalLogoHeight ->
  finalHeightOf config originalLogoHeight
    (logoScale config scaledHeight originalLogoWidth originalLogoHeight
       (originalLogoWidth / originalLogoHeight))
  == Qmax (Qmin scaledHeight (maxSize config)) (minSize config).
Proof.
  intros Hw Hh. unfold finalHeightOf, logoScale.
  cbn [nmin nmax nmul ndiv exact].
  rewrite !Qmin_scale by exact Hh.
  assert (H1 : originalLogoHeight * (scaledHeight / originalLogoHeight)
               == scaledHeight) by (field; lra).
  assert (H2 : originalLogoHeight * (maxSize config / originalLogoHeight)
               == maxSize config) by (field; lra).
  assert (H3 : originalLogoHeight
               * (maxSize config / originalLogoWidth
                  * (originalLogoWidth / originalLogoHeight))
               == maxSize config) by (field; lra).
  rewrite H1, H2, H3.
  rewrite (Q.min_l (Qmin scaledHeight (maxSize config)) (maxSize config))
    by apply Q.le_min_r.
  rewrite (Q.min_l (Qmin scaledHeight (maxSize config)) (maxSize config))
    by apply Q.le_min_r.
  reflexivity.
Qed.

(* a declared width share is a positive number *)
Lemma declared_shares :
  Forall (fun config : PlatformConfig Q =>
            match maxWidthPercent config with
            | Some percent => 0 < percent
            | None => True
            end)
    (map snd PLATFORM_CONFIGS).
Proof. repeat constructor. Qed.

Lemma scaledSize_height (config : PlatformConfig Q)
  (videoWidth targetSize aspect : Q) :
  In config (map snd PLATFORM_CONFIGS) ->
  0 < videoWidth -> 0 < aspect ->
  fst (scaledSize config videoWidth targetSize aspect)
  == if Qltb 1 aspect
     then Qmin targetSize (widthCap config videoWidth / aspect)
     else targetSize.
Proof.
  intros Hdeclared Hw Haspect.
  pose proof declared_shares as Hshares. rewrite Forall_forall in Hshares.
  specialize (Hshares config Hdeclared).
  unfold scaledSize, widthCap, PHI_INVERSE.
  cbn [nlt nmul ndiv lit int exact].
  destruct (Qltb 1 aspect); [ | reflexivity].
  set (golden := videoWidth * (618033988749895 # 1000000000000000) * (5 # 10)).
  assert (Hcap : forall cap : Q,
            fst (if Qltb cap (targetSize * aspect)
                 then (cap / aspect, cap) else (targetSize, targetSize * aspect))
            == Qmin targetSize (cap / aspect)).
  { intros cap. destruct (Qltb_spec cap (targetSize * aspect)) as [Hover | Hfits];
      cbn [fst]; symmetry.
    - apply Q.min_r. apply Qle_shift_div_r; [exact Haspect | lra].
    - apply Q.min_l. apply Qle_shift_div_l; [exact Haspect | lra]. }
  destruct (maxWidthPercent config) as [percent | ]; [ | apply Hcap].
  assert (Htruthy : truthy (num := Q) percent = true).
  { cbn [truthy exact]. destruct (Qeq_bool percent 0) eqn:E; [ | reflexivity].
    apply Qeq_bool_iff in E. lra. }
  rewrite Htruthy. cbn [andb].
  destruct (Qltb_spec (videoWidth * percent) golden) as [Hless | Hmore].
  - rewrite Hcap. rewrite (Q.min_r golden (videoWidth * percent)) by lra.
    reflexivity.
  - rewrite Hcap. rewrite (Q.min_l golden (videoWidth * percent)) by lra.
    reflexivity.
Qed.

Lemma calculateGoldenPosition_bottom_right
  (containerWidth containerHeight elementWidth elementHeight : Q) :
  calculateGoldenPosition containerWidth containerHeight
    elementWidth elementHeight "bottom-right"
  = {| pos_x := containerWidth - elementWidth - containerWidth * (5 # 100);
       pos_y := containerHeight - elementHeight - containerHeight * (5 # 100) |}.
Proof. reflexivity. Qed.

Lemma aspect_above_one (w h : Q) : 0 < h -> (Qltb 1 (w / h) = true <-> h < w).
Proof.
  intros Hh. rewrite Qltb_lt. split; intros H.
  - assert (Hw : w == w / h * h) by (field; lra).
    set (a := w / h) in *. clearbody a. nra.
  - apply Qlt_shift_div_l; [exact Hh | lra].
Qed.

(* the height before rounding, and what width and height are rounded from *)
Lemma calculateLogoSize_closed
  (platform : string) (config : PlatformConfig Q)
  (videoWidth videoHeight originalLogoWidth originalLogoHeight : Q) :
  lookup platform PLATFORM_CONFIGS = Some config ->
  0 < videoWidth -> 0 < originalLogoWidth -> 0 < originalLogoHeight ->
  let size :=
    calculateLogoSize platform videoWidth videoHeight
      originalLogoWidth originalLogoHeight in
  let aspect := originalLogoWidth / originalLogoHeight in
  let target := referenceOf config videoWidth videoHeight
                * logoHeightPercent config in
  let wanted :=
    if Qltb 1 aspect
    then Qmin target (widthCap config videoWidth / aspect) else target in
  exists finalHeight : Q,
    finalHeight == Qmax (Qmin wanted (maxSize config)) (minSize config) /\
    height size = nround finalHeight /\
    width size = nround (finalHeight * aspect).
Proof.
  intros Hconfig Hvw Hw Hh size aspect target wanted.
  assert (Hfor : configFor platform = config)
    by (unfold configFor; now rewrite Hconfig).
  assert (Hdeclared : In config (map snd PLATFORM_CONFIGS))
    by (now apply lookup_In with (key := platform)).
  assert (Haspect : 0 < aspect) by (apply Qlt_shift_div_l; lra).
  subst size. unfold calculateLogoSize. rewrite Hfor.
  pose proof (@scaledSize_height config videoWidth target aspect
                Hdeclared Hvw Haspect) as Hscaled.
  replace ((if match reference config with
               | ref_height => false
               | ref_width => true
               end || (videoWidth / videoHeight <? lit 7 10)%js
            then videoWidth else videoHeight) * logoHeightPercent config)%js
    with target
    by (subst target; unfold referenceOf; destruct (reference config);
        reflexivity).
  cbn [ndiv exact]. fold aspect.
  destruct (scaledSize config videoWidth target aspect)
    as [scaledHeight scaledWidth].
  cbn [height width fst] in *.
  exists (finalHeightOf config originalLogoHeight
            (logoScale config scaledHeight originalLogoWidth
               originalLogoHeight aspect)).
  split; [ | split; reflexivity].
  subst aspect. rewrite finalHeight_clamp by assumption.
  subst wanted. cbn beta. now rewrite Hscaled.
Qed.

(** X5. The logo height, in closed form.  For a declared platform and an
    asset of positive size, let target be the reference dimension (the frame
    width for width-referenced platforms and for frames narrower than 0.7,
    else the frame height) times the platform's percentage.  The height of a
    logo that is not wider than tall is a whole number of pixels within half
    a pixel of max(minSize, min(target, maxSize)); for a wider logo the same
    holds with target first lowered to cap / (width / height), the height at
    which it is as wide as the cap. *)
Theorem calculateLogoSize_height_rule
  (platform : string) (config : PlatformConfig Q)
  (videoWidth videoHeight originalLogoWidth originalLogoHeight : Q) :
  lookup platform PLATFORM_CONFIGS = Some config ->
  0 < videoWidth -> 0 < videoHeight ->
  0 < originalLogoWidth -> 0 < originalLogoHeight ->
  let size :=
    calculateLogoSize platform videoWidth videoHeight
      originalLogoWidth originalLogoHeight in
  let target := referenceOf config videoWidth videoHeight
                * logoHeightPercent config in
  let clamp (wanted : Q) := Qmax (Qmin wanted (maxSize config)) (minSize config) in
  (exists pixels : Z, height size = inject_Z pixels) /\
  (originalLogoWidth <= originalLogoHeight ->
   Qabs (height size - clamp target) <= 1 # 2) /\
  (originalLogoHeight < originalLogoWidth ->
   Qabs (height size
         - clamp (Qmin target
                    (widthCap config videoWidth
                     / (originalLogoWidth / originalLogoHeight))))
   <= 1 # 2) /\
  (originalLogoWidth <= originalLogoHeight ->
   minSize config <= target <= maxSize config ->
   Qabs (height size - target) <= 1 # 2).
Proof.
  intros Hconfig Hvw Hvh Hw Hh size target clamp.
  destruct (@calculateLogoSize_closed platform config videoWidth videoHeight
              originalLogoWidth originalLogoHeight Hconfig Hvw Hw Hh)
    as (finalHeight & Hfinal & Hheight & _).
  fold size target in Hfinal, Hheight.
  pose proof (nround_exact_near finalHeight) as Hnear.
  rewrite <- Hheight in Hnear. rewrite Hfinal in Hnear.
  split; [ | split; [ | split] ].
  - rewrite Hheight. eexists. reflexivity.
  - intros Hportrait.
    destruct (Qltb 1 (originalLogoWidth / originalLogoHeight)) eqn:E;
      [ | exact Hnear].
    apply aspect_above_one in E; [lra | exact Hh].
  - intros Hlandscape.
    apply (aspect_above_one originalLogoWidth Hh) in Hlandscape.
    now rewrite Hlandscape in Hnear.
  - intros Hportrait [Hlo Hhi].
    destruct (Qltb 1 (originalLogoWidth / originalLogoHeight)) eqn:E.
    + apply aspect_above_one in E; [lra | exact Hh].
    + rewrite Q.min_l in Hnear by exact Hhi.
      now rewrite Q.max_l in Hnear by exact Hlo.
Qed.

Lemma calculateLogoSize_height_rule_witness :
  Qabs (height (calculateLogoSize (num := Q) "instagram_reel" 1080 1920 300 300)
        - 1080 * (10 # 100)) <= 1 # 2.
Proof.
  destruct (@calculateLogoSize_height_rule "instagram_reel" vertical
              1080 1920 300 300) as (_ & _ & _ & Hrule);
    [reflexivity | reflexivity | reflexivity | reflexivity | reflexivity | ].
  apply Hrule; [ | split]; apply Qle_bool_iff; reflexivity.
Defined.

(* a wide logo whose wanted height falls on a half: the doubles of the code
   fall just below it and round down, the exact reading rounds up; both are
   within half a pixel *)
Example calculateLogoSize_on_a_half :
  height (calculateLogoSize (num := Q) "linkedin" 3840 2160 640 79) = 119 /\
  height (calculateLogoSize (num := float) "linkedin"
            3840%float 2160%float 640%float 79%float) = 118%float.
Proof. split; vm_compute; reflexivity. Qed.

(** X6. For a declared platform and positive sizes the logo sits in the
    bottom-right corner with the 5% clear space: its right edge x + width is
    within a pixel of 95% of the frame width, and its bottom edge y + height
    within a pixel of 95% of the frame height. *)
Theorem calculateLogoSize_bottom_right_clear_space
  (platform : string) (config : PlatformConfig Q)
  (videoWidth videoHeight originalLogoWidth originalLogoHeight : Q) :
  lookup platform PLATFORM_CONFIGS = Some config ->
  0 < videoWidth -> 0 < videoHeight ->
  0 < originalLogoWidth -> 0 < originalLogoHeight ->
  let size :=
    calculateLogoSize platform videoWidth videoHeight
      originalLogoWidth originalLogoHeight in
  Qabs (x size + width size - videoWidth * (95 # 100)) <= 1 /\
  Qabs (y size + height size - videoHeight * (95 # 100)) <= 1.
Proof.
  intros _ _ _ _ _ size. subst size. unfold calculateLogoSize.
  destruct (scaledSize _ _ _ _) as [scaledHeight scaledWidth].
  rewrite calculateGoldenPosition_bottom_right.
  cbn [x y width height pos_x pos_y].
  set (finalHeight := finalHeightOf _ _ _).
  set (finalWidth := (finalHeight * _)%js).
  pose proof (nround_exact_near finalWidth) as Hwidth.
  pose proof (nround_exact_near finalHeight) as Hheight.
  pose proof (nround_exact_near
                (videoWidth - finalWidth - videoWidth * (5 # 100))) as Hx.
  pose proof (nround_exact_near
                (videoHeight - finalHeight - videoHeight * (5 # 100))) as Hy.
  apply Qabs_Qle_condition in Hwidth, Hheight, Hx, Hy.
  split; apply Qabs_Qle_condition; split; lra.
Qed.

Lemma calculateLogoSize_bottom_right_clear_space_witness :
  let size := calculateLogoSize (num := Q) "youtube" 1920 1080 400 200 in
  Qabs (x size + width size - 1920 * (95 # 100)) <= 1 /\
  Qabs (y size + height size - 1080 * (95 # 100)) <= 1.
Proof.
  apply (@calculateLogoSize_bottom_right_clear_space "youtube" youtube
           1920 1080 400 200); reflexivity.
Defined.

(** X7. For a declared platform, a logo wider than tall whose returned height
    is above the platform's minSize is no wider than the cap: half the golden
    section of the frame width (30.9%), or the platform's own share of the
    frame width where that is smaller (25% on linkedin), half a pixel of
    rounding apart.  Only the height floor can make a logo wider. *)
Theorem calculateLogoSize_width_cap
  (platform : string) (config : PlatformConfig Q)
  (videoWidth videoHeight originalLogoWidth originalLogoHeight : Q) :
  lookup platform PLATFORM_CONFIGS = Some config ->
  0 < videoWidth -> 0 < videoHeight ->
  0 < originalLogoHeight -> originalLogoHeight < originalLogoWidth ->
  let size :=
    calculateLogoSize platform videoWidth videoHeight
      originalLogoWidth originalLogoHeight in
  minSize config < height size ->
  width size <= widthCap config videoWidth + (1 # 2).
Proof.
  intros Hconfig Hvw Hvh Hh Hlandscape size Habove.
  assert (Hw : 0 < originalLogoWidth) by lra.
  destruct (@calculateLogoSize_closed platform config videoWidth videoHeight
              originalLogoWidth originalLogoHeight Hconfig Hvw Hw Hh)
    as (finalHeight & Hfinal & Hheight & Hwidth).
  fold size in Hheight, Hwidth.
  set (aspect := originalLogoWidth / originalLogoHeight) in *.
  assert (Haspect : 0 < aspect) by (apply Qlt_shift_div_l; lra).
  assert (Hfor : configFor platform = config)
    by (unfold configFor; now rewrite Hconfig).
  destruct (configFor_whole_range platform) as (lo & hi & Hlo & Hhi & Hlohi).
  rewrite Hfor in Hlo, Hhi.
  assert (Hlandscape' : Qltb 1 aspect = true)
    by (now apply aspect_above_one).
  rewrite Hlandscape' in Hfinal.
  set (wanted := Qmin _ (widthCap config videoWidth / aspect)) in Hfinal.
  assert (Hfloor : minSize config < finalHeight).
  { apply Qnot_le_lt. intros Hle.
    assert (Heq : finalHeight == minSize config).
    { apply Qle_antisym; [exact Hle | ]. rewrite Hfinal. apply Q.le_max_r. }
    apply nround_compat in Heq. rewrite Hheight, Heq, Hlo in Habove.
    rewrite nround_exact_integer in Habove. lra. }
  assert (Hcapped : finalHeight <= widthCap config videoWidth / aspect).
  { rewrite Hfinal in Hfloor |- *.
    destruct (Q.max_spec (Qmin wanted (maxSize config)) (minSize config))
      as [[Hlt Hmax] | [Hle Hmax]]; rewrite Hmax in *; [lra | ].
    eapply Qle_trans; [apply Q.le_min_l | ]. apply Q.le_min_r. }
  rewrite Hwidth. eapply Qle_trans; [apply nround_above | ].
  assert (Hwide : finalHeight * aspect <= widthCap config videoWidth).
  { assert (Hcap : widthCap config videoWidth
                   == widthCap config videoWidth / aspect * aspect)
      by (field; lra).
    set (c := widthCap config videoWidth / aspect) in *. clearbody c.
    rewrite Hcap. nra. }
  lra.
Qed.

Lemma calculateLogoSize_width_cap_witness :
  let size := calculateLogoSize (num := Q) "youtube" 1920 1080 2000 300 in
  width size <= widthCap youtube 1920 + (1 # 2).
Proof.
  apply (@calculateLogoSize_width_cap "youtube" youtube 1920 1080 2000 300);
    reflexivity.
Defined.

(* the floor at work: a very wide logo on linkedin is 70 px high and wider
   than the frame *)
Example calculateLogoSize_floor_beats_cap :
  let size := calculateLogoSize (num := Q) "linkedin" 1920 1080 3000 100 in
  (width size, height size, x size) = (2100, 70, -276).
Proof. vm_compute. reflexivity. Qed.

End LogoRules.

Section AnchorsAndGraphics.
Import MathematicalSizing.
Local Open Scope Q_scope.

(** X8. An element that fits between the 5% margins of its container is
    placed between them by each of the seven plain anchors (corners, edge
    centres, centre) and by any anchor name the table does not list, which is
    treated as bottom-right; the two golden anchors make no such promise.
    (Names every JavaScript object inherits, such as "constructor", are not
    anchor names.) *)
Theorem calculateGoldenPosition_within_margins
  (containerWidth containerHeight elementWidth elementHeight : Q)
  (position : string) :
  position <> "golden-top-left" -> position <> "golden-bottom-right" ->
  existsb (String.eqb position) PlatformTemplates.inherited = false ->
  elementWidth <= containerWidth - 2 * (containerWidth * (5 # 100)) ->
  elementHeight <= containerHeight - 2 * (containerHeight * (5 # 100)) ->
  let placed :=
    calculateGoldenPosition containerWidth containerHeight
      elementWidth elementHeight position in
  containerWidth * (5 # 100) <= pos_x placed /\
  pos_x placed + elementWidth <= containerWidth - containerWidth * (5 # 100) /\
  containerHeight * (5 # 100) <= pos_y placed /\
  pos_y placed + elementHeight
  <= containerHeight - containerHeight * (5 # 100).
Proof.
  intros Hgolden1 Hgolden2 _ Hw Hh placed. subst placed.
  unfold calculateGoldenPosition, MIN_CLEAR_SPACE_RATIO. cbn [lookup].
  assert (Hhalf : forall a : Q, (a / int 2)%js == a * (1 # 2))
    by (intros a; cbn [ndiv int lit exact]; field).
  repeat match goal with
         | |- context [String.eqb position ?name] =>
             destruct (String.eqb_spec position name)
         end;
    try contradiction;
    cbn [pos_x pos_y nmul nsub lit exact];
    rewrite ?Hhalf; repeat split; lra.
Qed.

Lemma calculateGoldenPosition_within_margins_witness :
  let placed :=
    calculateGoldenPosition (num := Q) 1920 1080 180 90 "lower-right" in
  1920 * (5 # 100) <= pos_x placed /\
  pos_x placed + 180 <= 1920 - 1920 * (5 # 100) /\
  1080 * (5 # 100) <= pos_y placed /\
  pos_y placed + 90 <= 1080 - 1080 * (5 # 100).
Proof.
  apply (@calculateGoldenPosition_within_margins 1920 1080 180 90 "lower-right");
    try discriminate; try reflexivity; apply Qle_bool_iff; reflexivity.
Defined.

(* the golden anchors can leave the margins: a 180 px element in a 200 px
   container *)
Example calculateGoldenPosition_golden_outside :
  pos_x (calculateGoldenPosition (num := Q) 200 200 180 20 "golden-bottom-right")
  == -13606797749979 # 1000000000000.
Proof. vm_compute. reflexivity. Qed.

Lemma even_round_le (t c : Q) : t <= c -> nround (t / 2) * 2 <= c + 1.
Proof.
  intros Htc. pose proof (nround_above (t / 2)) as Hround.
  assert (Hhalf : t / 2 * 2 == t) by field.
  set (u := t / 2) in *. clearbody u. lra.
Qed.

Lemma calculateAdaptiveGraphicSize_cap
  (platform : string)
  (videoWidth videoHeight originalWidth originalHeight : Q)
  (options : AdaptiveOptions Q) :
  exists width height x y scale coverage,
    calculateAdaptiveGraphicSize platform videoWidth videoHeight
      originalWidth originalHeight options
    = adaptive width height x y scale coverage /\
    width <= videoWidth - 2 * (videoWidth * (5 # 100)) + 1 /\
    exists k j : Z, width = inject_Z k * 2 /\ height = inject_Z j * 2.
Proof.
  unfold calculateAdaptiveGraphicSize, MIN_CLEAR_SPACE_RATIO.
  cbn [nlt nmul ndiv nsub nmin nmax lit int exact].
  set (maxAllowed := videoWidth - (2 # 1) * (videoWidth * (5 # 100))).
  set (graphicAspectRatio := originalWidth / originalHeight).
  set (maxCoverageRatio := option_or (maxCoverage options) (45 # 100)).
  set (minCoverageRatio := option_or (minCoverage options) (25 # 100)).
  set (availableWidth := Qmin (videoWidth * maxCoverageRatio) maxAllowed).
  set (availableHeight := videoHeight * maxCoverageRatio).
  assert (Havailable : availableWidth <= maxAllowed) by apply Q.le_min_r.
  clearbody availableWidth availableHeight graphicAspectRatio.
  set (minWidth := Qmin (videoWidth * minCoverageRatio) maxAllowed).
  set (minHeight := videoHeight * minCoverageRatio).
  clearbody minWidth minHeight.
  destruct (Qltb (availableWidth / availableHeight) graphicAspectRatio);
    cbv zeta beta iota;
    match goal with
    | |- context [Qltb maxAllowed ?t] =>
        destruct (Qltb_spec maxAllowed t) as [Hover | Hfits]
    end;
    cbv zeta beta iota;
    match goal with
    | |- context [Qltb ?t minWidth || Qltb ?u minHeight] =>
        destruct (Qltb t minWidth), (Qltb u minHeight)
    end;
    cbn [orb]; cbv zeta beta iota;
    try match goal with
        | |- context [Qltb maxAllowed ?t] =>
            destruct (Qltb_spec maxAllowed t) as [Hover' | Hfits']
        end;
    cbv zeta beta iota;
    (eexists; eexists; eexists; eexists; eexists; eexists;
     split; [reflexivity | split; [ | eexists; eexists; split; reflexivity ] ]);
    apply even_round_le;
    first [ apply Qle_refl | assumption | apply Qnot_lt_le; assumption ].
Qed.

(** X3. For a frame of positive size the review card that
    [calculateAllSizes] returns is never wider than 90% of the frame (the
    frame less its two 5% margins), a pixel of rounding apart, whatever the
    asset: an asset with both dimensions positive is sized to its own
    proportions, with an even width and an even height; an asset with a zero
    dimension, no asset, or adaptive sizing switched off gives the default
    card. *)
Theorem calculateAllSizes_review_card
  (platform : string) (videoWidth videoHeight : Q)
  (assets : AssetSizes Q) (adaptiveGraphics : bool) :
  0 < videoWidth -> 0 < videoHeight ->
  match reviewCard assets with
  | Some (cardWidth, cardHeight) => 0 <= cardWidth /\ 0 <= cardHeight
  | None => True
  end ->
  let sizes :=
    calculateAllSizes platform videoWidth videoHeight assets adaptiveGraphics in
  let sized :=
    match reviewCard assets with
    | Some (cardWidth, cardHeight) =>
        negb (Qeq_bool cardWidth 0) && negb (Qeq_bool cardHeight 0)
        && adaptiveGraphics
    | None => false
    end in
  match reviewCard_size sizes with
  | adaptive width height _ _ _ _ =>
      sized = true /\
      width <= videoWidth * (9 # 10) + 1 /\
      exists k j : Z, width = inject_Z k * 2 /\ height = inject_Z j * 2
  | forced width height _ _ _ =>
      sized = false /\
      reviewCard_size sizes
      = calculateReviewCardSize platform videoWidth videoHeight /\
      width <= videoWidth * (9 # 10) + 1
  end.
Proof.
  intros Hw Hh Hasset sizes sized. subst sizes sized.
  unfold calculateAllSizes. cbn [reviewCard_size truthy exact].
  destruct (@calculateReviewCardSize_inside_frame platform videoWidth
              videoHeight Hw Hh)
    as (w & h & x & y & p & Hforced & [_ Hwidth] & _).
  assert (Hdefault :
            match calculateReviewCardSize platform videoWidth videoHeight with
            | adaptive _ _ _ _ _ _ => False
            | forced width _ _ _ _ =>
                calculateReviewCardSize platform videoWidth videoHeight
                = calculateReviewCardSize platform videoWidth videoHeight /\
                width <= videoWidth * (9 # 10) + 1
            end).
  { rewrite Hforced. split; [reflexivity | lra]. }
  destruct (reviewCard assets) as [[cardWidth cardHeight] | ].
  - destruct (negb (Qeq_bool cardWidth 0) && negb (Qeq_bool cardHeight 0)
              && adaptiveGraphics) eqn:E.
    + destruct (calculateAdaptiveGraphicSize_cap platform videoWidth
                  videoHeight cardWidth cardHeight
                  {| maxCoverage := Some (lit 45 100);
                     minCoverage := Some (lit 25 100);
                     position := Some "center" |})
        as (w' & h' & x' & y' & s' & c' & Hsized & Hcap & Heven).
      rewrite Hsized. split; [reflexivity | split; [lra | exact Heven] ].
    + destruct (calculateReviewCardSize platform videoWidth videoHeight);
        [contradiction | ].
      split; [reflexivity | exact Hdefault].
  - destruct (calculateReviewCardSize platform videoWidth videoHeight);
      [contradiction | ].
    split; [reflexivity | exact Hdefault].
Qed.

End AnchorsAndGraphics.

Section ReviewCardExamples.
Import MathematicalSizing.
Local Open Scope Q_scope.

Definition card_800x600 : AssetSizes Q :=
  {| logo := None; reviewCard := Some (800, 600) |}.

Lemma calculateAllSizes_review_card_witness :
  let sizes := calculateAllSizes "youtube" 1920 1080 card_800x600 true in
  match reviewCard_size sizes with
  | adaptive width height _ _ _ _ =>
      (true = true) /\
      width <= 1920 * (9 # 10) + 1 /\
      exists k j : Z, width = inject_Z k * 2 /\ height = inject_Z j * 2
  | forced width height _ _ _ =>
      (true = false) /\
      (reviewCard_size sizes = calculateReviewCardSize "youtube" 1920 1080) /\
      width <= 1920 * (9 # 10) + 1
  end.
Proof.
  apply (@calculateAllSizes_review_card "youtube" 1920 1080 card_800x600 true);
    [reflexivity | reflexivity | split; discriminate].
Defined.

Example calculateAllSizes_review_card_800x600 :
  reviewCard_size (calculateAllSizes "youtube" 1920 1080 card_800x600 true)
  = adaptive 648 486 (1272 # 2) (594 # 2) (648 / 800)
      (648 * 486 / (1920 * 1080)).
Proof. vm_compute. reflexivity. Qed.

End ReviewCardExamples.

(** * Further properties of the renderer *)

From Stdlib Require Finite.

Section GraphShape.
Import FFmpegRenderer.
Context {num : Type} `{JSNumber num}.
Local Open Scope nat_scope.





End GraphShape.

Section GraphContents.
Import FFmpegRenderer.
Context {num : Type} `{JSNumber num}.
Local Open Scope nat_scope.

Variable defaultImageMode : ImageMode.
Variable getImageDimensions : string -> option (num * num).

Lemma overlayFilters_final (options : FilterOptions num) :
  In (Some FinalVideo) (map (@output num) (overlayFilters options)).
Proof.
  unfold overlayFilters. rewrite !map_app. apply in_or_app. right.
  apply in_or_app. right. now left.
Qed.

Lemma audioFilters_audio (options : FilterOptions num) :
  In (Some Audio) (map (@output num) (audioFilters options)).
Proof.
  unfold audioFilters.
  destruct (fc_voiceIndex options), (fc_musicIndex options); cbn; tauto.
Qed.

Lemma imageMap_ordinary (images : list string) (img : string) :
  img <> "__proto__" ->
  processedPad (imageMap images img) = Processed (indexOf images img).
Proof.
  intros Hname. unfold imageMap.
  destruct (String.eqb_spec img "__proto__"); [contradiction | reflexivity].
Qed.

Lemma imageMap_prototype (images : list string) :
  processedPad (imageMap images "__proto__") = ProcessedObject.
Proof. reflexivity. Qed.

(** X10. Building a filter graph fails exactly when the image list is empty.
    Every graph that is built defines the two pads the encoder is told to
    map, [final_video] and [audio], and holds one trimmed segment per
    image: a chain that writes [v<i>] for position i and reads one pad, the
    processed pad of the first position that holds the image's path, or
    [processed[object Object]] when the path is __proto__. *)
Theorem buildFilterComplex_defined (options : FilterOptions num) :
  (buildFilterComplex defaultImageMode getImageDimensions options = None
   <-> fc_images options = []) /\
  (forall graph,
     buildFilterComplex defaultImageMode getImageDimensions options = Some graph ->
     In (Some FinalVideo) (map (@output num) graph) /\
     In (Some Audio) (map (@output num) graph) /\
     forall i, i < List.length (fc_images options) ->
       exists source,
         In (mkChain [source]
               [loop (nceil (actualImageDuration options * int 30)%js);
                fps (int 30);
                trim_duration (actualImageDuration options)]
               (Some (Segment i)))
            graph /\
         (nth i (fc_images options) "" <> "__proto__" ->
          source = Processed (indexOf (fc_images options)
                                (nth i (fc_images options) ""))) /\
         (nth i (fc_images options) "" = "__proto__" ->
          source = ProcessedObject)).
Proof.
  unfold buildFilterComplex. split.
  - unfold transitionFilters, numSegments.
    destruct (fc_images options) as [ | a [ | b rest] ]; cbn [List.length];
      split; intros Hnone; try discriminate; reflexivity.
  - intros graph Hgraph.
    assert (Hparts : exists before transitions,
              graph
              = before
                ++ map (fun '(idx, img) => segmentFilter options idx img)
                     (combine (seq 0 (List.length (fc_images options)))
                        (fc_images options))
                ++ transitions
                ++ [ mkChain [BaseVideo] [trim_to (fc_duration options)]
                       (Some Trimmed) ]
                ++ overlayFilters options ++ audioFilters options).
    { destruct (transitionFilters options) as [transitions | ];
        [ | discriminate].
      injection Hgraph as <-. eexists; eexists; reflexivity. }
    destruct Hparts as (before & transitions & ->).
    rewrite !map_app. repeat split.
    + apply in_or_app. right. apply in_or_app. right. apply in_or_app. right.
      apply in_or_app. right. apply in_or_app. left. apply overlayFilters_final.
    + apply in_or_app. right. apply in_or_app. right. apply in_or_app. right.
      apply in_or_app. right. apply in_or_app. right. apply audioFilters_audio.
    + intros i Hi.
      exists (processedPad
                (imageMap (fc_images options) (nth i (fc_images options) ""))).
      split;
        [ | split;
            [ apply imageMap_ordinary
            | intros ->; apply imageMap_prototype ] ].
      apply in_or_app. right. apply in_or_app. left.
      apply in_map_iff. exists (i, nth i (fc_images options) "").
      split; [reflexivity | ].
      replace (i, nth i (fc_images options) "")
        with (nth i (combine (seq 0 (List.length (fc_images options)))
                       (fc_images options)) (0, "")).
      * apply nth_In. rewrite length_combine, length_seq. lia.
      * rewrite combine_nth by now rewrite length_seq.
        now rewrite seq_nth.
Qed.

Lemma indexOf_first (images : list string) (img : string) :
  In img images ->
  indexOf images img < List.length images /\
  nth (indexOf images img) images "" = img /\
  forall j, j < indexOf images img -> nth j images "" <> img.
Proof.
  induction images as [ | a rest IH]; intros Hin; [contradiction | ].
  cbn [indexOf]. destruct (String.eqb_spec a img) as [-> | Hne].
  - cbn. repeat split; [lia | intros j Hj; lia].
  - destruct Hin as [Heq | Hin]; [contradiction | ].
    destruct (IH Hin) as (Hlt & Hnth & Hfirst). cbn [List.length nth].
    repeat split; [lia | exact Hnth | ].
    intros [ | j] Hj; [exact Hne | apply Hfirst; lia].
Qed.

(** X11. Segment i of a graph reads the processed pad of the first position
    that holds the same image path as position i: that position is at most
    i, no earlier position holds the path, and when the image paths are
    pairwise distinct it is i itself.  A path listed twice is therefore
    shown twice from the one pad of its first occurrence.  The path
    __proto__ is the exception: the map from paths to positions keeps no
    entry for it, and its segment reads [processed[object Object]]. *)
Theorem segmentFilter_source (options : FilterOptions num) (i : nat) :
  i < List.length (fc_images options) ->
  let images := fc_images options in
  let k := indexOf images (nth i images "") in
  (nth i images "" <> "__proto__" ->
   inputs (segmentFilter options i (nth i images "")) = [Processed k]) /\
  (nth i images "" = "__proto__" ->
   inputs (segmentFilter options i (nth i images "")) = [ProcessedObject]) /\
  output (segmentFilter options i (nth i images "")) = Some (Segment i) /\
  k <= i /\ nth k images "" = nth i images "" /\
  (forall j, j < k -> nth j images "" <> nth i images "") /\
  (NoDup images -> k = i).
Proof.
  intros Hi images k.
  split;
    [ intros Hname; unfold segmentFilter; cbn [inputs]; fold images;
      now rewrite imageMap_ordinary
    | split;
      [ intros Hname; unfold segmentFilter; cbn [inputs]; fold images;
        now rewrite Hname | ] ].
  destruct (@indexOf_first images (nth i images ""))
    as (Hlt & Hnth & Hfirst); [now apply nth_In | ].
  fold k in Hlt, Hnth, Hfirst.
  assert (Hle : k <= i).
  { destruct (Nat.le_gt_cases k i) as [Hle | Hgt]; [exact Hle | ].
    now specialize (Hfirst i Hgt). }
  repeat split; try assumption; try reflexivity.
  intros Hnodup. rewrite (NoDup_nth images "") in Hnodup.
  apply Hnodup; assumption.
Qed.

End GraphContents.

Section GraphContentsExamples.
Import FFmpegRenderer.

Lemma segmentFilter_source_witness :
  let options := filterOptions ["a.jpg"; "b.jpg"; "a.jpg"] 15 None in
  inputs (segmentFilter options 2 "a.jpg") = [Processed 0] /\
  output (segmentFilter options 2 "a.jpg") = Some (Segment 2).
Proof.
  destruct (@segmentFilter_source Q exact
              (filterOptions ["a.jpg"; "b.jpg"; "a.jpg"] 15 None) 2%nat)
    as (Hin & _ & Hout & _); [cbn; lia | ].
  split; [apply Hin; discriminate | exact Hout].
Defined.


Lemma buildFilterComplex_defined_witness :
  buildFilterComplex CROP_FILL (fun _ => None) (filterOptions [] 15 None)
  = None.
Proof.
  apply (@buildFilterComplex_defined Q exact CROP_FILL (fun _ => None)
           (filterOptions [] 15 None)).
  reflexivity.
Defined.

End GraphContentsExamples.

(** ** The labels of a filter graph *)

Section GraphLabels.
Import FFmpegRenderer.
Context {num : Type} `{JSNumber num}.
Local Open Scope nat_scope.

Variable defaultImageMode : ImageMode.
Variable getImageDimensions : string -> option (num * num).

(* the labels the chains of a graph write *)
Definition written (graph : list (Chain num)) : list Pad :=
  flat_map (fun chain =>
              match output chain with Some pad => [pad] | None => [] end)
    graph.

Definition isStream (pad : Pad) : bool :=
  match pad with InV _ | InA _ => true | _ => false end.

(* the labels the chains of a graph read, one entry per read *)
Definition consumed (graph : list (Chain num)) : list Pad :=
  flat_map (fun chain => filter (fun pad => negb (isStream pad)) (inputs chain))
    graph.

(* the input streams the chains of a graph read *)
Definition streams (graph : list (Chain num)) : list Pad :=
  flat_map (fun chain => filter isStream (inputs chain)) graph.

(* the part of the graph that writes a label, and the part that reads it *)
Definition writeStage (pad : Pad) : nat :=
  match pad with
  | Bg _ | BlurredBg _ | Img _ | Processed _ | ProcessedObject
  | Letterboxed | Composed => 0
  | Segment _ => 1
  | Xfade _ | BaseVideo => 2
  | Trimmed => 3
  | LogoScaled | WithLogo | ReviewScaled | WithReview | FinalVideo => 4
  | DelayedVoice | MusicFaded | Audio => 5
  | InV _ | InA _ => 6
  end.

Definition readStage (pad : Pad) : nat :=
  match pad with
  | Bg _ | BlurredBg _ | Img _ | Letterboxed | Composed => 0
  | Processed _ | ProcessedObject => 1
  | Segment _ | Xfade _ => 2
  | BaseVideo => 3
  | Trimmed | LogoScaled | WithLogo | ReviewScaled | WithReview
  | FinalVideo => 4
  | DelayedVoice | MusicFaded | Audio => 5
  | InV _ | InA _ => 6
  end.

Definition padIndex (pad : Pad) : nat :=
  match pad with
  | InV i | InA i | Bg i | BlurredBg i | Img i | Processed i | Segment i
  | Xfade i => i
  | _ => 0
  end.

Lemma NoDup_stages (stage : Pad -> nat) (s : nat) (l rest : list Pad) :
  NoDup l -> Forall (fun pad => stage pad = s) l ->
  NoDup rest -> Forall (fun pad => s < stage pad) rest ->
  NoDup (l ++ rest).
Proof.
  intros Hl Hs Hrest Hlater. apply NoDup_app; [exact Hl | exact Hrest | ].
  intros pad Hin Hin'. rewrite Forall_forall in Hs, Hlater.
  specialize (Hs pad Hin). specialize (Hlater pad Hin'). lia.
Qed.

Lemma NoDup_flat_map {A B : Type} (f : A -> list B) (l : list A) :
  NoDup l ->
  (forall x, In x l -> NoDup (f x)) ->
  (forall x y b, In x l -> In y l -> In b (f x) -> In b (f y) -> x = y) ->
  NoDup (flat_map f l).
Proof.
  induction 1 as [ | a l Hnotin Hnodup IH]; intros Heach Hapart;
    [constructor | ].
  cbn [flat_map]. apply NoDup_app.
  - apply Heach. now left.
  - apply IH.
    + intros x Hx. apply Heach. now right.
    + intros x y b Hx Hy. apply Hapart; now right.
  - intros b Hb Hb'. apply in_flat_map in Hb' as (x & Hx & Hbx).
    assert (a = x) by (apply (Hapart a x b); auto; [now left | now right]).
    congruence.
Qed.

Lemma flat_map_flat_map {A B C : Type} (f : B -> list C) (g : A -> list B)
  (l : list A) :
  flat_map f (flat_map g l) = flat_map (fun x => flat_map f (g x)) l.
Proof.
  induction l as [ | a l IH]; [reflexivity | ].
  cbn [flat_map]. now rewrite flat_map_app, IH.
Qed.

Lemma indexOf_injective (images : list string) (a b : string) :
  In a images -> In b images ->
  indexOf images a = indexOf images b -> a = b.
Proof.
  intros Ha Hb Heq.
  destruct (indexOf_first images a Ha) as (_ & Hnth & _).
  destruct (indexOf_first images b Hb) as (_ & Hnth' & _).
  congruence.
Qed.

(* what one image contributes: a crop, coloured bars, or a blurred backdrop *)
Lemma processImage_labels (options : FilterOptions num) (img : string) :
  let k := indexOf (fc_images options) img in
  let chains := processImage defaultImageMode getImageDimensions options img in
  (written chains = [Processed k] /\ consumed chains = [] /\
   streams chains = [InV k]) \/
  (written chains = [Bg k; Img k; Processed k] /\
   consumed chains = [Bg k; Img k] /\ streams chains = [InV k]) \/
  (written chains = [BlurredBg k; Img k; Processed k] /\
   consumed chains = [BlurredBg k; Img k] /\ streams chains = [InV k; InV k]).
Proof.
  intros k chains. subst chains. unfold processImage. fold k.
  destruct (orDefault (fc_imageMode options) defaultImageMode);
    destruct (getImageDimensions img) as [ [w h] | ];
    try (left; repeat split; reflexivity);
    try (right; right; repeat split; reflexivity).
  unfold ImageHandlingModes.buildLetterboxFilter.
  cbn [ImageHandlingModes.lb_inputIndex ImageHandlingModes.lb_videoWidth
       ImageHandlingModes.lb_videoHeight ImageHandlingModes.lb_imageWidth
       ImageHandlingModes.lb_imageHeight ImageHandlingModes.lb_backgroundColor].
  match goal with |- context [if ?c then _ else _] => destruct c end.
  - left. repeat split; reflexivity.
  - right. left. repeat split; reflexivity.
Qed.

Lemma processImage_image (options : FilterOptions num) (img : string) :
  let k := indexOf (fc_images options) img in
  let chains := processImage defaultImageMode getImageDimensions options img in
  NoDup (written chains) /\ NoDup (consumed chains) /\
  In (Processed k) (written chains) /\
  (forall pad, In pad (written chains) ->
     padIndex pad = k /\ writeStage pad = 0 /\
     (pad = Processed k \/ In pad (consumed chains))) /\
  (forall pad, In pad (consumed chains) ->
     padIndex pad = k /\ readStage pad = 0 /\ In pad (written chains)) /\
  (forall pad, In pad (streams chains) -> pad = InV k).
Proof.
  intros k chains.
  destruct (processImage_labels options img)
    as [ (Hw & Hc & Hs) | [ (Hw & Hc & Hs) | (Hw & Hc & Hs) ] ];
    fold k chains in Hw, Hc, Hs; rewrite Hw, Hc, Hs;
    (split; [repeat constructor; cbn; intuition discriminate | ]);
    (split; [repeat constructor; cbn; intuition discriminate | ]);
    (split; [cbn; tauto | ]);
    (split; [ | split]); intros pad Hin; cbn in Hin;
    intuition (subst; cbn; auto).
Qed.

Section Parts.
Variable options : FilterOptions num.

Let images := fc_images options.
Let n := List.length images.

(* the chains that fit the images to the frame *)
Lemma processed_labels :
  let chains :=
    flat_map (processImage defaultImageMode getImageDimensions options) images in
  NoDup images ->
  NoDup (written chains) /\ NoDup (consumed chains) /\
  Forall (fun pad => writeStage pad = 0) (written chains) /\
  Forall (fun pad => readStage pad = 0) (consumed chains) /\
  (forall img, In img images ->
     In (Processed (indexOf images img)) (written chains)) /\
  (forall pad, In pad (written chains) ->
     (exists img, In img images /\ pad = Processed (indexOf images img)) \/
     In pad (consumed chains)) /\
  (forall pad, In pad (consumed chains) -> In pad (written chains)) /\
  (forall pad, In pad (streams chains) -> exists i, pad = InV i /\ i < n).
Proof.
  intros chains Hnodup. subst chains. unfold written, consumed, streams.
  rewrite !flat_map_flat_map.
  change (fun x : string =>
            flat_map
              (fun chain : Chain num =>
                 match output chain with Some pad => [pad] | None => [] end)
              (processImage defaultImageMode getImageDimensions options x))
    with (fun x : string =>
            written (processImage defaultImageMode getImageDimensions options x)).
  change (fun x : string =>
            flat_map
              (fun chain : Chain num =>
                 filter (fun pad => negb (isStream pad)) (inputs chain))
              (processImage defaultImageMode getImageDimensions options x))
    with (fun x : string =>
            consumed (processImage defaultImageMode getImageDimensions options x)).
  change (fun x : string =>
            flat_map
              (fun chain : Chain num => filter isStream (inputs chain))
              (processImage defaultImageMode getImageDimensions options x))
    with (fun x : string =>
            streams (processImage defaultImageMode getImageDimensions options x)).
  pose proof (processImage_image options) as Himage. cbn zeta in Himage.
  fold images in Himage.
  repeat split.
  - apply NoDup_flat_map; [exact Hnodup | intros x _; apply Himage | ].
    intros x y pad Hx Hy Hpx Hpy. apply (indexOf_injective images); auto.
    destruct (Himage x) as (_ & _ & _ & Hwx & _).
    destruct (Himage y) as (_ & _ & _ & Hwy & _).
    destruct (Hwx pad Hpx) as [<- _]. destruct (Hwy pad Hpy) as [<- _].
    reflexivity.
  - apply NoDup_flat_map; [exact Hnodup | intros x _; apply Himage | ].
    intros x y pad Hx Hy Hpx Hpy. apply (indexOf_injective images); auto.
    destruct (Himage x) as (_ & _ & _ & _ & Hcx & _).
    destruct (Himage y) as (_ & _ & _ & _ & Hcy & _).
    destruct (Hcx pad Hpx) as [<- _]. destruct (Hcy pad Hpy) as [<- _].
    reflexivity.
  - apply Forall_forall. intros pad Hin.
    apply in_flat_map in Hin as (x & _ & Hin).
    now apply (Himage x).
  - apply Forall_forall. intros pad Hin.
    apply in_flat_map in Hin as (x & _ & Hin).
    now apply (Himage x).
  - intros img Hin. apply in_flat_map. exists img. split; [exact Hin | ].
    destruct (Himage img) as (_ & _ & Hprocessed & _). exact Hprocessed.
  - intros pad Hin. apply in_flat_map in Hin as (x & Hx & Hin).
    destruct (Himage x) as (_ & _ & _ & Hwx & _).
    destruct (Hwx pad Hin) as (_ & _ & [-> | Hread]).
    + left. now exists x.
    + right. apply in_flat_map. now exists x.
  - intros pad Hin. apply in_flat_map in Hin as (x & Hx & Hin).
    apply in_flat_map. exists x. split; [exact Hx | ]. now apply (Himage x).
  - intros pad Hin. apply in_flat_map in Hin as (x & Hx & Hin).
    exists (indexOf images x). split; [now apply (Himage x) | ].
    now apply indexOf_first.
Qed.

(* the chains that hold each image for its share of the time *)
Lemma segments_labels (a : nat) (l : list string) :
  let chains :=
    map (fun '(idx, img) => segmentFilter options idx img)
      (combine (seq a (List.length l)) l) in
  written chains = map Segment (seq a (List.length l)) /\
  consumed chains = map (fun img => processedPad (imageMap images img)) l /\
  streams chains = [].
Proof.
  revert a. induction l as [ | img l IH]; intros a; [repeat split | ].
  destruct (IH (S a)) as (Hw & Hc & Hs). cbn zeta in *.
  cbn [List.length seq combine map]. unfold written, consumed, streams in *.
  cbn [flat_map]. rewrite Hw, Hc, Hs. unfold segmentFilter. fold images.
  cbn [inputs output filter]. unfold imageMap.
  destruct (String.eqb img "__proto__"); repeat split.
Qed.

Definition joinPad (i : nat) : Pad :=
  if i =? n - 1 then BaseVideo else Xfade i.

Definition joinReads (i : nat) : list Pad :=
  [if i =? 1 then Segment 0 else Xfade (i - 1); Segment i].

Lemma joinPad_injective : Finite.Injective joinPad.
Proof.
  intros i j. unfold joinPad.
  destruct (Nat.eqb_spec i (n - 1)), (Nat.eqb_spec j (n - 1));
    intros Heq; inversion Heq; congruence.
Qed.

Lemma transitionFilters_joins :
  2 <= n ->
  exists joins,
    transitionFilters options = Some joins /\
    written joins = map joinPad (seq 1 (n - 1)) /\
    consumed joins = flat_map joinReads (seq 1 (n - 1)) /\
    streams joins = [].
Proof.
  intros Hn. unfold transitionFilters, numSegments. fold images n.
  destruct n as [ | [ | m] ] eqn:En; [lia | lia | ].
  rewrite <- En in *. clear m En.
  eexists. split; [reflexivity | ].
  unfold written, consumed, streams.
  induction (seq 1 (n - 1)) as [ | i l (Hw & Hc & Hs) ]; [repeat split | ].
  cbn [map flat_map]. rewrite Hw, Hc, Hs. unfold joinReads.
  cbn [output inputs filter]. destruct (i =? 1); repeat split.
Qed.

(* the cross-fades, or the pass-through of a single segment *)
Lemma transitions_labels :
  1 <= n ->
  exists joins,
    transitionFilters options = Some joins /\
    NoDup (written joins) /\ NoDup (consumed joins) /\
    Forall (fun pad => writeStage pad = 2) (written joins) /\
    Forall (fun pad => readStage pad = 2) (consumed joins) /\
    In BaseVideo (written joins) /\
    (forall i, i < n -> In (Segment i) (consumed joins)) /\
    (forall pad, In pad (consumed joins) ->
       (exists i, i < n /\ pad = Segment i) \/ In pad (written joins)) /\
    (forall pad, In pad (written joins) ->
       pad = BaseVideo \/ In pad (consumed joins)) /\
    streams joins = [].
Proof.
  intros Hn. destruct (Nat.eq_dec n 1) as [Hone | Hmore].
  - exists [ mkChain [Segment 0] [null] (Some BaseVideo) ].
    split; [unfold transitionFilters, numSegments; fold images n;
            now rewrite Hone | ].
    change (written [ mkChain [Segment 0] [@null num] (Some BaseVideo) ])
      with [BaseVideo].
    change (consumed [ mkChain [Segment 0] [@null num] (Some BaseVideo) ])
      with [Segment 0].
    repeat split; try (repeat constructor; cbn; tauto).
    + intros i Hi. replace i with 0 by lia. now left.
    + intros pad [<- | [ ] ]. left. exists 0. split; [lia | reflexivity].
    + intros pad [<- | [ ] ]. now left.
  - destruct transitionFilters_joins as (joins & Hjoins & Hw & Hc & Hs);
      [lia | ].
    exists joins. split; [exact Hjoins | ]. rewrite Hw, Hc.
    assert (Hread : forall i pad, In i (seq 1 (n - 1)) -> In pad (joinReads i) ->
              pad = Segment i \/
              (i = 1 /\ pad = Segment 0) \/
              (2 <= i /\ pad = Xfade (i - 1))).
    { intros i pad Hi Hin. apply in_seq in Hi. unfold joinReads in Hin.
      destruct (Nat.eqb_spec i 1) as [-> | Hfirst];
        destruct Hin as [<- | [<- | [ ] ] ]; auto.
      right. right. split; [lia | reflexivity]. }
    repeat split.
    + apply Finite.Injective_map_NoDup;
        [apply joinPad_injective | apply seq_NoDup].
    + apply NoDup_flat_map; [apply seq_NoDup | | ].
      * intros i _. unfold joinReads.
        destruct (Nat.eqb_spec i 1) as [-> | _];
          repeat constructor; cbn; intuition discriminate.
      * intros i j pad Hi Hj Hpi Hpj.
        pose proof Hi as Hi'. pose proof Hj as Hj'.
        apply in_seq in Hi', Hj'.
        destruct (Hread i pad Hi Hpi) as [-> | [ [-> ->] | [Hi2 ->] ] ];
          destruct (Hread j _ Hj Hpj) as [Heq | [ [-> Heq] | [Hj2 Heq] ] ];
          inversion Heq; lia.
    + apply Forall_forall. intros pad Hin.
      apply in_map_iff in Hin as (i & <- & _). unfold joinPad.
      destruct (i =? n - 1); reflexivity.
    + apply Forall_forall. intros pad Hin.
      apply in_flat_map in Hin as (i & Hi & Hin).
      destruct (Hread i pad Hi Hin) as [-> | [ [_ ->] | [_ ->] ] ];
        reflexivity.
    + apply in_map_iff. exists (n - 1). unfold joinPad.
      rewrite Nat.eqb_refl. split; [reflexivity | apply in_seq; lia].
    + intros i Hi. apply in_flat_map.
      destruct (Nat.eq_dec i 0) as [-> | Hpos].
      * exists 1. split; [apply in_seq; lia | now left].
      * exists i. split; [apply in_seq; lia | right; now left].
    + intros pad Hin. apply in_flat_map in Hin as (i & Hi & Hin).
      pose proof Hi as Hi'. apply in_seq in Hi'.
      destruct (Hread i pad Hi Hin) as [-> | [ [_ ->] | [Hi2 ->] ] ].
      * left. exists i. split; [lia | reflexivity].
      * left. exists 0. split; [lia | reflexivity].
      * right. apply in_map_iff. exists (i - 1). unfold joinPad.
        destruct (Nat.eqb_spec (i - 1) (n - 1)) as [Hlast | _]; [lia | ].
        split; [reflexivity | apply in_seq; lia].
    + intros pad Hin. apply in_map_iff in Hin as (i & <- & Hi).
      apply in_seq in Hi. unfold joinPad.
      destruct (Nat.eqb_spec i (n - 1)) as [_ | Hlast]; [now left | ].
      right. apply in_flat_map. exists (i + 1).
      split; [apply in_seq; lia | ]. unfold joinReads.
      destruct (Nat.eqb_spec (i + 1) 1) as [Hfirst | _]; [lia | ].
      left. f_equal. lia.
    + exact Hs.
Qed.

Ltac each_pad :=
  let pad := fresh "pad" in
  let Hin := fresh "Hin" in
  intros pad Hin;
  repeat match goal with
  | Hin : _ \/ _ |- _ => destruct Hin as [<- | Hin]
  | Hin : False |- _ => destruct Hin
  end.

(* the trim, the overlays and the audio *)
Lemma finish_labels :
  let chains :=
    [ mkChain [BaseVideo] [trim_to (fc_duration options)] (Some Trimmed) ]
    ++ overlayFilters options ++ audioFilters options in
  NoDup (written chains) /\ NoDup (consumed chains) /\
  Forall (fun pad => 2 < writeStage pad) (written chains) /\
  Forall (fun pad => 2 < readStage pad) (consumed chains) /\
  In BaseVideo (consumed chains) /\
  In FinalVideo (written chains) /\ In Audio (written chains) /\
  ~ In FinalVideo (consumed chains) /\ ~ In Audio (consumed chains) /\
  (forall pad, In pad (consumed chains) ->
     pad = BaseVideo \/ In pad (written chains)) /\
  (forall pad, In pad (written chains) ->
     In pad (consumed chains) \/ pad = FinalVideo \/ pad = Audio) /\
  (forall pad, In pad (streams chains) ->
     (exists i, pad = InV i /\
        (fc_logoIndex options = Some i \/ fc_reviewIndex options = Some i)) \/
     (exists i, pad = InA i /\
        (fc_voiceIndex options = Some i \/ fc_musicIndex options = Some i))).
Proof.
  unfold overlayFilters, audioFilters.
  destruct (fc_logoSize options), (fc_logoIndex options) as [logoIndex | ],
    (fc_reviewCardSize options), (fc_reviewIndex options) as [reviewIndex | ],
    (fc_voiceIndex options) as [voiceIndex | ],
    (fc_musicIndex options) as [musicIndex | ];
    cbn;
    (split; [repeat constructor; cbn; intuition discriminate | ]);
    (split; [repeat constructor; cbn; intuition discriminate | ]);
    (split; [repeat constructor; cbn; lia | ]);
    (split; [repeat constructor; cbn; lia | ]);
    (split; [tauto | ]); (split; [tauto | ]); (split; [tauto | ]);
    (split; [intuition discriminate | ]);
    (split; [intuition discriminate | ]);
    (split; [each_pad; tauto | ]);
    (split; [each_pad; tauto | ]);
    each_pad; eauto 6.
Qed.

End Parts.

(* the input streams a graph reads *)
Lemma graph_streams (options : FilterOptions num) (graph : list (Chain num)) :
  buildFilterComplex defaultImageMode getImageDimensions options = Some graph ->
  forall pad, In pad (streams graph) ->
    (exists i, pad = InV i /\
       (i < List.length (fc_images options) \/
        fc_logoIndex options = Some i \/ fc_reviewIndex options = Some i)) \/
    (exists i, pad = InA i /\
       (fc_voiceIndex options = Some i \/ fc_musicIndex options = Some i)).
Proof.
  intros Hgraph. unfold buildFilterComplex in Hgraph.
  assert (Hn : 1 <= List.length (fc_images options)).
  { unfold transitionFilters, numSegments in Hgraph.
    destruct (fc_images options); [discriminate | cbn; lia]. }
  destruct (transitions_labels options Hn) as (joins & Hjoins & Hlabels).
  assert (HsT : streams joins = []) by apply Hlabels.
  rewrite Hjoins in Hgraph. injection Hgraph as <-.
  destruct (segments_labels options 0 (fc_images options)) as (_ & _ & HsS).
  pose proof (finish_labels options) as Hfinish.
  assert (HsF := proj2 (proj2 (proj2 (proj2 (proj2 (proj2 (proj2 (proj2
                   (proj2 (proj2 (proj2 Hfinish))))))))))).
  cbn zeta in HsS, HsF. clear Hfinish Hlabels.
  intros pad Hin. unfold streams in Hin. rewrite !flat_map_app in Hin.
  fold (streams joins) in Hin. rewrite HsT in Hin.
  unfold streams in HsS. rewrite HsS in Hin. cbn [app] in Hin.
  apply in_app_iff in Hin as [Hin | Hin].
  - rewrite flat_map_flat_map in Hin.
    apply in_flat_map in Hin as (img & Himg & Hin).
    destruct (processImage_image options img) as (_ & _ & _ & _ & _ & Hstream).
    rewrite (Hstream pad Hin). left.
    exists (indexOf (fc_images options) img). split; [reflexivity | ].
    left. now apply indexOf_first.
  - destruct (HsF pad) as [ (i & -> & Hi) | (i & -> & Hi) ];
      [exact Hin | left | right]; exists i; tauto.
Qed.

(** X12. The filter graph built for a list of pairwise distinct image
    paths, none of them __proto__, is well formed.  No label is written
    twice and no label is read twice; every label that is read is written by
    a chain of the graph; every label that is written is read by a chain,
    except [final_video] and [audio], which are written and left for the
    encoder; and every input stream that is read is an image of the list or
    one of the logo, review, voice-over and music inputs the caller gave an
    index for. *)
Theorem buildFilterComplex_well_formed (options : FilterOptions num)
  (graph : list (Chain num)) :
  NoDup (fc_images options) ->
  ~ In "__proto__" (fc_images options) ->
  buildFilterComplex defaultImageMode getImageDimensions options = Some graph ->
  NoDup (written graph) /\
  NoDup (consumed graph) /\
  (forall pad, In pad (consumed graph) -> In pad (written graph)) /\
  (forall pad, In pad (written graph) ->
     In pad (consumed graph) \/ pad = FinalVideo \/ pad = Audio) /\
  (In FinalVideo (written graph) /\ ~ In FinalVideo (consumed graph)) /\
  (In Audio (written graph) /\ ~ In Audio (consumed graph)) /\
  (forall pad, In pad (streams graph) ->
     (exists i, pad = InV i /\
        (i < List.length (fc_images options) \/
         fc_logoIndex options = Some i \/ fc_reviewIndex options = Some i)) \/
     (exists i, pad = InA i /\
        (fc_voiceIndex options = Some i \/ fc_musicIndex options = Some i))).
Proof.
  intros Hnodup Hordinary Hgraph. unfold buildFilterComplex in Hgraph.
  set (n := List.length (fc_images options)) in *.
  assert (Hn : 1 <= n).
  { subst n. unfold transitionFilters, numSegments in Hgraph.
    destruct (fc_images options); [discriminate | cbn; lia]. }
  destruct (transitions_labels options Hn)
    as (joins & Hjoins & HwT & HcT & HwsT & HrsT & Hbase & Hsegments
        & HcT_in & HwT_in & HsT).
  rewrite Hjoins in Hgraph. injection Hgraph as <-.
  destruct (processed_labels options Hnodup)
    as (HwP & HcP & HwsP & HrsP & Hprocessed & HwP_in & HcP_in & HsP).
  destruct (segments_labels options 0 (fc_images options)) as (HwS & HcS & HsS).
  rewrite (map_ext_in _
             (fun img => Processed (indexOf (fc_images options) img))) in HcS
    by (intros img Himg; apply imageMap_ordinary; intros ->; contradiction).
  destruct (finish_labels options)
    as (HwF & HcF & HwsF & HrsF & Hbase' & Hfinal & Haudio & Hfinal' & Haudio'
        & HcF_in & HwF_in & HsF).
  cbn zeta in *. fold n in HwS, HcS, HsS, HsP.
  set (processed :=
         flat_map (processImage defaultImageMode getImageDimensions options)
           (fc_images options)) in *.
  set (segments :=
         map (fun '(idx, img) => segmentFilter options idx img)
           (combine (seq 0 n) (fc_images options))) in *.
  set (finish :=
         mkChain [BaseVideo] [trim_to (fc_duration options)] (Some Trimmed)
         :: overlayFilters options ++ audioFilters options) in *.
  change ([ mkChain [BaseVideo] [trim_to (fc_duration options)] (Some Trimmed) ]
          ++ overlayFilters options ++ audioFilters options)
    with finish in *.
  assert (Hw : written (processed ++ segments ++ joins ++ finish)
               = written processed ++ written segments ++ written joins
                 ++ written finish)
    by (unfold written; now rewrite !flat_map_app).
  assert (Hc : consumed (processed ++ segments ++ joins ++ finish)
               = consumed processed ++ consumed segments ++ consumed joins
                 ++ consumed finish)
    by (unfold consumed; now rewrite !flat_map_app).
  assert (Hs : streams (processed ++ segments ++ joins ++ finish)
               = streams processed ++ streams segments ++ streams joins
                 ++ streams finish)
    by (unfold streams; now rewrite !flat_map_app).
  rewrite Hw, Hc, Hs, HsS, HsT. clear Hw Hc Hs.
  assert (HwsS : Forall (fun pad => writeStage pad = 1) (written segments)).
  { rewrite HwS. apply Forall_forall. intros pad Hin.
    now apply in_map_iff in Hin as (i & <- & _). }
  assert (HrsS : Forall (fun pad => readStage pad = 1) (consumed segments)).
  { rewrite HcS. apply Forall_forall. intros pad Hin.
    now apply in_map_iff in Hin as (img & <- & _). }
  assert (HwS' : NoDup (written segments)).
  { rewrite HwS. apply Finite.Injective_map_NoDup; [ | apply seq_NoDup].
    intros i j Heq. now inversion Heq. }
  assert (HcS' : NoDup (consumed segments)).
  { rewrite HcS. apply NoDup_map_NoDup_ForallPairs; [ | exact Hnodup].
    intros a b Ha Hb Heq. inversion Heq.
    now apply (indexOf_injective (fc_images options)). }
  split; [ | split; [ | split; [ | split; [ | split; [ | split] ] ] ] ].
  - apply (NoDup_stages writeStage (s := 0)); auto.
    + apply (NoDup_stages writeStage (s := 1)); auto.
      * apply (NoDup_stages writeStage (s := 2)); auto.
      * apply Forall_app. split.
        -- revert HwsT. apply Forall_impl. intros pad ->. lia.
        -- revert HwsF. apply Forall_impl. intros pad. lia.
    + apply Forall_app; split; [ | apply Forall_app; split].
      * revert HwsS. apply Forall_impl. intros pad ->. lia.
      * revert HwsT. apply Forall_impl. intros pad ->. lia.
      * revert HwsF. apply Forall_impl. intros pad. lia.
  - apply (NoDup_stages readStage (s := 0)); auto.
    + apply (NoDup_stages readStage (s := 1)); auto.
      * apply (NoDup_stages readStage (s := 2)); auto.
      * apply Forall_app. split.
        -- revert HrsT. apply Forall_impl. intros pad ->. lia.
        -- revert HrsF. apply Forall_impl. intros pad. lia.
    + apply Forall_app; split; [ | apply Forall_app; split].
      * revert HrsS. apply Forall_impl. intros pad ->. lia.
      * revert HrsT. apply Forall_impl. intros pad ->. lia.
      * revert HrsF. apply Forall_impl. intros pad. lia.
  - intros pad Hin. rewrite !in_app_iff in *.
    destruct Hin as [Hin | [Hin | [Hin | Hin] ] ].
    + left. now apply HcP_in.
    + left. rewrite HcS in Hin. apply in_map_iff in Hin as (img & <- & Himg).
      now apply Hprocessed.
    + destruct (HcT_in pad Hin) as [ (i & Hi & ->) | Hjoin ]; [ | tauto].
      right. left. rewrite HwS. apply in_map. apply in_seq. lia.
    + destruct (HcF_in pad Hin) as [-> | Hfinish]; tauto.
  - intros pad Hin. rewrite !in_app_iff in *.
    destruct Hin as [Hin | [Hin | [Hin | Hin] ] ].
    + destruct (HwP_in pad Hin) as [ (img & Himg & ->) | Hread ]; [ | tauto].
      left. right. left. rewrite HcS.
      now apply (in_map (fun img => Processed (indexOf (fc_images options) img))).
    + rewrite HwS in Hin. apply in_map_iff in Hin as (i & <- & Hi).
      apply in_seq in Hi. left. right. right. left. apply Hsegments. lia.
    + destruct (HwT_in pad Hin) as [-> | Hread]; tauto.
    + destruct (HwF_in pad Hin) as [Hread | Hlast]; tauto.
  - split; [rewrite !in_app_iff; tauto | ]. rewrite !in_app_iff.
    rewrite Forall_forall in HrsP, HrsS, HrsT.
    intros [Hin | [Hin | [Hin | Hin] ] ]; [ | | | tauto].
    + now specialize (HrsP _ Hin).
    + now specialize (HrsS _ Hin).
    + now specialize (HrsT _ Hin).
  - split; [rewrite !in_app_iff; tauto | ]. rewrite !in_app_iff.
    rewrite Forall_forall in HrsP, HrsS, HrsT.
    intros [Hin | [Hin | [Hin | Hin] ] ]; [ | | | tauto].
    + now specialize (HrsP _ Hin).
    + now specialize (HrsS _ Hin).
    + now specialize (HrsT _ Hin).
  - intros pad Hin. cbn [app] in Hin. rewrite in_app_iff in Hin.
    destruct Hin as [Hin | Hin].
    + destruct (HsP pad Hin) as (i & -> & Hi). left. exists i. tauto.
    + destruct (HsF pad Hin) as [ (i & -> & Hi) | (i & -> & Hi) ];
        [left | right]; exists i; tauto.
Qed.

End GraphLabels.

Section GraphLabelsExamples.
Import FFmpegRenderer.

Lemma buildFilterComplex_well_formed_witness :
  exists graph,
    buildFilterComplex BLUR_BACKGROUND (fun _ => None)
      (filterOptions ["a.jpg"; "b.jpg"; "c.jpg"] 15 None) = Some graph /\
    NoDup (written graph) /\ NoDup (consumed graph).
Proof.
  assert (Hgraph : exists graph,
            buildFilterComplex BLUR_BACKGROUND (fun _ => None)
              (filterOptions ["a.jpg"; "b.jpg"; "c.jpg"] 15 None) = Some graph)
    by (eexists; reflexivity).
  destruct Hgraph as (graph & Hgraph). exists graph.
  split; [exact Hgraph | ].
  destruct (@buildFilterComplex_well_formed Q exact BLUR_BACKGROUND
              (fun _ => None)
              (filterOptions ["a.jpg"; "b.jpg"; "c.jpg"] 15 None) graph)
    as (Hwritten & Hconsumed & _).
  - repeat constructor; cbn; intuition discriminate.
  - cbn. intuition discriminate.
  - exact Hgraph.
  - split; [exact Hwritten | exact Hconsumed].
Defined.

(* an image path listed twice writes its processed label twice and reads it
   twice *)
Example buildFilterComplex_repeated_image :
  exists graph,
    buildFilterComplex CROP_FILL (fun _ => None)
      (filterOptions ["a.jpg"; "a.jpg"] 10 None) = Some graph /\
    written graph
    = [Processed 0; Processed 0; Segment 0; Segment 1; BaseVideo; Trimmed;
       FinalVideo; Audio] /\
    consumed graph
    = [Processed 0; Processed 0; Segment 0; Segment 1; BaseVideo; Trimmed].
Proof. eexists. repeat split. Qed.

(* the segment of an image path __proto__ reads a label that no chain
   writes, and the label written for the image is read by no chain *)
Example buildFilterComplex_prototype_path :
  exists graph,
    buildFilterComplex CROP_FILL (fun _ => None)
      (filterOptions ["a.jpg"; "__proto__"] 10 None) = Some graph /\
    written graph
    = [Processed 0; Processed 1; Segment 0; Segment 1; BaseVideo; Trimmed;
       FinalVideo; Audio] /\
    consumed graph
    = [Processed 0; ProcessedObject; Segment 0; Segment 1; BaseVideo;
       Trimmed].
Proof. eexists. repeat split. Qed.

End GraphLabelsExamples.

(** ** The inputs of a single-pass render *)

Section SinglePassInputs.
Import FFmpegRenderer.
Context {num : Type} `{JSNumber num}.
Local Open Scope nat_scope.

Variable defaultImageMode : ImageMode.
Variable getImageDimensions : string -> option (num * num).

Lemma nth_error_after (images rest : list string) (k : nat) :
  nth_error (images ++ rest) (List.length images + k) = nth_error rest k.
Proof.
  rewrite nth_error_app2 by lia. f_equal. lia.
Qed.

(* the file the command reads at an index the graph was given *)
Definition inputAt (inputs : list string) (index : option nat)
  : option string :=
  match index with
  | Some i => nth_error inputs i
  | None => None
  end.

Definition present (path : option string) : option string :=
  if given path then path else None.

Definition isSome (index : option nat) : bool :=
  match index with Some _ => true | None => false end.

(** X13. In a single-pass render (at most 6 images) the command's inputs are
    the images, in order, followed by the voice-over, the music, the logo
    and the review image that were given (a missing or empty path is left
    out).  The index handed to the graph builder for each of the four is
    the position of that file among the inputs, and is absent exactly when
    the file is; so every input stream the graph reads exists. *)
Theorem buildCommand_input_indexes (options : Options num) :
  List.length (images options) <= 6 ->
  exists inputs filterOptions,
    buildCommand defaultImageMode options = single_pass inputs filterOptions /\
    firstn (List.length (images options)) inputs = images options /\
    List.length inputs
    = List.length (images options)
      + count (given (voiceOver options))
      + count (given (backgroundMusic options))
      + count (given (logo options)) + count (given (reviewImage options)) /\
    inputAt inputs (fc_voiceIndex filterOptions) = present (voiceOver options) /\
    inputAt inputs (fc_musicIndex filterOptions)
    = present (backgroundMusic options) /\
    inputAt inputs (fc_logoIndex filterOptions) = present (logo options) /\
    inputAt inputs (fc_reviewIndex filterOptions)
    = present (reviewImage options) /\
    (isSome (fc_voiceIndex filterOptions) = given (voiceOver options) /\
     isSome (fc_musicIndex filterOptions) = given (backgroundMusic options) /\
     isSome (fc_logoIndex filterOptions) = given (logo options) /\
     isSome (fc_reviewIndex filterOptions) = given (reviewImage options)) /\
    forall graph,
      buildFilterComplex defaultImageMode getImageDimensions filterOptions
      = Some graph ->
      forall pad, In pad (streams graph) ->
        padIndex pad < List.length inputs.
Proof.
  intros HN. unfold buildCommand.
  destruct (Nat.ltb_spec BATCH_THRESHOLD (List.length (images options)))
    as [Hlt | _]; [unfold BATCH_THRESHOLD in Hlt; lia | ].
  eexists. eexists. split; [reflexivity | ].
  cbn [fc_voiceIndex fc_musicIndex fc_logoIndex fc_reviewIndex].
  set (N := List.length (images options)).
  assert (Hpresent : forall path,
            (given path = true /\ exists file, path = Some file) \/
            (given path = false)).
  { intros [file | ]; [ | now right].
    destruct (given (Some file)) eqn:Hgiven; [left | now right].
    split; [reflexivity | now exists file]. }
  split; [ | split; [ | split; [ | split; [ | split; [ | split; [ | split] ] ] ] ] ].
  - unfold N. rewrite firstn_app, firstn_all, Nat.sub_diag. cbn [firstn].
    apply app_nil_r.
  - rewrite !length_app. fold N.
    destruct (Hpresent (voiceOver options)) as [ [-> [v ->] ] | ->],
      (Hpresent (backgroundMusic options)) as [ [-> [m ->] ] | ->],
      (Hpresent (logo options)) as [ [-> [l ->] ] | ->],
      (Hpresent (reviewImage options)) as [ [-> [r ->] ] | ->];
      cbn; lia.
  - unfold present.
    destruct (Hpresent (voiceOver options)) as [ [-> [v ->] ] | ->];
      [ | reflexivity].
    cbn [inputAt]. fold N. replace N with (N + 0) at 1 by lia.
    now rewrite nth_error_after.
  - unfold present.
    destruct (Hpresent (backgroundMusic options)) as [ [-> [m ->] ] | ->];
      [ | reflexivity].
    cbn [inputAt]. fold N.
    destruct (Hpresent (voiceOver options)) as [ [-> [v ->] ] | ->];
      rewrite nth_error_after; reflexivity.
  - unfold present.
    destruct (Hpresent (logo options)) as [ [-> [l ->] ] | ->];
      [ | reflexivity].
    cbn [inputAt]. fold N. rewrite <- Nat.add_assoc.
    destruct (Hpresent (voiceOver options)) as [ [-> [v ->] ] | ->],
      (Hpresent (backgroundMusic options)) as [ [-> [m ->] ] | ->];
      rewrite nth_error_after; reflexivity.
  - unfold present.
    destruct (Hpresent (reviewImage options)) as [ [-> [r ->] ] | ->];
      [ | reflexivity].
    cbn [inputAt]. fold N. rewrite <- !Nat.add_assoc.
    destruct (Hpresent (voiceOver options)) as [ [-> [v ->] ] | ->],
      (Hpresent (backgroundMusic options)) as [ [-> [m ->] ] | ->],
      (Hpresent (logo options)) as [ [-> [l ->] ] | ->];
      rewrite nth_error_after; reflexivity.
  - destruct (given (voiceOver options)), (given (backgroundMusic options)),
      (given (logo options)), (given (reviewImage options));
      repeat split.
  - intros graph Hgraph pad Hin.
    destruct (graph_streams _ _ _ Hgraph pad Hin)
      as [ (i & -> & Hi) | (i & -> & Hi) ];
      cbn [padIndex fc_images fc_voiceIndex fc_musicIndex fc_logoIndex
           fc_reviewIndex] in *;
      rewrite !length_app; fold N in Hi |- *;
      destruct (Hpresent (voiceOver options)) as [ [Hv Hv'] | Hv],
        (Hpresent (backgroundMusic options)) as [ [Hm Hm'] | Hm],
        (Hpresent (logo options)) as [ [Hl Hl'] | Hl],
        (Hpresent (reviewImage options)) as [ [Hr Hr'] | Hr];
      rewrite Hv, Hm, Hl, Hr in *;
      repeat match goal with
      | Hfile : exists file, _ = Some file |- _ => destruct Hfile as [? ->]
      end;
      cbn in *;
      repeat match goal with
      | Hor : _ \/ _ |- _ => destruct Hor as [Hor | Hor]
      | Heq : Some _ = Some _ |- _ => injection Heq as <-
      | Heq : None = Some _ |- _ => discriminate Heq
      end; lia.
Qed.

End SinglePassInputs.

Section SinglePassInputsExamples.
Import FFmpegRenderer.

(* a request with a logo and music, and no voice-over *)
Definition brandedRequest : Options Q :=
  {| images := ["a.jpg"; "b.jpg"; "c.jpg"]; voiceOver := Some "";
     backgroundMusic := Some "music.mp3"; logo := Some "logo.png";
     reviewImage := None; outputPath := "out/video.mp4";
     videoWidth := 1920%Q; videoHeight := 1080%Q; duration := 15%Q;
     logoSize := Some {| box_width := 200%Q; box_height := 100%Q;
                         box_x := 1640%Q; box_y := 900%Q |};
     reviewCardSize := None; preset := None; quality := None;
     imageMode := None; transition := None |}.

Lemma buildCommand_input_indexes_witness :
  exists inputs filterOptions,
    buildCommand CROP_FILL brandedRequest = single_pass inputs filterOptions /\
    inputAt inputs (fc_musicIndex filterOptions) = Some "music.mp3" /\
    inputAt inputs (fc_logoIndex filterOptions) = Some "logo.png" /\
    inputAt inputs (fc_voiceIndex filterOptions) = None.
Proof.
  destruct (@buildCommand_input_indexes Q exact CROP_FILL (fun _ => None)
              brandedRequest)
    as (inputs & filterOptions & Hcommand & _ & _ & Hvoice & Hmusic & Hlogo & _);
    [cbn; lia | ].
  exists inputs, filterOptions.
  split; [exact Hcommand | ].
  split; [exact Hmusic | split; [exact Hlogo | exact Hvoice] ].
Defined.

Example buildCommand_branded_inputs :
  exists filterOptions,
    buildCommand CROP_FILL brandedRequest
    = single_pass ["a.jpg"; "b.jpg"; "c.jpg"; "music.mp3"; "logo.png"]
        filterOptions /\
    fc_voiceIndex filterOptions = None /\
    fc_musicIndex filterOptions = Some 3%nat /\
    fc_logoIndex filterOptions = Some 4%nat.
Proof. eexists. repeat split. Qed.

End SinglePassInputsExamples.

(** ** The batches of a chunked render *)

Section BatchRenders.
Import FFmpegRenderer.
Context {num : Type} `{JSNumber num}.
Local Open Scope nat_scope.

Variable defaultImageMode : ImageMode.

Lemma NoDup_window (a b : nat) (l : list string) :
  NoDup l -> NoDup (firstn a (skipn b l)).
Proof.
  intros Hnodup. rewrite <- (firstn_skipn b l) in Hnodup.
  apply NoDup_app_remove_l in Hnodup.
  rewrite <- (firstn_skipn a (skipn b l)) in Hnodup.
  now apply NoDup_app_remove_r in Hnodup.
Qed.

Lemma skipn_cons_nth (k : nat) (l : list string) :
  k < List.length l -> skipn k l = nth k l "" :: skipn (S k) l.
Proof.
  revert k. induction l as [ | a l IH]; intros k Hk; [cbn in Hk; lia | ].
  destruct k as [ | k]; [reflexivity | ].
  cbn [skipn nth]. apply IH. cbn in Hk. lia.
Qed.

(* a batch after the first is a window of the image list *)
Lemma batch_window (images : list string) (j : nat) :
  1 <= j -> 3 * j < List.length images ->
  chunk_images (batch images j) = firstn 4 (skipn (3 * j - 1) images).
Proof.
  intros Hj Hin. unfold batch. cbn [chunk_images].
  destruct (Nat.eqb_spec j 0) as [Hzero | _]; [lia | ].
  rewrite (skipn_cons_nth (k := 3 * j - 1)) by lia.
  replace (S (3 * j - 1)) with (3 * j) by lia. reflexivity.
Qed.

(** X14. A batched render makes one graph per batch, over the batch's
    images alone: the first batch has one to three images and every later
    one two to four (its overlap image and one to three new ones), so no
    batch graph has more than three cross-fades; pairwise distinct images
    stay pairwise distinct within every batch; no batch is given a logo, a
    review card, a voice-over or music, so its graph only converts the
    pixel format and carries a silent track of the batch's duration.  Over
    all batches N + k - 1 images are rendered for N >= 1 images in k
    batches. *)
Theorem buildCommandChunked_renders (options : Options num) :
  let images := images options in
  let N := List.length images in
  exists render,
    buildCommandChunked defaultImageMode options = Some render /\
    map (@fc_images num) (renders render) = map chunk_images (batches images) /\
    List.length (renders render) = (N + 2) / 3 /\
    (forall j, j < (N + 2) / 3 ->
       let size := List.length (chunk_images (batch images j)) in
       (j = 0 -> 1 <= size <= 3) /\ (1 <= j -> 2 <= size <= 4) /\
       (NoDup images -> NoDup (chunk_images (batch images j)))) /\
    Forall (fun filterOptions =>
              transitionCount filterOptions <= 3 /\
              overlayFilters filterOptions
              = [ mkChain [Trimmed] [format_yuv420p] (Some FinalVideo) ] /\
              audioFilters filterOptions
              = [ mkChain [] [anullsrc (fc_duration filterOptions)]
                    (Some Audio) ])%Z
      (renders render) /\
    (1 <= N ->
     list_sum (map (fun filterOptions =>
                      List.length (fc_images filterOptions))
                 (renders render))
     = N + ((N + 2) / 3 - 1)).
Proof.
  intros images N. unfold buildCommandChunked. fold images.
  rewrite chunksOf_batches. eexists. split; [reflexivity | ].
  cbn [renders].
  assert (Hsize : forall j, j < (N + 2) / 3 ->
            let size := List.length (chunk_images (batch images j)) in
            (j = 0 -> 1 <= size <= 3) /\ (1 <= j -> 2 <= size <= 4)).
  { intros j Hj size. subst size. rewrite batch_length. fold N.
    assert (Hin : 3 * j < N) by thirds N.
    destruct (Nat.eqb_spec j 0); lia. }
  split; [ | split; [ | split; [ | split] ] ].
  - rewrite map_map. reflexivity.
  - unfold batches, batchCount. now rewrite !length_map, length_seq.
  - intros j Hj. cbn zeta.
    destruct (Hsize j Hj) as [Hfirst Hlater].
    split; [exact Hfirst | split; [exact Hlater | ] ].
    intros Hnodup. destruct (Nat.eq_dec j 0) as [-> | Hpos].
    + unfold batch. cbn [chunk_images Nat.eqb app].
      now apply NoDup_window.
    + rewrite batch_window;
        [now apply NoDup_window | lia | fold N; thirds N].
  - apply Forall_forall. intros filterOptions Hin.
    apply in_map_iff in Hin as (chunk & <- & Hchunk).
    unfold batches in Hchunk. apply in_map_iff in Hchunk as (j & <- & Hj).
    apply in_seq in Hj. unfold batchCount in Hj. fold N in Hj.
    split; [ | split; reflexivity].
    unfold transitionCount, numSegments. cbn [renderChunk fc_images].
    destruct (Hsize j) as [Hfirst Hlater]; [lia | ].
    destruct (Nat.eq_dec j 0) as [Hzero | Hpos]; [specialize (Hfirst Hzero) | ];
      lia.
  - intros HN. rewrite map_map. cbn [renderChunk fc_images].
    apply imagesRendered_batches. exact HN.
Qed.

End BatchRenders.

Section BatchRendersExamples.
Import FFmpegRenderer.
Local Open Scope nat_scope.

Example buildCommandChunked_renders_ten :
  exists render,
    buildCommandChunked CROP_FILL (requestFor ten_images 30%Q None)
    = Some render /\
    map (fun filterOptions => List.length (fc_images filterOptions))
      (renders render) = [3; 4; 4; 2].
Proof. eexists. split; reflexivity. Qed.

End BatchRendersExamples.

(** ** The audio and the overlays of a chunked render *)

Section AudioAndOverlays.
Import FFmpegRenderer.
Context {num : Type} `{JSNumber num}.
Local Open Scope nat_scope.

Variable getAudioDuration : string -> option num.

Lemma given_cases (path : option string) :
  (given path = true /\ exists file, path = Some file) \/ given path = false.
Proof.
  destruct path as [file | ]; [ | now right].
  destruct (given (Some file)) eqn:Hgiven; [left | now right].
  split; [reflexivity | now exists file].
Qed.

(* the file a link reads through an input stream *)
Definition fileOf (finish : Finish num) (label : Label) : option string :=
  match label with
  | stream_v i | stream_a i => nth_error (finish_inputs finish) i
  | _ => None
  end.

Definition isInput (label : Label) : bool :=
  match label with stream_v _ | stream_a _ => true | _ => false end.

Ltac each_link :=
  let link := fresh "link" in
  let Hin := fresh "Hin" in
  let Hout := fresh "Hout" in
  intros link Hin Hout; cbn in Hin;
  repeat match goal with
  | Hin : _ \/ _ |- _ => destruct Hin as [<- | Hin]
  | Hin : False |- _ => destruct Hin
  end; cbn in Hout; try discriminate Hout.

(** X15. The command that adds the audio and the overlays to a stitched
    video fails only when there is music and its duration cannot be probed.
    Otherwise its graph is well formed: no label is written twice,
    [final_video] and [final_audio] are written and are the two streams
    mapped, and every other label read is written by a link of the graph;
    input 0 is the stitched video; the music, logo and review links read
    the input that holds the music, logo and review file; the mix reads
    the stitched video's own audio and, when there is a voice-over, input 1,
    which holds it; and every input stream read exists. *)
Theorem addAudioAndOverlays_links (inputPath : string) (options : Options num) :
  (addAudioAndOverlays getAudioDuration inputPath options = None <->
   exists file,
     present (backgroundMusic options) = Some file /\
     getAudioDuration file = None) /\
  forall finish,
    addAudioAndOverlays getAudioDuration inputPath options = Some finish ->
    let links := finish_filters finish in
    NoDup (map (@link_output num) links) /\
    In label_final_video (map (@link_output num) links) /\
    In label_final_audio (map (@link_output num) links) /\
    maps finish = [label_final_video; label_final_audio] /\
    (forall label, In label (flat_map (@link_inputs num) links) ->
       if isInput label
       then exists file, fileOf finish label = Some file
       else In label (map (@link_output num) links)) /\
    fileOf finish (stream_v 0) = Some inputPath /\
    (forall link, In link links -> link_output link = label_music ->
       exists i, link_inputs link = [stream_a i] /\
                 fileOf finish (stream_a i) = backgroundMusic options) /\
    (forall link, In link links -> link_output link = label_logo_scaled ->
       exists i, link_inputs link = [stream_v i] /\
                 fileOf finish (stream_v i) = logo options) /\
    (forall link, In link links -> link_output link = label_review_scaled ->
       exists i, link_inputs link = [stream_v i] /\
                 fileOf finish (stream_v i) = reviewImage options) /\
    (forall link, In link links -> link_output link = label_final_audio ->
       forall i, In (stream_a i) (link_inputs link) ->
         i = 0 \/ (i = 1 /\ fileOf finish (stream_a 1) = voiceOver options)).
Proof.
  unfold addAudioAndOverlays, present. split.
  - destruct (given_cases (backgroundMusic options)) as [ [-> [m ->] ] | ->].
    + destruct (getAudioDuration m) eqn:Hprobe; split.
      * discriminate.
      * intros (file & Hfile & Hnone). congruence.
      * intros _. now exists m.
      * reflexivity.
    + destruct (backgroundMusic options); split; try discriminate;
        intros (file & Hfile & _); discriminate.
  - intros finish.
    destruct (given_cases (voiceOver options)) as [ [Hv [v Hv'] ] | Hv],
      (given_cases (backgroundMusic options)) as [ [Hm [m Hm'] ] | Hm],
      (given_cases (logo options)) as [ [Hl [l Hl'] ] | Hl],
      (given_cases (reviewImage options)) as [ [Hr [r Hr'] ] | Hr];
      rewrite Hv, Hm, Hl, Hr;
      try rewrite Hv'; try rewrite Hm'; try rewrite Hl'; try rewrite Hr';
      destruct (logoSize options), (reviewCardSize options);
      try destruct (getAudioDuration m);
      try destruct (backgroundMusic options);
      intros Hfinish; try discriminate Hfinish;
      injection Hfinish as <-; cbn;
      (split; [repeat constructor; cbn; intuition discriminate | ]);
      (split; [tauto | ]); (split; [tauto | ]); (split; [reflexivity | ]);
      (split;
       [ intros label Hin;
         repeat match goal with
         | Hin : _ \/ _ |- _ => destruct Hin as [<- | Hin]
         | Hin : False |- _ => destruct Hin
         end; cbn; first [tauto | eexists; reflexivity]
       | ]);
      (split; [reflexivity | ]);
      (split; [each_link; eexists; split; reflexivity | ]);
      (split; [each_link; eexists; split; reflexivity | ]);
      (split; [each_link; eexists; split; reflexivity | ]);
      each_link; intros i Hi; cbn in Hi;
      repeat match goal with
      | Hi : _ \/ _ |- _ => destruct Hi as [Hi | Hi]
      | Hi : False |- _ => destruct Hi
      | Hi : stream_a _ = stream_a _ |- _ => injection Hi as <-
      | Hi : _ = stream_a _ |- _ => discriminate Hi
      end; auto.
Qed.

End AudioAndOverlays.

(** ** What renderVideo asks of the renderer *)

Section RenderedDurations.
Import FFmpegRenderer.
Local Open Scope Q_scope.

Ltac numerals :=
  change (@int Q exact) with inject_Z in *;
  repeat match goal with
  | |- context [inject_Z (Zpos ?p)] =>
      change (inject_Z (Zpos p)) with (Zpos p # 1)
  end.

(* an image is shown for at least the target duration's share of it *)
Lemma actualImageDuration_at_least (options : FilterOptions Q) (c : Q) :
  (1 <= numSegments options)%nat ->
  0 <= transitionDuration options ->
  c * inject_Z (Z.of_nat (numSegments options)) <= fc_duration options ->
  c <= actualImageDuration options.
Proof.
  intros Hn HT Hc.
  unfold actualImageDuration, adjustedDuration, totalTransitionTime.
  cbn [ndiv nadd nmul exact]. numerals.
  apply Qle_shift_div_l; [now apply count_positive | ].
  assert (Hcount : 0 <= inject_Z (transitionCount options)).
  { change 0 with (inject_Z 0). rewrite <- Zle_Qle. unfold transitionCount. lia. }
  nra.
Qed.

Variable getAudioDuration : string -> Outcome Q.

Lemma durationFor_at_least (assets : PlatformTemplates.Assets) (n : nat) :
  3 * inject_Z (Z.of_nat n)
  <= VideoGenerator.durationFor getAudioDuration None assets n.
Proof.
  assert (Hn : 0 <= inject_Z (Z.of_nat n)).
  { change 0 with (inject_Z 0). rewrite <- Zle_Qle. lia. }
  unfold VideoGenerator.durationFor. cbn [nmul nadd nmax exact].
  numerals.
  destruct (PlatformTemplates.voiceOver assets) as [file | ]; [ | lra].
  destruct (PlatformTemplates.given (Some file)); [ | lra].
  destruct (getAudioDuration file) as [audioDuration | message]; [ | lra].
  apply Qle_trans with (inject_Z (Z.of_nat n) * 3); [lra | ].
  apply Q.le_max_r.
Qed.

(** X16. Without a target duration, renderVideo asks for at least 3 seconds
    per image: 5 seconds per image when there is no voice-over or its
    duration cannot be probed, and otherwise at least the voice-over's
    duration plus 3 seconds.  The renderer keeps the 3 seconds: in a
    single-pass render, and in every batch of a batched render, each image
    is held for at least 3 seconds. *)
Theorem renderVideo_three_seconds_per_image (mode : ImageMode)
  (outputPath : string) (template : PlatformTemplates.SizedTemplate Q)
  (assets : PlatformTemplates.Assets) (images : list string)
  (preset : option string) (quality : option Q)
  (imageMode : option ImageMode) :
  PlatformTemplates.images assets = Some images ->
  (1 <= List.length images)%nat ->
  exists request,
    VideoGenerator.renderVideo_request getAudioDuration outputPath template
      assets None preset quality imageMode = Returned request /\
    FFmpegRenderer.images request = images /\
    3 * inject_Z (Z.of_nat (List.length images)) <= duration request /\
    (forall file audioDuration,
       PlatformTemplates.voiceOver assets = Some file -> file <> ""%string ->
       getAudioDuration file = Returned audioDuration ->
       audioDuration + 3 <= duration request) /\
    (PlatformTemplates.given (PlatformTemplates.voiceOver assets) = false ->
     duration request = inject_Z (Z.of_nat (List.length images)) * 5) /\
    (forall file message,
       PlatformTemplates.voiceOver assets = Some file ->
       getAudioDuration file = Thrown message ->
       duration request = inject_Z (Z.of_nat (List.length images)) * 5) /\
    match buildCommand mode request with
    | single_pass _ filterOptions => 3 <= actualImageDuration filterOptions
    | chunked (Some render) =>
        Forall (fun filterOptions => 3 <= actualImageDuration filterOptions)
          (renders render)
    | chunked None => False
    end.
Proof.
  intros Himages HN. unfold VideoGenerator.renderVideo_request.
  rewrite Himages. destruct (PlatformTemplates.resolution _) as [width height].
  eexists. split; [reflexivity | ].
  cbn [FFmpegRenderer.images duration].
  pose proof (durationFor_at_least assets (List.length images)) as Hduration.
  set (D := VideoGenerator.durationFor getAudioDuration None assets
              (List.length images)) in *.
  split; [reflexivity | split; [exact Hduration | split; [ | split; [ | split] ] ] ].
  - intros file audioDuration Hfile Hname Hprobe. subst D.
    unfold VideoGenerator.durationFor. rewrite Hfile.
    unfold PlatformTemplates.given.
    destruct (String.eqb_spec file "") as [Hempty | _]; [contradiction | ].
    cbn [negb]. rewrite Hprobe. cbn [nmax nadd exact]. numerals.
    apply Q.le_max_l.
  - intros Hnone. subst D. unfold VideoGenerator.durationFor.
    destruct (PlatformTemplates.voiceOver assets) as [file | ];
      [rewrite Hnone | ]; reflexivity.
  - intros file message Hfile Hprobe. subst D.
    unfold VideoGenerator.durationFor. rewrite Hfile, Hprobe.
    destruct (PlatformTemplates.given (Some file)); reflexivity.
  - unfold buildCommand. cbn [FFmpegRenderer.images].
    destruct (Nat.ltb_spec BATCH_THRESHOLD (List.length images)) as [Hmany | Hfew].
    + unfold buildCommandChunked. cbn [FFmpegRenderer.images].
      rewrite chunksOf_batches. cbn [renders].
      apply Forall_forall. intros filterOptions Hin.
      apply in_map_iff in Hin as (chunk & <- & Hchunk).
      unfold batches in Hchunk. apply in_map_iff in Hchunk as (j & <- & Hj).
      apply in_seq in Hj. unfold batchCount in Hj.
      assert (Hsize : (1 <= List.length (chunk_images (batch images j)))%nat)
        by (apply batch_nonempty; lia).
      apply actualImageDuration_at_least.
      * exact Hsize.
      * unfold transitionDuration, transitionOf.
        cbn [renderChunk fc_transition transition orDefault defaultTransition
             t_duration].
        apply Qle_bool_iff. reflexivity.
      * unfold numSegments.
        cbn [renderChunk fc_images fc_duration duration FFmpegRenderer.images].
        unfold chunkDuration. cbn [ndiv nmul exact].
        numerals.
        set (size := inject_Z (Z.of_nat (List.length
                                           (chunk_images (batch images j))))).
        assert (Hpositive : 0 < size) by now apply count_positive.
        apply Qle_shift_div_l; [now apply count_positive | ].
        nra.
    + apply actualImageDuration_at_least.
      * exact HN.
      * unfold transitionDuration, transitionOf.
        cbn [fc_transition orDefault adjustedTransition t_duration
             FFmpegRenderer.images].
        destruct (8 <? List.length images)%nat;
          [ | destruct (5 <? List.length images)%nat];
          apply Qle_bool_iff; reflexivity.
      * exact Hduration.
Qed.

(* the chain that lays the review card over the video *)
Lemma overlayFilters_review (options : FilterOptions Q)
  (box : OverlayBox Q) (index : nat) :
  fc_reviewCardSize options = Some box ->
  fc_reviewIndex options = Some index ->
  exists source,
    In (mkChain [source; ReviewScaled]
          [overlay (box_x box) (box_y box)
             (Some (5, Qmin 20 (fc_duration options * (3 # 10))))]
          (Some WithReview))
       (overlayFilters options).
Proof.
  intros Hbox Hindex. unfold overlayFilters. rewrite Hbox, Hindex.
  eexists. apply in_or_app. right. apply in_or_app. left.
  cbn [orDefault]. right. left. reflexivity.
Qed.

Lemma review_end (D : Q) :
  let reviewEnd := Qmin 20 (D * (3 # 10)) in
  reviewEnd <= 20 /\
  (D < 50 / 3 -> reviewEnd < 5) /\
  (50 / 3 <= D -> 5 <= reviewEnd).
Proof.
  intros reviewEnd. subst reviewEnd.
  assert (Hthird : 50 / 3 == 50 * (1 # 3)) by reflexivity.
  rewrite Hthird.
  split; [apply Q.le_min_l | split]; intros HD.
  - apply Qle_lt_trans with (D * (3 # 10)); [apply Q.le_min_r | lra].
  - apply Q.min_glb; lra.
Qed.

(** X17. A review card is laid over the video from second 5 to
    min(20, 0.3 * D) for a render of duration D, in the single-pass graph
    and in the command that finishes a batched render alike.  The window
    never runs past second 20; for D below 50/3 seconds it ends before it
    starts, so the card is never visible, and for D of 50/3 seconds or more
    it is not empty. *)
Theorem review_window (probeMusic : string -> option Q) (D : Q)
  (box : OverlayBox Q) :
  let reviewEnd := Qmin 20 (D * (3 # 10)) in
  (forall (options : FilterOptions Q) (index : nat),
     fc_duration options = D ->
     fc_reviewCardSize options = Some box ->
     fc_reviewIndex options = Some index ->
     exists source,
       In (mkChain [source; ReviewScaled]
             [overlay (box_x box) (box_y box) (Some (5, reviewEnd))]
             (Some WithReview))
          (overlayFilters options)) /\
  (forall (inputPath : string) (request : Options Q) (finish : Finish Q),
     duration request = D ->
     reviewCardSize request = Some box ->
     given (reviewImage request) = true ->
     addAudioAndOverlays probeMusic inputPath request = Some finish ->
     exists index source,
       In (mkLink [source; label_review_scaled]
             [video_or_audio
                (overlay (box_x box) (box_y box) (Some (5, reviewEnd)))]
             label_final_video)
          (finish_filters finish) /\
       In (mkLink [stream_v index]
             [video_or_audio (scale (box_width box) (box_height box) None)]
             label_review_scaled)
          (finish_filters finish) /\
       nth_error (finish_inputs finish) index = reviewImage request) /\
  reviewEnd <= 20 /\
  (D < 50 / 3 -> reviewEnd < 5) /\
  (50 / 3 <= D -> 5 <= reviewEnd).
Proof.
  intros reviewEnd. split; [ | split; [ | apply review_end] ].
  - intros options index <- Hbox Hindex.
    now apply overlayFilters_review with index.
  - intros inputPath request finish <- Hbox Hreview.
    unfold addAudioAndOverlays. rewrite Hbox, Hreview.
    destruct (given_cases (reviewImage request)) as [ [_ [r Hr] ] | Hnone];
      [ | congruence].
    rewrite Hr.
    destruct (given_cases (voiceOver request)) as [ [Hv [v Hv'] ] | Hv],
      (given_cases (backgroundMusic request)) as [ [Hm [m Hm'] ] | Hm],
      (given_cases (logo request)) as [ [Hl [l Hl'] ] | Hl];
      rewrite Hv, Hm, Hl;
      try rewrite Hv'; try rewrite Hm'; try rewrite Hl';
      destruct (logoSize request);
      try destruct (probeMusic m);
      try destruct (backgroundMusic request);
      intros Hfinish; try discriminate Hfinish;
      injection Hfinish as <-; cbn [finish_filters finish_inputs];
      eexists; eexists;
      (split;
       [ cbn; repeat first [left; reflexivity | right]
       | split;
         [ cbn; repeat first [left; reflexivity | right]
         | cbn; reflexivity ] ]).
Qed.

(** X18. A video rendered in a single pass without a voice-over and
    without a target duration lasts 5 seconds per image, so its review card
    is due from second 5 to second 1.5 * N for N images.  With three images
    or fewer that window ends before it starts and the card is never
    visible; from four images on it is. *)
Theorem renderVideo_review_card_needs_four_images (mode : ImageMode)
  (outputPath : string) (template : PlatformTemplates.SizedTemplate Q)
  (assets : PlatformTemplates.Assets) (images : list string)
  (preset : option string) (quality : option Q)
  (imageMode : option ImageMode) :
  PlatformTemplates.images assets = Some images ->
  (List.length images <= 6)%nat ->
  PlatformTemplates.given (PlatformTemplates.voiceOver assets) = false ->
  PlatformTemplates.given (PlatformTemplates.reviewImage assets) = true ->
  exists request inputs filterOptions source box reviewEnd,
    VideoGenerator.renderVideo_request getAudioDuration outputPath template
      assets None preset quality imageMode = Returned request /\
    duration request = inject_Z (Z.of_nat (List.length images)) * 5 /\
    buildCommand mode request = single_pass inputs filterOptions /\
    In (mkChain [source; ReviewScaled]
          [overlay (box_x box) (box_y box) (Some (5, reviewEnd))]
          (Some WithReview))
       (overlayFilters filterOptions) /\
    reviewEnd == inject_Z (Z.of_nat (List.length images)) * (3 # 2) /\
    ((List.length images <= 3)%nat -> reviewEnd < 5) /\
    ((4 <= List.length images)%nat -> 5 < reviewEnd).
Proof.
  intros Himages HN Hvoice Hreview.
  assert (Hrequest : exists request,
            VideoGenerator.renderVideo_request getAudioDuration outputPath
              template assets None preset quality imageMode
            = Returned request /\
            FFmpegRenderer.images request = images /\
            duration request = inject_Z (Z.of_nat (List.length images)) * 5 /\
            reviewImage request = PlatformTemplates.reviewImage assets /\
            exists box, reviewCardSize request = Some box).
  { unfold VideoGenerator.renderVideo_request. rewrite Himages.
    destruct (PlatformTemplates.resolution _) as [width height].
    eexists. split; [reflexivity | ].
    cbn [FFmpegRenderer.images duration reviewImage reviewCardSize].
    split; [reflexivity | split; [ | split; [reflexivity | eexists; reflexivity] ] ].
    unfold VideoGenerator.durationFor.
    destruct (PlatformTemplates.voiceOver assets) as [file | ];
      [rewrite Hvoice | ]; reflexivity. }
  destruct Hrequest
    as (request & Hrequest & Hlist & Hduration & Hfile & box & Hbox).
  assert (Hcommand : exists inputs filterOptions index,
            buildCommand mode request = single_pass inputs filterOptions /\
            fc_duration filterOptions = duration request /\
            fc_reviewCardSize filterOptions = Some box /\
            fc_reviewIndex filterOptions = Some index).
  { unfold buildCommand. rewrite Hlist.
    destruct (Nat.ltb_spec BATCH_THRESHOLD (List.length images))
      as [Hmany | _]; [unfold BATCH_THRESHOLD in Hmany; lia | ].
    rewrite Hfile.
    change (given (PlatformTemplates.reviewImage assets))
      with (PlatformTemplates.given (PlatformTemplates.reviewImage assets)).
    rewrite Hreview.
    eexists. eexists. eexists.
    split; [reflexivity | ].
    cbn [fc_duration fc_reviewCardSize fc_reviewIndex].
    split; [reflexivity | split; [exact Hbox | reflexivity] ]. }
  destruct Hcommand
    as (inputs & filterOptions & index & Hcommand & HD & Hcard & Hindex).
  destruct (overlayFilters_review filterOptions Hcard Hindex)
    as [source Hsource].
  exists request, inputs, filterOptions, source, box.
  eexists.
  split; [exact Hrequest | ]. split; [exact Hduration | ].
  split; [exact Hcommand | split; [exact Hsource | ] ].
  rewrite HD, Hduration.
  set (N := inject_Z (Z.of_nat (List.length images))).
  assert (Hlow : 0 <= N).
  { subst N. change 0 with (inject_Z 0). rewrite <- Zle_Qle. lia. }
  assert (Hhigh : N <= 6).
  { subst N. change 6 with (inject_Z 6). rewrite <- Zle_Qle. lia. }
  assert (Hend : Qmin 20 (N * 5 * (3 # 10)) == N * (3 # 2)).
  { rewrite Q.min_r by lra. lra. }
  split; [exact Hend | ]. rewrite Hend. split; intros Hcount.
  - assert (N <= 3); [ | lra].
    subst N. change 3 with (inject_Z 3). rewrite <- Zle_Qle. lia.
  - assert (4 <= N); [ | lra].
    subst N. change 4 with (inject_Z 4). rewrite <- Zle_Qle. lia.
Qed.


End RenderedDurations.

Section RenderedDurationsExamples.
Import FFmpegRenderer.
Local Open Scope Q_scope.

Definition squareTemplate : PlatformTemplates.SizedTemplate Q :=
  {| PlatformTemplates.base := PlatformTemplates.createInstagramFeedTemplate;
     PlatformTemplates.calculatedSizes :=
       MathematicalSizing.calculateAllSizes "instagram_feed" 1080 1080
         {| MathematicalSizing.logo := None;
            MathematicalSizing.reviewCard := None |} true |}.

(* three images and a review card, no sound *)
Definition threeImages : PlatformTemplates.Assets :=
  {| PlatformTemplates.images := Some ["a.jpg"; "b.jpg"; "c.jpg"];
     PlatformTemplates.logo := None;
     PlatformTemplates.reviewImage := Some "review.png";
     PlatformTemplates.voiceOver := None;
     PlatformTemplates.backgroundMusic := None |}.

Definition noProbe : string -> Outcome Q := fun _ => Thrown "ffprobe failed".

Lemma buildCommandChunked_renders_witness :
  exists render,
    buildCommandChunked CROP_FILL (requestFor ten_images 30 None) = Some render /\
    list_sum (map (fun filterOptions => List.length (fc_images filterOptions))
                (renders render)) = 13%nat.
Proof.
  destruct (@buildCommandChunked_renders Q exact CROP_FILL
              (requestFor ten_images 30 None))
    as (render & Hrender & _ & _ & _ & _ & Htotal).
  exists render. split; [exact Hrender | ].
  apply Htotal. cbn. lia.
Defined.

Lemma addAudioAndOverlays_links_witness :
  exists finish,
    addAudioAndOverlays (fun _ => Some 60) "out/concatenated_video.mp4"
      brandedRequest = Some finish /\
    NoDup (map (@link_output Q) (finish_filters finish)).
Proof.
  assert (Hfinish : exists finish,
            addAudioAndOverlays (fun _ => Some 60) "out/concatenated_video.mp4"
              brandedRequest = Some finish)
    by (eexists; reflexivity).
  destruct Hfinish as (finish & Hfinish). exists finish.
  split; [exact Hfinish | ].
  destruct (@addAudioAndOverlays_links Q exact (fun _ => Some 60)
              "out/concatenated_video.mp4" brandedRequest)
    as (_ & Hlinks).
  destruct (Hlinks finish Hfinish) as (Hnodup & _). exact Hnodup.
Defined.

Lemma renderVideo_three_seconds_per_image_witness :
  exists request,
    VideoGenerator.renderVideo_request noProbe "output/video.mp4"
      squareTemplate threeImages None None None None = Returned request /\
    3 * 3 <= duration request.
Proof.
  destruct (@renderVideo_three_seconds_per_image noProbe CROP_FILL
              "output/video.mp4" squareTemplate threeImages
              ["a.jpg"; "b.jpg"; "c.jpg"] None None None)
    as (request & Hrequest & _ & Hduration & _);
    [reflexivity | cbn; lia | ].
  exists request. split; [exact Hrequest | exact Hduration].
Defined.

Lemma review_window_witness :
  Qmin 20 (15 * (3 # 10)) < 5.
Proof.
  apply (@review_window (fun _ => None) 15
           {| box_width := 486; box_height := 300; box_x := 297;
              box_y := 390 |}).
  apply Qlt_alt. reflexivity.
Defined.

Lemma renderVideo_review_card_needs_four_images_witness :
  exists request inputs filterOptions source box reviewEnd,
    VideoGenerator.renderVideo_request noProbe "output/video.mp4"
      squareTemplate threeImages None None None None = Returned request /\
    buildCommand CROP_FILL request = single_pass inputs filterOptions /\
    In (mkChain [source; ReviewScaled]
          [overlay (box_x box) (box_y box) (Some (5, reviewEnd))]
          (Some WithReview))
       (overlayFilters filterOptions) /\
    reviewEnd < 5.
Proof.
  destruct (@renderVideo_review_card_needs_four_images noProbe CROP_FILL
              "output/video.mp4" squareTemplate threeImages
              ["a.jpg"; "b.jpg"; "c.jpg"] None None None)
    as (request & inputs & filterOptions & source & box & reviewEnd
        & Hrequest & _ & Hcommand & Hchain & _ & Hhidden & _);
    [reflexivity | cbn; lia | reflexivity | reflexivity | ].
  exists request, inputs, filterOptions, source, box, reviewEnd.
  split; [exact Hrequest | split; [exact Hcommand | split; [exact Hchain | ] ] ].
  apply Hhidden. cbn. lia.
Defined.

(* three images and a voice-over of 20 seconds *)
Definition narrated : PlatformTemplates.Assets :=
  {| PlatformTemplates.images := Some ["a.jpg"; "b.jpg"; "c.jpg"];
     PlatformTemplates.logo := None;
     PlatformTemplates.reviewImage := None;
     PlatformTemplates.voiceOver := Some "voice.mp3";
     PlatformTemplates.backgroundMusic := None |}.


(* the graph of that render: the card is due from second 5 to second 4.5 *)
Example renderVideo_three_images_review_window :
  exists request inputs filterOptions,
    VideoGenerator.renderVideo_request noProbe "output/video.mp4"
      squareTemplate threeImages None None None None = Returned request /\
    buildCommand CROP_FILL request = single_pass inputs filterOptions /\
    inputs = ["a.jpg"; "b.jpg"; "c.jpg"; "review.png"] /\
    In (mkChain [Trimmed; ReviewScaled]
          [overlay 162 306 (Some (5, Qmin 20 (3 * 5 * (3 # 10))))]
          (Some WithReview))
       (overlayFilters filterOptions).
Proof.
  eexists. eexists. eexists.
  split; [reflexivity | split; [reflexivity | split; [reflexivity | ] ] ].
  vm_compute. tauto.
Qed.

End RenderedDurationsExamples.

(** ** Validation and the working directory *)

Section Generation.
Import PlatformTemplates VideoGenerator.
Context {num : Type} `{JSNumber num}.
Local Open Scope nat_scope.

(* what a caller sees of a validation: the verdict and the errors *)
Definition verdict (outcome : Outcome Validation)
  : Outcome (bool * list string) :=
  match outcome with
  | Returned validation => Returned (valid validation, errors validation)
  | Thrown message => Thrown message
  end.

(** X19. Validation accepts a request exactly when the platform has a
    template of its own and there are at least three images; a request is
    valid exactly when it has no errors.  The logo, the review image, the
    voice-over and the music only add warnings: two requests for the same
    platform with the same images get the same verdict and the same
    errors. *)
Theorem validateAssets_accepts (platform : string) (assets : Assets) :
  (forall validation,
     validateAssets platform assets = Returned validation ->
     (valid validation = true <-> errors validation = []) /\
     (valid validation = true <->
      (exists template, templateFor platform = own template) /\
      exists list, images assets = Some list /\ 3 <= List.length list)) /\
  (forall others,
     images others = images assets ->
     verdict (validateAssets platform others)
     = verdict (validateAssets platform assets)).
Proof.
  unfold validateAssets, imageErrors. split.
  - intros validation.
    destruct (templateFor platform) as [template | | ];
      destruct (images assets) as [list | ];
      try destruct (Nat.ltb_spec (List.length list) 3);
      intros Hvalidation; try discriminate Hvalidation;
      injection Hvalidation as <-; cbn [valid errors List.length Nat.eqb];
      split; split; intros Hyp;
      first
        [ discriminate Hyp
        | reflexivity
        | match type of Hyp with
          | _ /\ _ =>
              destruct Hyp
                as [ (template' & Htemplate) (list' & Hlist & Hcount) ];
              first [ discriminate Htemplate | discriminate Hlist
                    | injection Hlist as <-; lia ]
          end
        | split; [eexists; reflexivity | eexists; split; [reflexivity | lia] ] ].
  - intros others Himages. rewrite Himages.
    destruct (templateFor platform), (images assets); reflexivity.
Qed.

Variable getImageDimensions : string -> Outcome (num * num).
Variable mkdir : string -> Outcome unit.
Variable renderVideo : SizedTemplate num -> Assets -> string -> Outcome string.
Variable tempDir : string.
Variable sessionId : string.

(* the probe made for an overlay path: none for a missing or empty path *)
Definition probeOf (path : option string) : list Event :=
  match path with
  | Some file => if given path then [Probe file] else []
  | None => []
  end.

(* the logo is probed first, then the review image *)
Definition overlayProbes (assets : Assets) : list Event :=
  probeOf (logo assets) ++ probeOf (reviewImage assets).

(** X20. A run of generateVideo takes one of three courses.  When
    validation, a probe or the template lookup fails, the call throws
    having done nothing but the probes made up to then, the logo's before
    the review image's: no directory is created.  Otherwise both overlay
    images that were given have been probed, in that order, and the working
    directory path.join(tempDir, sessionId) is created; when that fails,
    the call throws and nothing is rendered or removed.  Otherwise the
    video is rendered once, the call ends as the render ends, and the
    working directory is removed after the render, whether the render
    returned or threw, unless keepTemp is set, in which case nothing is
    removed. *)
Theorem generateVideo_courses (platform : string) (assets : Assets)
  (adaptiveGraphics keepTemp : bool) :
  let run :=
    generateVideo getImageDimensions mkdir renderVideo tempDir sessionId
      platform assets adaptiveGraphics keepTemp in
  let trace := fst run in
  let workDir := Path.join [tempDir; sessionId] in
  ((exists later, overlayProbes assets = trace ++ later) /\
   exists message, snd run = Thrown message) \/
  (trace = overlayProbes assets ++ [Mkdir workDir] /\
   exists message, mkdir workDir = Thrown message /\ snd run = Thrown message) \/
  (exists template,
     trace = overlayProbes assets ++ [Mkdir workDir; Render platform workDir]
             ++ (if keepTemp then [] else [Rm workDir]) /\
     snd run = renderVideo template assets workDir).
Proof.
  unfold generateVideo, probe, bind, finally, ret, throw, overlayProbes,
    probeOf.
  destruct (validateAssets platform assets) as [validation | message];
    [ | left; split; [now eexists | now exists message] ].
  destruct (valid validation); cbn [negb];
    [ | left; split; [now eexists | eexists; reflexivity] ].
  destruct (logo assets) as [logoFile | ];
    [destruct (given (Some logoFile));
     [destruct (getImageDimensions logoFile) as [logoDims | message] | ] | ];
    destruct (reviewImage assets) as [reviewFile | ];
    try (destruct (given (Some reviewFile));
         [destruct (getImageDimensions reviewFile) as [reviewDims | message1] | ]);
    try (left; split; [eexists; reflexivity | eexists; reflexivity]);
    match goal with
    | |- context [getTemplate ?p ?a ?g] =>
        destruct (getTemplate p a g) as [template | message2]
    end;
    try (left; split;
         [exists []; cbn [app]; rewrite ?app_nil_r; reflexivity
         | eexists; reflexivity]);
    destruct (mkdir _) as [ [ ] | message3] eqn:Hmkdir;
    try (right; left; split; [reflexivity | eexists; split; reflexivity]);
    right; right; exists template;
    destruct keepTemp, (renderVideo template assets _); split; reflexivity.
Qed.

(** X21. A request that passes validation runs to the render whenever its
    overlay probes and the creation of the working directory
    path.join(tempDir, sessionId) succeed: the template lookup cannot fail
    after validation.  The render is given the platform's own template with
    the sizes computed at the template's resolution from the probed logo
    and review card dimensions, and the call ends as the render ends. *)
Theorem generateVideo_valid_request (platform : string) (assets : Assets)
  (adaptiveGraphics keepTemp : bool) (template : Template)
  (list : list string) (logoDims reviewDims : option (num * num)) :
  let workDir := Path.join [tempDir; sessionId] in
  let run :=
    generateVideo getImageDimensions mkdir renderVideo tempDir sessionId
      platform assets adaptiveGraphics keepTemp in
  templateFor platform = own template ->
  images assets = Some list -> 3 <= List.length list ->
  snd (probe getImageDimensions (logo assets)) = Returned logoDims ->
  snd (probe getImageDimensions (reviewImage assets)) = Returned reviewDims ->
  mkdir workDir = Returned tt ->
  snd run
  = renderVideo
      {| base := template;
         calculatedSizes :=
           MathematicalSizing.calculateAllSizes platform
             (int (fst (resolution template)))
             (int (snd (resolution template)))
             {| MathematicalSizing.logo := logoDims;
                MathematicalSizing.reviewCard := reviewDims |}
             adaptiveGraphics |}
      assets workDir /\
  fst run
  = overlayProbes assets
    ++ [Mkdir workDir; Render platform workDir]
    ++ (if keepTemp then [] else [Rm workDir]).
Proof.
  intros workDir run Htemplate Himages Hcount Hlogo Hreview Hmkdir.
  subst run. unfold generateVideo, validateAssets, imageErrors, getTemplate.
  rewrite Htemplate, Himages.
  destruct (Nat.ltb_spec (List.length list) 3) as [Hfew | _]; [lia | ].
  cbn [bind valid List.length Nat.eqb negb app].
  assert (Hprobes : forall path,
            fst (probe getImageDimensions path) = probeOf path).
  { intros [file | ]; [ | reflexivity]. unfold probe, probeOf.
    destruct (given (Some file)); reflexivity. }
  unfold overlayProbes. rewrite <- !Hprobes.
  destruct (probe getImageDimensions (logo assets)) as [trace outcome].
  cbn [snd fst] in Hlogo |- *. subst outcome.
  destruct (probe getImageDimensions (reviewImage assets)) as [trace' outcome].
  cbn [snd fst] in Hreview |- *. subst outcome.
  cbn [bind]. destruct (resolution template) as [width height].
  cbn [bind fst snd]. fold workDir. rewrite Hmkdir. unfold finally.
  cbn [fst snd app]. rewrite <- ?app_assoc. split; reflexivity.
Qed.

End Generation.

Section GenerationExamples.
Import PlatformTemplates VideoGenerator.

Example join_working_directory :
  Path.join ["./temp"; "1700000000000"] = "temp/1700000000000" /\
  Path.join ["/var/tmp/"; "1700000000000"] = "/var/tmp/1700000000000" /\
  Path.join ["temp/../work"; "1700000000000"] = "work/1700000000000" /\
  Path.join [""; "1700000000000"] = "1700000000000" /\
  Path.join ["../temp"; "1700000000000"] = "../temp/1700000000000".
Proof. repeat split. Qed.

Lemma validateAssets_accepts_witness :
  exists validation,
    validateAssets "youtube" threeImages = Returned validation /\
    valid validation = true.
Proof.
  eexists. split; [reflexivity | ].
  apply (validateAssets_accepts "youtube" threeImages); [reflexivity | ].
  split; [eexists; reflexivity | ].
  eexists. split; [reflexivity | cbn; lia].
Defined.

Lemma generateVideo_valid_request_witness :
  snd (generateVideo (num := Q) (fun _ => Returned (800, 600)%Q)
         (fun _ => Returned tt) (fun _ _ _ => Returned "output/video.mp4")
         "./temp" "1700000000000" "instagram_feed" threeImages true false)
  = Returned "output/video.mp4" /\
  fst (generateVideo (num := Q) (fun _ => Returned (800, 600)%Q)
         (fun _ => Returned tt) (fun _ _ _ => Returned "output/video.mp4")
         "./temp" "1700000000000" "instagram_feed" threeImages true false)
  = [ Probe "review.png"; Mkdir "temp/1700000000000";
      Render "instagram_feed" "temp/1700000000000";
      Rm "temp/1700000000000" ].
Proof.
  destruct (@generateVideo_valid_request Q exact
              (fun _ => Returned (800, 600)%Q) (fun _ => Returned tt)
              (fun _ _ _ => Returned "output/video.mp4")
              "./temp" "1700000000000" "instagram_feed" threeImages true false
              createInstagramFeedTemplate ["a.jpg"; "b.jpg"; "c.jpg"]
              None (Some (800, 600)%Q))
    as [Houtcome Htrace];
    [reflexivity | reflexivity | cbn; lia | reflexivity | reflexivity
    | reflexivity | ].
  split; [exact Houtcome | exact Htrace].
Defined.

End GenerationExamples.

Section Stitching.
Import FFmpegRenderer.
Local Open Scope nat_scope.

(** X22. Stitching k >= 2 batch videos makes k - 1 cross-fades, in order:
    the first joins inputs 0 and 1, join i joins what join i - 1 wrote with
    input i, and each writes the label named after the input it adds; so
    every batch video is read exactly once and the last join writes the
    label of the last batch.  Each is a fade of the transition's duration
    (0.5 s when that is zero).  One batch video is passed on as it is; none
    makes the call throw. *)
Theorem concatenateChunksWithTransitions_chain (chunks : list Chunk)
  (durations : list Q) (transition : Transition Q) :
  let k := List.length durations in
  let T' := or_default (t_duration transition) (5 # 10)%Q in
  (k = 0 ->
   concatenateChunksWithTransitions chunks durations (Some transition) = None) /\
  (k = 1 ->
   concatenateChunksWithTransitions chunks durations (Some transition)
   = Some one_chunk) /\
  (2 <= k -> exists joins final,
     concatenateChunksWithTransitions chunks durations (Some transition)
     = Some (joined joins final) /\
     List.length joins = k - 1 /\
     (forall i, 1 <= i < k ->
        let join := join_filter (nth (i - 1) joins noJoin) in
        inputs join = [if i =? 1 then InV 0 else Segment (i - 1); InV i] /\
        output join = Some (Segment i) /\
        filters join = [xfade "fade" T' (offset (nth (i - 1) joins noJoin))]) /\
     (forall i, 2 <= i < k ->
        hd_error (inputs (join_filter (nth (i - 1) joins noJoin)))
        = output (join_filter (nth (i - 2) joins noJoin))) /\
     output (join_filter (last joins noJoin)) = Some (Segment (k - 1))).
Proof.
  intros k T'. split; [ | split].
  - subst k. destruct durations; [reflexivity | discriminate].
  - subst k. destruct durations as [ | d [ | d' rest] ];
      [discriminate | reflexivity | discriminate].
  - intros Hk. rewrite concatenate_joins by exact Hk. fold T' k.
    eexists. eexists. split; [reflexivity | ].
    assert (Hat : forall i, 1 <= i < k ->
              nth (i - 1) (map (joinAt chunks durations T') (seq 1 (k - 1)))
                noJoin
              = joinAt chunks durations T' i).
    { intros i Hi. rewrite nth_map_seq by lia. f_equal. lia. }
    split; [now rewrite length_map, length_seq | ].
    split; [ | split].
    + intros i Hi. cbn zeta. rewrite Hat by exact Hi. repeat split.
    + intros i Hi. rewrite !Hat by lia.
      replace (i - 2) with (i - 1 - 1) by lia. rewrite Hat by lia.
      unfold joinAt. cbn [join_filter inputs output hd_error].
      destruct (Nat.eqb_spec i 1); [lia | reflexivity].
    + assert (Hseq : seq 1 (k - 1) = seq 1 (k - 2) ++ [k - 1]).
      { replace (k - 1) with (S (k - 2)) at 1 by lia.
        rewrite seq_S. do 2 f_equal. lia. }
      rewrite Hseq, map_app. cbn [map]. rewrite last_last. reflexivity.
Qed.

Lemma concatenateChunksWithTransitions_chain_witness :
  exists joins final,
    concatenateChunksWithTransitions (batches ten_images)
      [9; 12; 12; 6]%Q (Some {| t_type := Some "fade"; t_duration := (1 # 2)%Q |})
    = Some (joined joins final) /\
    List.length joins = 3.
Proof.
  destruct (@concatenateChunksWithTransitions_chain (batches ten_images)
              [9; 12; 12; 6]%Q
              {| t_type := Some "fade"; t_duration := (1 # 2)%Q |})
    as (_ & _ & Hjoins).
  destruct Hjoins as (joins & final & Hsome & Hlength & _); [cbn; lia | ].
  exists joins, final. split; [exact Hsome | exact Hlength].
Defined.

End Stitching.

Section MissingAudioDuration.
Import PlatformTemplates VideoGenerator.

(** X24. A probe that answers without a duration is not treated as a
    failed probe.  When the voice-over's duration comes back missing (NaN
    in the arithmetic), renderVideo does not fall back to 5 seconds per
    image as it does when the probe throws: the duration it asks the
    renderer for is NaN, whatever the number of images; a target duration,
    when one is set, is still used. *)
Theorem durationFor_missing_audio_duration (assets : Assets) (file : string)
  (imageCount : nat) :
  voiceOver assets = Some file -> file <> "" ->
  is_nan (durationFor (num := float) (fun _ => Returned nan) None assets
            imageCount) = true /\
  (forall message,
     durationFor (num := float) (fun _ => Thrown message) None assets imageCount
     = PrimFloat.mul (int (Z.of_nat imageCount)) (int 5)) /\
  (forall target,
     Ieee.to_boolean target = true ->
     durationFor (num := float) (fun _ => Returned nan) (Some target) assets
       imageCount = target).
Proof.
  intros Hfile Hname. unfold durationFor. rewrite Hfile.
  assert (Hgiven : given (Some file) = true).
  { unfold given. destruct (String.eqb_spec file ""); [contradiction | ].
    reflexivity. }
  rewrite Hgiven. split; [ | split].
  - cbn [nmax nadd ieee]. unfold Ieee.max.
    assert (Hnan : is_nan (PrimFloat.add nan (int 3)) = true)
      by (vm_compute; reflexivity).
    rewrite Hnan. reflexivity.
  - intros message. reflexivity.
  - intros target Htruthy. cbn [truthy ieee]. now rewrite Htruthy.
Qed.

Lemma durationFor_missing_audio_duration_witness :
  is_nan (durationFor (num := float) (fun _ => Returned nan) None narrated 3)
  = true.
Proof.
  apply (@durationFor_missing_audio_duration narrated "voice.mp3" 3);
    [reflexivity | discriminate].
Defined.

End MissingAudioDuration.
